(** * Website01: client-side behaviour of the portfolio page

    A shallow embedding of the two revisions of the page script:

    - [src/script.js], the revision with the "experience posts" feature and a
      single dialog (the project modal);
    - [src/unnamed/part_000], the later revision with the blog feature and a
      second dialog (the blog modal).

    The development is organised by feature: JavaScript string helpers
    ([JsString]), the project gallery filter and search ([Projects]), the
    like counters of posts and blogs ([Likes]), and the dialog subsystem with
    its focus trap ([Modal]).  Browser objects are modelled by the parts of
    them the script reads or writes. *)

From Stdlib Require Import List String Ascii ZArith Bool Arith Lia.
From Stdlib Require Import Sorting.Sorted Sorting.Permutation.
Import ListNotations.

(* ------------------------------------------------------------------ *)
(** ** JavaScript strings

    Strings are byte strings; [toLowerCase] and [trim] are given on the ASCII
    range (letters [A]-[Z]; white space TAB, LF, VT, FF, CR and SPACE), which
    is what project titles, tags and typed queries are made of.  Outside
    that range they are not the functions of JavaScript, whose [toLowerCase]
    follows Unicode and can depend on the neighbouring letters; a statement
    that relies on how they act on a text is made for ASCII text. *)

Module JsString.

#[local] Open Scope string_scope.

Definition is_upper (c : ascii) : bool :=
  (65 <=? nat_of_ascii c)%nat && (nat_of_ascii c <=? 90)%nat.

Definition lower_char (c : ascii) : ascii :=
  if is_upper c then ascii_of_nat (nat_of_ascii c + 32) else c.

(** [String.prototype.toLowerCase] *)
Fixpoint toLowerCase (s : string) : string :=
  match s with
  | EmptyString => EmptyString
  | String c r => String (lower_char c) (toLowerCase r)
  end.

Definition is_space (c : ascii) : bool :=
  let n := nat_of_ascii c in
  ((9 <=? n)%nat && (n <=? 13)%nat) || (n =? 32)%nat.

Fixpoint trimStart (s : string) : string :=
  match s with
  | EmptyString => EmptyString
  | String c r => if is_space c then trimStart r else s
  end.

Fixpoint trimEnd (s : string) : string :=
  match s with
  | EmptyString => EmptyString
  | String c r =>
      match trimEnd r with
      | EmptyString => if is_space c then EmptyString else String c EmptyString
      | r' => String c r'
      end
  end.

(** [String.prototype.trim] *)
Definition trim (s : string) : string := trimEnd (trimStart s).

(** [q] is read at the start of [s]. *)
Fixpoint starts_with (q s : string) : bool :=
  match q, s with
  | EmptyString, _ => true
  | String _ _, EmptyString => false
  | String c q', String d s' => Ascii.eqb c d && starts_with q' s'
  end.

(** [String.prototype.includes]: [q] occurs in [s] at some position. *)
Fixpoint includes (s q : string) : bool :=
  if starts_with q s then true
  else match s with
       | EmptyString => false
       | String _ r => includes r q
       end.

(** [Array.prototype.includes] on an array of strings (strict equality). *)
Definition array_includes (l : list string) (x : string) : bool :=
  existsb (String.eqb x) l.

(** [s || ''] for a property that may be missing. *)
Definition or_empty (s : option string) : string :=
  match s with Some v => v | None => "" end.

(** Truthiness of a string-valued property: present and not empty. *)
Definition truthy (s : option string) : bool :=
  match s with
  | Some EmptyString | None => false
  | Some _ => true
  end.

(** [q] is a substring of [s]. *)
Definition substring_of (q s : string) : Prop :=
  exists a b, s = a ++ q ++ b.

End JsString.

(* ------------------------------------------------------------------ *)
(** ** Project gallery: tag filter and search

    [state.projects], [state.filteredProjects] and [state.currentFilter] of
    the script, with the two handlers that rewrite the filtered list.  The
    handlers are the same in both revisions.  [renderProjects] rebuilds the
    gallery from [state.filteredProjects] and writes nothing back to the
    state, so it does not appear. *)

Module Projects.

Import JsString.
#[local] Open Scope string_scope.

(** An entry of [projects.json].  Every property may be missing. *)
Record project := {
  id : Z;
  title : option string;
  description : option string;
  fullDescription : option string;
  tags : option (list string);
  image : option string;
  github : option string;
  demo : option string
}.

(** [p.tags || []] *)
Definition tags_or_empty (p : project) : list string :=
  match tags p with Some l => l | None => [] end.

Record state := {
  projects : list project;
  filteredProjects : list project;
  currentFilter : string
}.

Definition demo_shop : project :=
    {| id := 101;
       title := Some "Demo Shop";
       description := Some "Demo e-commerce site.";
       fullDescription := Some "Demo full description with features.";
       tags := Some ["React"; "Node.js"];
       image := Some "data:image/svg+xml,%3Csvg xmlns='http://www.w3.org/2000/svg' viewBox='0 0 600 400'%3E%3Crect width='600' height='400' fill='%234f46e5'/%3E%3Ctext x='50%25' y='50%25' fill='white' font-size='32' text-anchor='middle' dominant-baseline='middle'%3EDemo Shop%3C/text%3E%3C/svg%3E";
       github := Some "#";
       demo := Some "#" |}.

Definition demoProjects : list project := [demo_shop].

(** [p => (p.tags || []).includes(tag)] *)
Definition has_tag (tag : string) (p : project) : bool :=
  array_includes (tags_or_empty p) tag.

Definition toggleFilter (tag : string) (st : state) : state :=
  if String.eqb (currentFilter st) tag then
    {| projects := projects st;
       filteredProjects := projects st;
       currentFilter := "all" |}
  else
    {| projects := projects st;
       filteredProjects := filter (has_tag tag) (projects st);
       currentFilter := tag |}.

(** The pool the search handler starts from. *)
Definition pool (st : state) : list project :=
  if String.eqb (currentFilter st) "all" then projects st
  else filter (has_tag (currentFilter st)) (projects st).

(** The predicate of the search handler's [pool.filter]. *)
Definition matches (q : string) (p : project) : bool :=
  includes (toLowerCase (or_empty (title p))) q
  || includes (toLowerCase (or_empty (description p))) q
  || existsb (fun t => includes (toLowerCase t) q) (tags_or_empty p).

(** The query the handler derives from the input's value. *)
Definition query (value : string) : string :=
  trim (toLowerCase (or_empty (Some value))).

(** The listener [initProjectSearch] puts on the search input, as it runs
    once the debounce delay has passed; [value] is [e.target.value]. *)
Definition onSearchInput (value : string) (st : state) : state :=
  let q := query value in
  {| projects := projects st;
     filteredProjects := filter (matches q) (pool st);
     currentFilter := currentFilter st |}.

(** The test the handler applies to a project of [state.projects]: the
    pool test, then the match test. *)
Definition kept (value : string) (st : state) (p : project) : bool :=
  (String.eqb (currentFilter st) "all" || has_tag (currentFilter st) p)
  && matches (query value) p.

(** The demo gallery, unfiltered. *)
Definition demo_state : state :=
  {| projects := demoProjects;
     filteredProjects := demoProjects;
     currentFilter := "all" |}.

(** The search criterion read word for word: the title, the description or
    some tag contains the lowercased, trimmed query. *)
Definition contains_query_as_written (value : string) (p : project) : Prop :=
  substring_of (query value) (or_empty (title p))
  \/ substring_of (query value) (or_empty (description p))
  \/ exists t, In t (tags_or_empty p) /\ substring_of (query value) t.

(** The search criterion with the case folding the handler applies to the
    fields as well. *)
Definition contains_query_folded (value : string) (p : project) : Prop :=
  substring_of (query value) (toLowerCase (or_empty (title p)))
  \/ substring_of (query value) (toLowerCase (or_empty (description p)))
  \/ exists t, In t (tags_or_empty p)
              /\ substring_of (query value) (toLowerCase t).

(** The filter pool in the words of the gallery: every project under
    ['all'], otherwise the projects whose tag list includes the filter. *)
Definition in_pool (st : state) (p : project) : Prop :=
  In p (projects st)
  /\ (currentFilter st = "all" \/ In (currentFilter st) (tags_or_empty p)).

End Projects.

(* ------------------------------------------------------------------ *)
(** ** Like counters

    [likePost] of [src/script.js] works on [state.posts]; [likeBlog] of the
    later revision performs the same update on [state.blogs] and is given
    with the dialog state below, because it reads [state.currentBlogId].

    A stored entry may lack [likes] or [liked] (the seed posts of
    [script.js] carry no [liked] property), hence the options.  Counters are
    integers: the page only ever adds or subtracts one. *)

Module Likes.

(** [!!v] for a boolean property that may be missing. *)
Definition flag (v : option bool) : bool :=
  match v with Some b => b | None => false end.

(** [v || 0] for a numeric property that may be missing. *)
Definition count (v : option Z) : Z :=
  match v with
  | Some n => if (n =? 0)%Z then 0%Z else n
  | None => 0%Z
  end.

(** The two assignments of the like handlers,
    [x.liked = !x.liked; x.likes = (x.likes || 0) + (x.liked ? 1 : -1)],
    as the new values of [(likes, liked)]. *)
Definition toggled (likes : option Z) (liked : option bool) : Z * bool :=
  let liked' := negb (flag liked) in
  ((count likes + (if liked' then 1 else -1))%Z, liked').

Record post := {
  post_id : Z;
  content : string;
  date : Z;                 (* the instant of the ISO date string, in ms *)
  likes : option Z;
  liked : option bool
}.

Definition like (p : post) : post :=
  {| post_id := post_id p;
     content := content p;
     date := date p;
     likes := Some (fst (toggled (likes p) (liked p)));
     liked := Some (snd (toggled (likes p) (liked p))) |}.

(** What the page reads of an entry: the counter as [likes || 0] and the
    flag as the truth value of [liked]. *)
Definition shown (p : post) : Z * string * Z * Z * bool :=
  (post_id p, content p, date p, count (likes p), flag (liked p)).

(** The entry carries both properties, as every entry [addPost] creates. *)
Definition complete (p : post) : Prop :=
  likes p <> None /\ liked p <> None.

(** The slice of the script's state the post handlers use: [state.posts]
    and the ['portfolio-posts'] entry of local storage ([None] while the key
    is unset; the stored JSON text is represented by the list it encodes). *)
Record state := {
  posts : list post;
  stored_posts : option (list post)
}.

(** [seedPosts()], with [now] for [Date.now()]. *)
Definition seedPosts (now : Z) : list post :=
  [ {| post_id := now - 3000;
       content := "Just learned CSS Grid — life-changing!";
       date := now - 86400000 * 3;
       likes := Some 5; liked := None |};
    {| post_id := now - 2000;
       content := "Step away to debug sometimes — it helps.";
       date := now - 86400000 * 2;
       likes := Some 12; liked := None |} ]%Z.

(** The state after [addPost] has been used twice on an empty list. *)
Definition two_posts : state :=
  {| posts :=
       [ {| post_id := 2000; content := "second"; date := 2000;
            likes := Some 0; liked := Some false |};
         {| post_id := 1000; content := "first"; date := 1000;
            likes := Some 0; liked := Some false |} ]%Z;
     stored_posts := None |}.

(** In-place update of the object [Array.prototype.find] returns: the first
    entry satisfying [f] is replaced by its image under [g]. *)
Fixpoint update_found {A : Type} (f : A -> bool) (g : A -> A) (l : list A)
  : list A :=
  match l with
  | [] => []
  | x :: r => if f x then g x :: r else x :: update_found f g r
  end.

Definition has_id (i : Z) (p : post) : bool := (post_id p =? i)%Z.

(** [savePosts(); renderPosts()] after the update: the list is written to
    local storage; the re-rendered cards are a function of the state. *)
Definition likePost (i : Z) (st : state) : state :=
  match find (has_id i) (posts st) with
  | None => st
  | Some _ =>
      let posts' := update_found (has_id i) like (posts st) in
      {| posts := posts'; stored_posts := Some posts' |}
  end.

End Likes.

(* ------------------------------------------------------------------ *)
(** ** Dialogs: project modal, blog modal and the focus trap

    The document is reduced to what the dialog code touches.

    - A DOM node is known by its identity [nid] and by whether it matches the
      two selectors the script uses: ['.modal-close'] and the focus-trap
      selector ['a[href], button:not([disabled]), textarea, input, select,
      [tabindex]:not([tabindex="-1"])'].  Nodes matching neither selector
      (images, headings, paragraphs, tag spans) are left out.
    - A dialog container holds its attributes, its descendants in document
      order (those before the body element, the content of the body element,
      those after it), its key-down listeners in registration order and its
      [_removeTrap] property.  The body element is taken to lie inside its
      container, as the class names of the markup say.
    - [HTMLElement.focus()] moves the focus to the node when the node is
      attached to the document, and does nothing, silently, otherwise.
      Whether the node is rendered is not followed: a browser also ignores
      the call on a node inside a container whose display is ['none'].
    - The state is that of the later revision; the handlers of
      [src/script.js] are the project-modal handlers, which are literally the
      same in both files, with the two document listeners that differ given
      separately ([on_document_keydown_v1], [click_close_v1]). *)

Module Modal.

Import JsString.

Inductive surface := ProjectSurface | BlogSurface.

Definition other (A : surface) : surface :=
  match A with ProjectSurface => BlogSurface | BlogSurface => ProjectSurface end.

Record node := {
  nid : nat;
  modal_close : bool;      (* matches '.modal-close' *)
  tabbable : bool          (* matches the focus-trap selector *)
}.

(** A [keyHandler] closure of [trapFocus]: the captured [first] and [last]. *)
Record closure := {
  trap_first : nat;
  trap_last : nat
}.

(** [style.display] of a container and [style.overflow] of [document.body]. *)
Inductive display := display_unset | display_flex | display_none.
Inductive overflow := overflow_unset | overflow_hidden.

Record modal := {
  aria_hidden : option bool;     (* 'aria-hidden': absent, 'true', 'false' *)
  style_display : display;
  open_attr : bool;              (* the 'open' attribute is set *)
  before_body : list node;
  body : option (list node);     (* the body element, if any, and its content *)
  after_body : list node;
  keydown_listeners : list closure;
  removeTrap : option closure;  (* the listener [_removeTrap] would remove *)
  open_timers : nat              (* pending [setTimeout] callbacks *)
}.

Record blog := {
  blog_id : Z;
  blog_title : string;
  blog_content : string;
  blog_date : Z;
  blog_likes : option Z;
  blog_liked : option bool
}.

Record State := {
  project_modal : option modal;  (* getElementById('project-modal') *)
  blog_modal : option modal;     (* getElementById('blog-modal') *)
  page : list nat;               (* nodes attached outside the two dialogs *)
  activeElement : option nat;    (* [None]: no element holds the focus *)
  body_overflow : overflow;
  lastFocused : option nat;      (* the script's global [lastFocused] *)
  next_node : nat;               (* identity of the next node created *)
  blogs : list blog;
  currentBlogId : option Z;
  stored_blogs : option (list blog);
  admin : bool                   (* isAdmin() *)
}.

(** *** Field updates *)

Definition with_project_modal (m : option modal) (s : State) : State :=
  {| project_modal := m; blog_modal := blog_modal s; page := page s;
     activeElement := activeElement s; body_overflow := body_overflow s;
     lastFocused := lastFocused s; next_node := next_node s;
     blogs := blogs s; currentBlogId := currentBlogId s;
     stored_blogs := stored_blogs s; admin := admin s |}.

Definition with_blog_modal (m : option modal) (s : State) : State :=
  {| project_modal := project_modal s; blog_modal := m; page := page s;
     activeElement := activeElement s; body_overflow := body_overflow s;
     lastFocused := lastFocused s; next_node := next_node s;
     blogs := blogs s; currentBlogId := currentBlogId s;
     stored_blogs := stored_blogs s; admin := admin s |}.

Definition with_page (pg : list nat) (s : State) : State :=
  {| project_modal := project_modal s; blog_modal := blog_modal s; page := pg;
     activeElement := activeElement s; body_overflow := body_overflow s;
     lastFocused := lastFocused s; next_node := next_node s;
     blogs := blogs s; currentBlogId := currentBlogId s;
     stored_blogs := stored_blogs s; admin := admin s |}.

Definition with_activeElement (a : option nat) (s : State) : State :=
  {| project_modal := project_modal s; blog_modal := blog_modal s;
     page := page s;
     activeElement := a; body_overflow := body_overflow s;
     lastFocused := lastFocused s; next_node := next_node s;
     blogs := blogs s; currentBlogId := currentBlogId s;
     stored_blogs := stored_blogs s; admin := admin s |}.

Definition with_body_overflow (o : overflow) (s : State) : State :=
  {| project_modal := project_modal s; blog_modal := blog_modal s;
     page := page s;
     activeElement := activeElement s; body_overflow := o;
     lastFocused := lastFocused s; next_node := next_node s;
     blogs := blogs s; currentBlogId := currentBlogId s;
     stored_blogs := stored_blogs s; admin := admin s |}.

Definition with_lastFocused (l : option nat) (s : State) : State :=
  {| project_modal := project_modal s; blog_modal := blog_modal s;
     page := page s;
     activeElement := activeElement s; body_overflow := body_overflow s;
     lastFocused := l; next_node := next_node s;
     blogs := blogs s; currentBlogId := currentBlogId s;
     stored_blogs := stored_blogs s; admin := admin s |}.

Definition with_next_node (n : nat) (s : State) : State :=
  {| project_modal := project_modal s; blog_modal := blog_modal s;
     page := page s;
     activeElement := activeElement s; body_overflow := body_overflow s;
     lastFocused := lastFocused s; next_node := n;
     blogs := blogs s; currentBlogId := currentBlogId s;
     stored_blogs := stored_blogs s; admin := admin s |}.

Definition with_blogs (bs : list blog) (st : option (list blog)) (s : State)
  : State :=
  {| project_modal := project_modal s; blog_modal := blog_modal s;
     page := page s;
     activeElement := activeElement s; body_overflow := body_overflow s;
     lastFocused := lastFocused s; next_node := next_node s;
     blogs := bs; currentBlogId := currentBlogId s;
     stored_blogs := st; admin := admin s |}.

Definition with_currentBlogId (c : option Z) (s : State) : State :=
  {| project_modal := project_modal s; blog_modal := blog_modal s;
     page := page s;
     activeElement := activeElement s; body_overflow := body_overflow s;
     lastFocused := lastFocused s; next_node := next_node s;
     blogs := blogs s; currentBlogId := c;
     stored_blogs := stored_blogs s; admin := admin s |}.

Definition modal_of (A : surface) (s : State) : option modal :=
  match A with
  | ProjectSurface => project_modal s
  | BlogSurface => blog_modal s
  end.

(** *** Queries on a container *)

Definition body_content (m : modal) : list node :=
  match body m with Some c => c | None => [] end.

(** The descendants of the container, in document order. *)
Definition descendants (m : modal) : list node :=
  before_body m ++ body_content m ++ after_body m.

(** [modal.querySelector('.modal-close')] *)
Definition closeBtn (m : modal) : option nat :=
  option_map nid (find modal_close (descendants m)).

(** [container.querySelectorAll(<focus-trap selector>)] *)
Definition focusable (m : modal) : list nat :=
  map nid (filter tabbable (descendants m)).

Definition nodes_of (m : option modal) : list nat :=
  match m with Some m => map nid (descendants m) | None => [] end.

Definition mem (n : nat) (l : list nat) : bool := existsb (Nat.eqb n) l.

(** The node is attached to the document. *)
Definition attached (s : State) (n : nat) : bool :=
  mem n (page s ++ nodes_of (project_modal s) ++ nodes_of (blog_modal s)).

(** [n.focus()] *)
Definition focus (n : nat) (s : State) : State :=
  if attached s n then with_activeElement (Some n) s else s.

(** [if (lastFocused) lastFocused.focus()] *)
Definition restore_focus (s : State) : State :=
  match lastFocused s with
  | Some n => focus n s
  | None => s
  end.

(** [document.activeElement === n] *)
Definition active_is (s : State) (n : nat) : bool :=
  match activeElement s with
  | Some a => Nat.eqb a n
  | None => false
  end.

(** *** The focus trap *)

Inductive key := Tab | Escape | Enter | Space | OtherKey.

Record keyEvent := {
  key_of : key;
  shiftKey : bool
}.

(** [keyHandler(e)] of the closure [h].  The boolean tells whether
    [e.preventDefault()] was called. *)
Definition keyHandler (h : closure) (e : keyEvent) (s : State)
  : State * bool :=
  match key_of e with
  | Tab =>
      if shiftKey e && active_is s (trap_first h) then
        (focus (trap_last h) s, true)
      else if negb (shiftKey e) && active_is s (trap_last h) then
        (focus (trap_first h) s, true)
      else (s, false)
  | _ => (s, false)
  end.

(** [trapFocus(container)], as the update of the container. *)
Definition trapFocus (m : modal) : modal :=
  match focusable m with
  | [] => m
  | first :: rest =>
      let h := {| trap_first := first; trap_last := List.last rest first |} in
      {| aria_hidden := aria_hidden m;
         style_display := style_display m;
         open_attr := open_attr m;
         before_body := before_body m;
         body := body m;
         after_body := after_body m;
         keydown_listeners := keydown_listeners m ++ [h];
         removeTrap := Some h;
         open_timers := open_timers m |}
  end.

(** *** Opening *)

(** [body.innerHTML = ...], then [setAttribute('aria-hidden', 'false')],
    [style.display = 'flex'] and the [setTimeout] that will set ['open']. *)
Definition show (c : list node) (m : modal) : modal :=
  {| aria_hidden := Some false;
     style_display := display_flex;
     open_attr := open_attr m;
     before_body := before_body m;
     body := Some c;
     after_body := after_body m;
     keydown_listeners := keydown_listeners m;
     removeTrap := removeTrap m;
     open_timers := S (open_timers m) |}.

Definition link (n : nat) : node :=
  {| nid := n; modal_close := false; tabbable := true |}.

Definition button (n : nat) : node :=
  {| nid := n; modal_close := false; tabbable := true |}.

(** The nodes of the project template that can match a selector: the
    "View Code" and "Live Demo" links, each present when its URL is truthy.
    Returns the nodes and the next unused identity. *)
Definition render_project (p : Projects.project) (n : nat) : list node * nat :=
  let code := if truthy (Projects.github p) then [link n] else [] in
  let n1 := n + List.length code in
  let live := if truthy (Projects.demo p) then [link n1] else [] in
  (code ++ live, n1 + List.length live).

(** The nodes of the blog template that can match a selector: the like
    button and, for the administrator, the edit and delete buttons. *)
Definition render_blog (is_admin : bool) (n : nat) : list node * nat :=
  if is_admin then ([button n; button (n + 1); button (n + 2)], n + 3)
  else ([button n], n + 1).

(** [closeBtn && closeBtn.focus()] *)
Definition focus_closeBtn (m : modal) (s : State) : State :=
  match closeBtn m with
  | Some c => focus c s
  | None => s
  end.

Definition openProjectModal (project : Projects.project) (s : State) : State :=
  match project_modal s with
  | None => s
  | Some modal =>
      match body modal with
      | None => s
      | Some _ =>
          let s := with_lastFocused (activeElement s) s in
          let '(c, n) := render_project project (next_node s) in
          let modal := show c modal in
          let s := with_next_node n (with_project_modal (Some modal) s) in
          let s := with_body_overflow overflow_hidden s in
          let s := focus_closeBtn modal s in
          with_project_modal (Some (trapFocus modal)) s
      end
  end.

Definition blog_has_id (i : Z) (b : blog) : bool := (blog_id b =? i)%Z.

Definition openBlogModal (i : Z) (s : State) : State :=
  match blog_modal s with
  | None => s
  | Some modal =>
      match body modal with
      | None => s
      | Some _ =>
          match find (blog_has_id i) (blogs s) with
          | None => s
          | Some _ =>
              let s := with_currentBlogId (Some i) s in
              let s := with_lastFocused (activeElement s) s in
              let '(c, n) := render_blog (admin s) (next_node s) in
              let modal := show c modal in
              let s := with_next_node n (with_blog_modal (Some modal) s) in
              let s := with_body_overflow overflow_hidden s in
              let s := focus_closeBtn modal s in
              with_blog_modal (Some (trapFocus modal)) s
          end
      end
  end.

(** *** Closing *)

(** [removeAttribute('open')], [setAttribute('aria-hidden', 'true')] and
    [style.display = 'none']. *)
Definition hide (m : modal) : modal :=
  {| aria_hidden := Some true;
     style_display := display_none;
     open_attr := false;
     before_body := before_body m;
     body := body m;
     after_body := after_body m;
     keydown_listeners := keydown_listeners m;
     removeTrap := removeTrap m;
     open_timers := open_timers m |}.

Definition closeProjectModal (s : State) : State :=
  match project_modal s with
  | None => s
  | Some modal =>
      let s := with_project_modal (Some (hide modal)) s in
      let s := with_body_overflow overflow_unset s in
      restore_focus s
  end.

Definition closeBlogModal (s : State) : State :=
  match blog_modal s with
  | None => s
  | Some modal =>
      let s := with_currentBlogId None s in
      let s := with_blog_modal (Some (hide modal)) s in
      let s := with_body_overflow overflow_unset s in
      restore_focus s
  end.

(** The two surfaces behind one name. *)
Inductive open_arg :=
| OpenProject (project : Projects.project)
| OpenBlog (i : Z).

Definition surface_of (a : open_arg) : surface :=
  match a with
  | OpenProject _ => ProjectSurface
  | OpenBlog _ => BlogSurface
  end.

Definition open (a : open_arg) (s : State) : State :=
  match a with
  | OpenProject p => openProjectModal p s
  | OpenBlog i => openBlogModal i s
  end.

Definition close (A : surface) (s : State) : State :=
  match A with
  | ProjectSurface => closeProjectModal s
  | BlogSurface => closeBlogModal s
  end.

(** The content [open] renders into the body element. *)
Definition rendered (a : open_arg) (s : State) : list node :=
  match a with
  | OpenProject p => fst (render_project p (next_node s))
  | OpenBlog _ => fst (render_blog (admin s) (next_node s))
  end.

(** *** Listeners *)

(** The key-down listeners of a container, run in registration order on one
    event.  The number counts the listeners that wrapped the focus, that is,
    took one of the two [preventDefault] branches. *)
Fixpoint run_listeners (hs : list closure) (e : keyEvent) (s : State)
  : State * nat :=
  match hs with
  | [] => (s, 0)
  | h :: hs' =>
      let '(s1, prevented) := keyHandler h e s in
      let '(s2, k) := run_listeners hs' e s1 in
      (s2, (if prevented then 1 else 0) + k)
  end.

(** The dialog, if any, inside which a node lies. *)
Definition container_of (s : State) (n : nat) : option surface :=
  if mem n (nodes_of (project_modal s)) then Some ProjectSurface
  else if mem n (nodes_of (blog_modal s)) then Some BlogSurface
  else None.

Definition listeners_of (A : surface) (s : State) : list closure :=
  match modal_of A s with
  | Some m => keydown_listeners m
  | None => []
  end.

(** Whether [getAttribute('aria-hidden') === 'false'] on an existing
    container: the script's own test for "this dialog is open". *)
Definition is_open (A : surface) (s : State) : bool :=
  match modal_of A s with
  | Some m =>
      match aria_hidden m with
      | Some false => true
      | _ => false
      end
  | None => false
  end.

(** The key-down listener on [document], later revision. *)
Definition on_document_keydown (e : keyEvent) (s : State) : State :=
  match key_of e with
  | Escape =>
      let s := if is_open ProjectSurface s then closeProjectModal s else s in
      if is_open BlogSurface s then closeBlogModal s else s
  | _ => s
  end.

(** The key-down listener on [document], [src/script.js]. *)
Definition on_document_keydown_v1 (e : keyEvent) (s : State) : State :=
  match key_of e with
  | Escape => if is_open ProjectSurface s then closeProjectModal s else s
  | _ => s
  end.

(** A key-down event: its target is the focused node; it bubbles through
    the dialog containing the target, whose trap listeners run, and reaches
    [document]. *)
Definition bubble_keydown (e : keyEvent) (s : State) : State * nat :=
  match activeElement s with
  | Some n =>
      match container_of s n with
      | Some A => run_listeners (listeners_of A s) e s
      | None => (s, 0)
      end
  | None => (s, 0)
  end.

Definition keydown (e : keyEvent) (s : State) : State :=
  on_document_keydown e (fst (bubble_keydown e s)).

Definition keydown_v1 (e : keyEvent) (s : State) : State :=
  on_document_keydown_v1 e (fst (bubble_keydown e s)).

(** How many trap listeners wrapped the focus on this key press. *)
Definition wraps (e : keyEvent) (s : State) : nat :=
  snd (bubble_keydown e s).

(** What a click landed on. *)
Inductive target :=
| OnBackdrop (A : surface)       (* the dialog container itself *)
| OnNode (n : nat).

(** The two click listeners on [document] that dismiss a dialog. *)
Definition on_document_click_project (t : target) (s : State) : State :=
  match project_modal s with
  | None => s
  | Some _ =>
      match t with
      | OnBackdrop ProjectSurface => closeProjectModal s
      | _ => s
      end
  end.

Definition on_document_click_blog (t : target) (s : State) : State :=
  match blog_modal s, t with
  | Some _, OnBackdrop BlogSurface => closeBlogModal s
  | _, _ => s
  end.

(** A click on the backdrop of [A]: the target is the container, so no
    listener of a descendant runs; the [document] listeners run in the order
    the script registers them. *)
Definition click_backdrop (A : surface) (s : State) : State :=
  on_document_click_blog (OnBackdrop A)
    (on_document_click_project (OnBackdrop A) s).

(** A click on the backdrop under [src/script.js], whose only dismissing
    click listener is the project one. *)
Definition click_backdrop_v1 (s : State) : State :=
  on_document_click_project (OnBackdrop ProjectSurface) s.

(** A click on the close control of [A]: the listener registered at
    [DOMContentLoaded] on ['#project-modal .modal-close'], respectively
    ['#blog-modal .modal-close'], when that node exists. *)
Definition click_close (A : surface) (s : State) : State :=
  match modal_of A s with
  | Some m =>
      match closeBtn m with
      | Some _ => close A s
      | None => s
      end
  | None => s
  end.

(** The same under [src/script.js], which registers [closeProjectModal] on
    the first ['.modal-close'] of the document, the project dialog's. *)
Definition click_close_v1 (s : State) : State :=
  click_close ProjectSurface s.

(** A pending [setTimeout(() => modal.setAttribute('open', ''), 20)]
    callback runs. *)
Definition fire (m : modal) : modal :=
  match open_timers m with
  | 0 => m
  | S k =>
      {| aria_hidden := aria_hidden m;
         style_display := style_display m;
         open_attr := true;
         before_body := before_body m;
         body := body m;
         after_body := after_body m;
         keydown_listeners := keydown_listeners m;
         removeTrap := removeTrap m;
         open_timers := k |}
  end.

Definition timer (A : surface) (s : State) : State :=
  match A with
  | ProjectSurface => with_project_modal (option_map fire (project_modal s)) s
  | BlogSurface => with_blog_modal (option_map fire (blog_modal s)) s
  end.

(** *** Liking a blog *)

Definition like_blog (b : blog) : blog :=
  {| blog_id := blog_id b;
     blog_title := blog_title b;
     blog_content := blog_content b;
     blog_date := blog_date b;
     blog_likes := Some (fst (Likes.toggled (blog_likes b) (blog_liked b)));
     blog_liked := Some (snd (Likes.toggled (blog_likes b) (blog_liked b))) |}.

Definition shown_blog (b : blog) : Z * string * string * Z * Z * bool :=
  (blog_id b, blog_title b, blog_content b, blog_date b,
   Likes.count (blog_likes b), Likes.flag (blog_liked b)).

(** Both properties are there, as in the seed blogs and in every entry
    [addBlog] creates. *)
Definition complete_blog (b : blog) : Prop :=
  blog_likes b <> None /\ blog_liked b <> None.

(** [likeBlog(id)], as it acts on the list and on local storage.  The
    cards it then builds anew are nodes of the page, followed in
    [Blogs.likeBlog]; the label of the dialog's like button, rewritten when
    the dialog shows this blog, is a function of the entry. *)
Definition likeBlog (i : Z) (s : State) : State :=
  match find (blog_has_id i) (blogs s) with
  | None => s
  | Some _ =>
      let blogs' := Likes.update_found (blog_has_id i) like_blog (blogs s) in
      with_blogs blogs' (Some blogs') s
  end.

(** *** User events *)

Inductive event :=
| ActivateProjectCard (p : Projects.project)   (* click, Enter or Space on a card *)
| ActivateBlogCard (i : Z)
| Keydown (e : keyEvent)
| ClickBackdrop (A : surface)
| ClickClose (A : surface)
| MoveFocus (n : nat)             (* the user focuses a node: pointer, native Tab *)
| TimerFires (A : surface).

Definition step (ev : event) (s : State) : State :=
  match ev with
  | ActivateProjectCard p => openProjectModal p s
  | ActivateBlogCard i => openBlogModal i s
  | Keydown e => keydown e s
  | ClickBackdrop A => click_backdrop A s
  | ClickClose A => click_close A s
  | MoveFocus n => focus n s
  | TimerFires A => timer A s
  end.

Definition run (evs : list event) (s : State) : State :=
  fold_left (fun s ev => step ev s) evs s.

(** *** Predicates the statements use *)

Definition at_most_one_open (s : State) : Prop :=
  ~ (is_open ProjectSurface s = true /\ is_open BlogSurface s = true).

Definition none_open (s : State) : bool :=
  negb (is_open ProjectSurface s) && negb (is_open BlogSurface s).

(** A run in which a card is activated only while no dialog is open. *)
Fixpoint cards_only_when_closed (evs : list event) (s : State) : Prop :=
  match evs with
  | [] => True
  | ev :: evs' =>
      match ev with
      | ActivateProjectCard _ | ActivateBlogCard _ => none_open s = true
      | _ => True
      end
      /\ cards_only_when_closed evs' (step ev s)
  end.

(** [open] gets past its silent early returns: the container and its body
    element exist and, for a blog, the entry is found. *)
Definition takes_effect (a : open_arg) (s : State) : Prop :=
  match modal_of (surface_of a) s with
  | Some m =>
      body m <> None
      /\ match a with
         | OpenProject _ => True
         | OpenBlog i => find (blog_has_id i) (blogs s) <> None
         end
  | None => False
  end.

(** Where the focus is after [if (lastFocused) lastFocused.focus()]: on the
    remembered node when there is one and it is attached, where it was
    otherwise. *)
Definition remembered_focus (s : State) : option nat :=
  match lastFocused s with
  | Some n => if attached s n then Some n else activeElement s
  | None => activeElement s
  end.

(** What a dismissal leaves to be observed on surface [A]. *)
Record observation := {
  obs_overflow : overflow;
  obs_aria_hidden : option (option bool);
  obs_display : option display;
  obs_open_attr : option bool;
  obs_focus : option nat
}.

Definition observe (A : surface) (s : State) : observation :=
  {| obs_overflow := body_overflow s;
     obs_aria_hidden := option_map aria_hidden (modal_of A s);
     obs_display := option_map style_display (modal_of A s);
     obs_open_attr := option_map open_attr (modal_of A s);
     obs_focus := activeElement s |}.

(** *** A page to run the script on

    Both dialogs closed, each with its close button before an empty body
    element; two cards on the page, the first focused; the seed blogs
    ([seedBlogs()] with [now] for [Date.now()]). *)

Definition seedBlogs (now : Z) : list blog :=
  [ {| blog_id := now - 3000;
       blog_title := "Why I Love CSS Grid";
       blog_content := "Just learned CSS Grid and it's absolutely life-changing! The ability to create complex layouts with just a few lines of code is incredible. I spent years fighting with floats and flexbox for 2D layouts, but Grid makes it so intuitive.

The grid-template-areas property is particularly amazing - you can literally draw your layout in ASCII art and CSS will make it happen. If you haven't tried it yet, I highly recommend diving in!";
       blog_date := now - 86400000 * 3;
       blog_likes := Some 5;
       blog_liked := Some false |};
    {| blog_id := now - 2000;
       blog_title := "The Art of Debugging";
       blog_content := "Here's something I wish I learned earlier: sometimes the best debugging technique is to step away from the computer.

I was stuck on a bug for 3 hours yesterday. Went for a walk, came back, and solved it in 5 minutes. Your brain continues processing problems in the background, even when you're not actively thinking about them.

So next time you're stuck, give yourself permission to take a break. It's not procrastination - it's debugging.";
       blog_date := now - 86400000 * 2;
       blog_likes := Some 12;
       blog_liked := Some false |} ]%Z.

Definition close_button (n : nat) : node :=
  {| nid := n; modal_close := true; tabbable := true |}.

Definition closed_dialog (statics : list node) : modal :=
  {| aria_hidden := Some true;
     style_display := display_none;
     open_attr := false;
     before_body := statics;
     body := Some [];
     after_body := [];
     keydown_listeners := [];
     removeTrap := None;
     open_timers := 0 |}.

Definition loaded_page : State :=
  {| project_modal := Some (closed_dialog [close_button 1]);
     blog_modal := Some (closed_dialog [close_button 2]);
     page := [10; 11];
     activeElement := Some 10;
     body_overflow := overflow_unset;
     lastFocused := None;
     next_node := 100;
     blogs := seedBlogs 5000;
     currentBlogId := None;
     stored_blogs := None;
     admin := false |}.


End Modal.

(* ------------------------------------------------------------------ *)
(** ** Project gallery: the filter bar

    [renderFilterTags] builds one button per distinct tag, in the order in
    which a JavaScript [Set] yields them (first insertion).  [toggleFilter]
    also moves the ['active'] class: it removes it from every button and, when
    a filter is switched on, adds it to the clicked one, so at most one
    button carries it.  The gallery state pairs the listing of [Projects]
    with the buttons and the button marked active. *)

Module Gallery.

Import JsString Projects.
#[local] Open Scope string_scope.

(** The characters of a string. *)
Fixpoint chars (s : string) : list ascii :=
  match s with
  | EmptyString => []
  | String c r => c :: chars r
  end.

(** The text is made of ASCII characters only (codes below 128).  On such
    text [toLowerCase] and [trim] of JavaScript work character by character
    and are the functions of [JsString]. *)
Definition ascii_text (s : string) : bool :=
  forallb (fun c => (nat_of_ascii c <? 128)%nat) (chars s).

(** [set.add(t)] *)
Definition set_add (t : string) (set : list string) : list string :=
  if array_includes set t then set else (set ++ [t])%list.

(** [state.projects.forEach(p => (p.tags || []).forEach(t => set.add(t)))] *)
Definition collect_tags (ps : list project) : list string :=
  fold_left
    (fun set p => fold_left (fun set t => set_add t set) (tags_or_empty p) set)
    ps [].

Record gallery := {
  listing : Projects.state;
  tag_buttons : list string;     (* the text of each '.filter-tag' button *)
  active : option string         (* the button carrying class 'active' *)
}.

(** The gallery once [initProjects] has stored the project list [ps]:
    [state.filteredProjects = state.projects.slice()], then
    [renderFilterTags()]. *)
Definition loaded (ps : list project) : gallery :=
  {| listing := {| projects := ps;
                   filteredProjects := ps;
                   currentFilter := "all" |};
     tag_buttons := collect_tags ps;
     active := None |}.

(** A click on the button of [tag]: [toggleFilter(tag, btn)]. *)
Definition clickFilterTag (tag : string) (g : gallery) : gallery :=
  {| listing := toggleFilter tag (listing g);
     tag_buttons := tag_buttons g;
     active := if String.eqb (currentFilter (listing g)) tag then None
               else Some tag |}.

(** The search handler has run on the value typed. *)
Definition typeSearch (value : string) (g : gallery) : gallery :=
  {| listing := onSearchInput value (listing g);
     tag_buttons := tag_buttons g;
     active := active g |}.

Inductive action :=
| ClickTag (tag : string)
| TypeSearch (value : string).

Definition act (a : action) (g : gallery) : gallery :=
  match a with
  | ClickTag tag => clickFilterTag tag g
  | TypeSearch value => typeSearch value g
  end.

Definition run (acts : list action) (g : gallery) : gallery :=
  fold_left (fun g a => act a g) acts g.

(** The action is a click on one of the buttons, none of which is named
    like the ['all'] marker. *)
Definition on_a_button (g : gallery) (a : action) : Prop :=
  match a with
  | ClickTag tag => In tag (tag_buttons g) /\ tag <> "all"
  | TypeSearch _ => True
  end.

(** The bar and the listing agree: the marked button, if any, names the
    current filter, no button is marked exactly under ['all'], and the
    gallery shows the matches of some query within the current pool. *)
Definition in_step (ps : list project) (g : gallery) : Prop :=
  projects (listing g) = ps
  /\ tag_buttons g = collect_tags ps
  /\ (active g = None <-> currentFilter (listing g) = "all")
  /\ (forall t, active g = Some t ->
                currentFilter (listing g) = t /\ In t (tag_buttons g))
  /\ exists q, filteredProjects (listing g)
               = filter (matches q) (pool (listing g)).

End Gallery.

(* ------------------------------------------------------------------ *)
(** ** Escaping text for markup

    [escapeHtml] of [src/script.js]: five global single-character
    replacements applied one after the other.  (The later revision lets the
    browser serialise a text node instead; that path is not modelled.)
    [decode_entities] is the reading a browser gives to markup made of text
    and of the five character references [escapeHtml] produces. *)

Module Html.

Import JsString.
#[local] Open Scope string_scope.

Definition amp : ascii := "&"%char.
Definition lt : ascii := "<"%char.
Definition gt : ascii := ">"%char.
Definition quot : ascii := "034"%char.
Definition apos : ascii := "'"%char.

(** [s.replace(/c/g, by)] for a single character [c] and a replacement text
    without [$] patterns. *)
Fixpoint replace_all (c : ascii) (by_ : string) (s : string) : string :=
  match s with
  | EmptyString => EmptyString
  | String x r =>
      if Ascii.eqb x c then by_ ++ replace_all c by_ r
      else String x (replace_all c by_ r)
  end.

Definition escapeHtml (s : option string) : string :=
  if truthy s then
    replace_all apos "&#039;"
      (replace_all quot "&quot;"
         (replace_all gt "&gt;"
            (replace_all lt "&lt;"
               (replace_all amp "&amp;" (or_empty s)))))
  else "".

(** The character opens or closes a tag or an attribute value. *)
Definition markup (c : ascii) : bool :=
  Ascii.eqb c lt || Ascii.eqb c gt || Ascii.eqb c quot || Ascii.eqb c apos.

(** Reading back the five character references; [skip] characters of the
    reference just read are still to be passed over. *)
Fixpoint decode_from (skip : nat) (s : string) : string :=
  match s with
  | EmptyString => EmptyString
  | String c r =>
      match skip with
      | S k => decode_from k r
      | 0 =>
          if starts_with "&amp;" s then String amp (decode_from 4 r)
          else if starts_with "&lt;" s then String lt (decode_from 3 r)
          else if starts_with "&gt;" s then String gt (decode_from 3 r)
          else if starts_with "&quot;" s then String quot (decode_from 5 r)
          else if starts_with "&#039;" s then String apos (decode_from 5 r)
          else String c (decode_from 0 r)
      end
  end.

Definition decode_entities (s : string) : string := decode_from 0 s.

(** The five replacements on any text. *)
Definition escape_text (s : string) : string :=
  replace_all apos "&#039;"
    (replace_all quot "&quot;"
       (replace_all gt "&gt;"
          (replace_all lt "&lt;" (replace_all amp "&amp;" s)))).

(** What the five replacements make of one character. *)
Definition escape_char (c : ascii) : string :=
  if Ascii.eqb c amp then "&amp;"
  else if Ascii.eqb c lt then "&lt;"
  else if Ascii.eqb c gt then "&gt;"
  else if Ascii.eqb c quot then "&quot;"
  else if Ascii.eqb c apos then "&#039;"
  else String c "".

End Html.

(* ------------------------------------------------------------------ *)
(** ** Experience posts ([src/script.js])

    The post handlers beside [likePost]: loading, adding, editing, deleting
    and rendering.  The state of [Likes] is extended by what these handlers
    read besides: the admin flag in local storage, the text area of the admin
    panel, and the messages shown with [alert].  The answers of [prompt] and
    [confirm] and the clock readings are arguments.  A stored JSON text is
    represented by the list it encodes. *)

Module Posts.

Import JsString Likes.
#[local] Open Scope string_scope.

Record site := {
  data : Likes.state;
  is_admin : bool;                 (* isAdmin() *)
  post_content : option string;    (* value of '#post-content', if it exists *)
  alerts : list string             (* messages shown so far, oldest first *)
}.

Definition with_data (d : Likes.state) (s : site) : site :=
  {| data := d; is_admin := is_admin s; post_content := post_content s;
     alerts := alerts s |}.

Definition alert (msg : string) (s : site) : site :=
  {| data := data s; is_admin := is_admin s; post_content := post_content s;
     alerts := (alerts s ++ [msg])%list |}.

(** [state.posts = l; savePosts()] *)
Definition save (l : list post) : Likes.state :=
  {| posts := l; stored_posts := Some l |}.

(** [initPosts()]: the saved list, or the seed posts while nothing is
    saved; [now] is [Date.now()]. *)
Definition initPosts (now : Z) (s : site) : site :=
  with_data
    {| posts := match stored_posts (data s) with
                | Some l => l
                | None => seedPosts now
                end;
       stored_posts := stored_posts (data s) |}
    s.

(** [addPost()]; [now] is [Date.now()] and [today] the instant of
    [new Date()]. *)
Definition addPost (now today : Z) (s : site) : site :=
  if negb (is_admin s) then
    alert "Only the site owner (admin) can add posts." s
  else
    match post_content s with
    | None => s
    | Some value =>
        let content := trim value in
        if negb (truthy (Some content)) then alert "Please write something." s
        else
          let newP := {| post_id := now; content := content; date := today;
                         likes := Some 0%Z; liked := Some false |} in
          {| data := save (newP :: posts (data s));
             is_admin := is_admin s;
             post_content := Some "";
             alerts := alerts s |}
    end.

Definition with_content (c : string) (p : post) : post :=
  {| post_id := post_id p; content := c; date := date p;
     likes := likes p; liked := liked p |}.

(** [editPost(id)]; [answer] is what [prompt] returns, [None] for [null]. *)
Definition editPost (i : Z) (answer : option string) (s : site) : site :=
  if negb (is_admin s) then alert "Only admin can edit posts." s
  else
    match find (has_id i) (posts (data s)) with
    | None => s
    | Some _ =>
        match answer with
        | None => s
        | Some val =>
            with_data
              (save (update_found (has_id i) (with_content val)
                       (posts (data s))))
              s
        end
    end.

(** [deletePost(id)]; [confirmed] is what [confirm] returns. *)
Definition deletePost (i : Z) (confirmed : bool) (s : site) : site :=
  if negb (is_admin s) then alert "Only admin can delete posts." s
  else if confirmed then
    with_data (save (filter (fun x => negb (has_id i x)) (posts (data s)))) s
  else s.

(** [likePost(id)] on the extended state. *)
Definition likePost (i : Z) (s : site) : site :=
  with_data (Likes.likePost i (data s)) s.

(** The admin types into the text area. *)
Definition typeContent (text : string) (s : site) : site :=
  match post_content s with
  | None => s
  | Some _ =>
      {| data := data s; is_admin := is_admin s; post_content := Some text;
         alerts := alerts s |}
  end.

Inductive op :=
| TypeContent (text : string)
| AddPost (now today : Z)
| LikePost (i : Z)
| EditPost (i : Z) (answer : option string)
| DeletePost (i : Z) (confirmed : bool).

Definition apply (o : op) (s : site) : site :=
  match o with
  | TypeContent text => typeContent text s
  | AddPost now today => addPost now today s
  | LikePost i => likePost i s
  | EditPost i answer => editPost i answer s
  | DeletePost i confirmed => deletePost i confirmed s
  end.

Definition run (ops : list op) (s : site) : site :=
  fold_left (fun s o => apply o s) ops s.

(** *** Rendering *)

(** [sorted = [...state.posts].sort((a, b) => new Date(b.date) - new
    Date(a.date))]: the stable sort by descending date, written as an
    insertion sort ([sort] of an array is stable, so its result does not
    depend on the algorithm). *)
Fixpoint insert_by_date (p : post) (l : list post) : list post :=
  match l with
  | [] => [p]
  | q :: r =>
      if (date q <=? date p)%Z then p :: l else q :: insert_by_date p r
  end.

Fixpoint sort_by_date (l : list post) : list post :=
  match l with
  | [] => []
  | p :: r => insert_by_date p (sort_by_date r)
  end.

(** What a post card shows. *)
Record card := {
  card_id : Z;               (* dataset.postId *)
  card_date : Z;             (* the instant behind the date label *)
  card_likes : Z;            (* the number on the like button *)
  card_liked : bool;         (* the heart carries class 'liked' *)
  card_controls : bool;      (* edit and delete buttons are present *)
  card_text : string         (* the markup of the post body *)
}.

Definition card_of (admin : bool) (p : post) : card :=
  {| card_id := post_id p;
     card_date := date p;
     card_likes := count (likes p);
     card_liked := flag (liked p);
     card_controls := admin;
     card_text := Html.escapeHtml (Some (content p)) |}.

(** The cards [renderPosts] puts into the posts container, top first. *)
Definition renderPosts (s : site) : list card :=
  map (card_of (is_admin s)) (sort_by_date (posts (data s))).

(** *** Predicates the statements use *)

(** What only the admin may change of a post. *)
Definition authored (p : post) : Z * string * Z :=
  (post_id p, content p, date p).

(** The counter is not negative, and it counts the visitor's own like. *)
Definition sane (p : post) : Prop :=
  (0 <= count (likes p))%Z /\ (flag (liked p) = true -> (1 <= count (likes p))%Z).

(** A visitor on the seed posts, trying everything. *)
Definition visitor_page : site :=
  initPosts 5000
    {| data := {| posts := []; stored_posts := None |};
       is_admin := false; post_content := Some "hello"; alerts := [] |}.

(** The admin on two posts. *)
Definition admin_page : site :=
  {| data := two_posts; is_admin := true; post_content := Some "  new post ";
     alerts := [] |}.

(** [a] may stand above [b] in a list sorted by descending date. *)
Definition newer_first (a b : post) : Prop := (date b <= date a)%Z.

End Posts.

(* ------------------------------------------------------------------ *)
(** ** Blog entries (later revision)

    The blog handlers beside the dialog: loading, adding, liking, editing
    and deleting.  They work on the dialog state, which holds
    [state.blogs], [state.currentBlogId], the stored list and the admin
    flag; the blog list of the page (['#blogs-container']), the two inputs
    of the admin panel and the messages shown with [alert] are added here.
    The answers of [prompt] and [confirm] and the clock readings are
    arguments.

    Every handler that changes the list calls [renderBlogs], which empties
    the container and builds a card for each blog.  Of a card, the nodes
    that can hold the focus are the card itself ([tabIndex = 0]) and its
    like button; they are new nodes at every call, so a node remembered from
    an earlier rendering is no longer attached afterwards. *)

Module Blogs.

Import JsString Modal.
#[local] Open Scope string_scope.

Record site := {
  view : Modal.State;
  blogs_container : option (list nat);  (* '#blogs-container', if it exists:
                                           the nodes of its cards *)
  blog_title_input : option string;     (* value of '#blog-title', if it exists *)
  blog_content_input : option string;   (* value of '#blog-content', if it exists *)
  shown_alerts : list string            (* messages shown so far, oldest first *)
}.

Definition with_view (v : Modal.State) (s : site) : site :=
  {| view := v; blogs_container := blogs_container s;
     blog_title_input := blog_title_input s;
     blog_content_input := blog_content_input s;
     shown_alerts := shown_alerts s |}.

Definition alert (msg : string) (s : site) : site :=
  {| view := view s; blogs_container := blogs_container s;
     blog_title_input := blog_title_input s;
     blog_content_input := blog_content_input s;
     shown_alerts := (shown_alerts s ++ [msg])%list |}.

(** The nodes of the cards built for [count] blogs, the first new node
    being [n]: a card and its like button for each blog, in the order of
    the sorted list.  With no blog the container gets the "No blog posts
    yet" notice, which holds nothing that can take the focus. *)
Definition render_cards (count n : nat) : list nat := seq n (2 * count).

(** The focus once the nodes [old] have been removed from the document:
    when the focused node is among them, no element holds the focus any
    more. *)
Definition surviving_focus (old : list nat) (a : option nat) : option nat :=
  match a with
  | Some n => if mem n old then None else Some n
  | None => None
  end.

(** [renderBlogs()] *)
Definition renderBlogs (s : site) : site :=
  match blogs_container s with
  | None => s
  | Some old =>
      let v := view s in
      let fresh := render_cards (List.length (blogs v)) (next_node v) in
      {| view :=
           with_next_node (next_node v + List.length fresh)
             (with_activeElement (surviving_focus old (activeElement v))
                (with_page
                   (filter (fun n => negb (mem n old)) (page v) ++ fresh)%list
                   v));
         blogs_container := Some fresh;
         blog_title_input := blog_title_input s;
         blog_content_input := blog_content_input s;
         shown_alerts := shown_alerts s |}
  end.

(** [initBlogs()]: the saved list, or the seed blogs while nothing is
    saved, then the cards. *)
Definition initBlogs (now : Z) (s : site) : site :=
  renderBlogs
    (with_view
       (with_blogs
          (match stored_blogs (view s) with
           | Some l => l
           | None => seedBlogs now
           end)
          (stored_blogs (view s)) (view s))
       s).

(** [addBlog()] *)
Definition addBlog (now today : Z) (s : site) : site :=
  if negb (admin (view s)) then
    alert "Only the site owner (admin) can add blogs." s
  else
    match blog_title_input s, blog_content_input s with
    | Some title_value, Some content_value =>
        let title := trim title_value in
        let content := trim content_value in
        if negb (truthy (Some title)) then
          alert "Please add a title for your blog." s
        else if negb (truthy (Some content)) then
          alert "Please write some content." s
        else
          let newBlog := {| blog_id := now; blog_title := title;
                            blog_content := content; blog_date := today;
                            blog_likes := Some 0%Z;
                            blog_liked := Some false |} in
          let s1 :=
            renderBlogs
              (with_view
                 (with_blogs (newBlog :: blogs (view s))
                    (Some (newBlog :: blogs (view s))) (view s))
                 s) in
          {| view := view s1;
             blogs_container := blogs_container s1;
             blog_title_input := Some "";
             blog_content_input := Some "";
             shown_alerts := shown_alerts s1 |}
    | _, _ => s
    end.

(** [likeBlog(id)] with its [renderBlogs()]; the update of the list is
    [Modal.likeBlog]. *)
Definition likeBlog (i : Z) (s : site) : site :=
  match find (blog_has_id i) (blogs (view s)) with
  | None => s
  | Some _ => renderBlogs (with_view (Modal.likeBlog i (view s)) s)
  end.

(** The two conditional assignments of [editBlog]: an answer that is blank
    after trimming leaves the field alone. *)
Definition revise (newTitle newContent : string) (b : blog) : blog :=
  {| blog_id := blog_id b;
     blog_title := if truthy (Some (trim newTitle)) then trim newTitle
                   else blog_title b;
     blog_content := if truthy (Some (trim newContent)) then trim newContent
                     else blog_content b;
     blog_date := blog_date b;
     blog_likes := blog_likes b;
     blog_liked := blog_liked b |}.

(** [state.currentBlogId === id] *)
Definition is_current (i : Z) (v : Modal.State) : bool :=
  match currentBlogId v with
  | Some c => (c =? i)%Z
  | None => false
  end.

(** [editBlog(id)]; the answers are those of the two prompts, the second
    being asked only when the first was not cancelled. *)
Definition editBlog (i : Z) (newTitle newContent : option string) (s : site)
  : site :=
  if negb (admin (view s)) then alert "Only admin can edit blogs." s
  else
    match find (blog_has_id i) (blogs (view s)) with
    | None => s
    | Some _ =>
        match newTitle with
        | None => s
        | Some t =>
            match newContent with
            | None => s
            | Some c =>
                let blogs' :=
                  Likes.update_found (blog_has_id i) (revise t c)
                    (blogs (view s)) in
                let s1 :=
                  renderBlogs
                    (with_view (with_blogs blogs' (Some blogs') (view s)) s) in
                with_view
                  (if is_current i (view s1) then openBlogModal i (view s1)
                   else view s1)
                  s1
            end
        end
    end.

(** [deleteBlog(id)] *)
Definition deleteBlog (i : Z) (confirmed : bool) (s : site) : site :=
  if negb (admin (view s)) then alert "Only admin can delete blogs." s
  else if confirmed then
    let blogs' := filter (fun x => negb (blog_has_id i x)) (blogs (view s)) in
    let s1 :=
      renderBlogs (with_view (with_blogs blogs' (Some blogs') (view s)) s) in
    with_view
      (if is_current i (view s1) then closeBlogModal (view s1) else view s1)
      s1
  else s.

(** The admin types into the two inputs. *)
Definition typeInputs (title content : string) (s : site) : site :=
  {| view := view s;
     blogs_container := blogs_container s;
     blog_title_input := option_map (fun _ => title) (blog_title_input s);
     blog_content_input := option_map (fun _ => content) (blog_content_input s);
     shown_alerts := shown_alerts s |}.

Inductive action :=
| User (ev : Modal.event)
| Like (i : Z)
| TypeInputs (title content : string)
| Add (now today : Z)
| Edit (i : Z) (newTitle newContent : option string)
| Delete (i : Z) (confirmed : bool).

Definition act (a : action) (s : site) : site :=
  match a with
  | User ev => with_view (Modal.step ev (view s)) s
  | Like i => likeBlog i s
  | TypeInputs title content => typeInputs title content s
  | Add now today => addBlog now today s
  | Edit i t c => editBlog i t c s
  | Delete i confirmed => deleteBlog i confirmed s
  end.

Definition run (acts : list action) (s : site) : site :=
  fold_left (fun s a => act a s) acts s.

(** *** Predicates the statements use *)

(** [state.currentBlogId] and the blog dialog agree: an id is recorded
    exactly while the dialog is open, and it is the id of a blog of the
    list. *)
Definition tracks_dialog (v : Modal.State) : Prop :=
  (currentBlogId v = None <-> is_open BlogSurface v = false)
  /\ forall i, currentBlogId v = Some i ->
       exists b, In b (blogs v) /\ blog_id b = i.

(** What only the admin may change of a blog. *)
Definition authored (b : blog) : Z * string * string * Z :=
  (blog_id b, blog_title b, blog_content b, blog_date b).

(** The page of [Modal.loaded_page] with the admin panel filled in, before
    [initBlogs] has run: no blog is loaded and the container is empty. *)
Definition bare_site (is_admin : bool) : site :=
  {| view :=
       {| project_modal := project_modal loaded_page;
          blog_modal := blog_modal loaded_page;
          page := page loaded_page;
          activeElement := activeElement loaded_page;
          body_overflow := body_overflow loaded_page;
          lastFocused := lastFocused loaded_page;
          next_node := next_node loaded_page;
          blogs := [];
          currentBlogId := None;
          stored_blogs := None;
          admin := is_admin |};
     blogs_container := Some [];
     blog_title_input := Some " A title ";
     blog_content_input := Some "Some content.";
     shown_alerts := [] |}.

(** That page once [initBlogs] has run at time 5000: the seed blogs, and
    their two cards with a like button each (nodes 100 to 103). *)
Definition loaded_site (is_admin : bool) : site :=
  initBlogs 5000 (bare_site is_admin).

(** What the blog handlers and [tracks_dialog] read of the dialog state. *)
Definition blog_side (v : State) : bool * option Z * list blog * bool :=
  (is_open BlogSurface v, currentBlogId v, blogs v, admin v).

End Blogs.

(* ------------------------------------------------------------------ *)
(** ** Admin mode

    [isAdmin], [setAdminAuthenticated], [updateAdminUI] and the click
    listener [initAdmin] puts on the admin button; the code is the same in
    both revisions but for the id of the panel.  The two local-storage keys,
    the panel and the button label are the state; the answers the user gives
    to [confirm] and [prompt] during one click are an argument ([None] for a
    cancelled prompt).  [updateAdminUI] also renders the list again, which
    changes no state. *)

Module Admin.

#[local] Open Scope string_scope.

Inductive panel_display := panel_flex | panel_none | panel_unset.

Record panel := {
  panel_aria_hidden : option string;    (* attribute 'aria-hidden' *)
  panel_style : panel_display           (* style.display *)
}.

Record session := {
  stored_pass : option string;     (* localStorage['portfolio-admin-pass'] *)
  stored_auth : option string;     (* localStorage['portfolio-admin-auth'] *)
  admin_panel : option panel;      (* the admin panel, if it exists *)
  button_label : string;           (* textContent of '#admin-toggle' *)
  messages : list string           (* messages shown with alert *)
}.

Definition isAdmin (s : session) : bool :=
  match stored_auth s with
  | Some v => String.eqb v "true"
  | None => false
  end.

Definition updateAdminUI (s : session) : session :=
  if isAdmin s then
    {| stored_pass := stored_pass s; stored_auth := stored_auth s;
       admin_panel :=
         option_map (fun _ => {| panel_aria_hidden := None;
                                 panel_style := panel_flex |})
                    (admin_panel s);
       button_label := "Admin (Logout)";
       messages := messages s |}
  else
    {| stored_pass := stored_pass s; stored_auth := stored_auth s;
       admin_panel :=
         option_map (fun _ => {| panel_aria_hidden := Some "true";
                                 panel_style := panel_none |})
                    (admin_panel s);
       button_label := "Admin";
       messages := messages s |}.

Definition setAdminAuthenticated (val : bool) (s : session) : session :=
  updateAdminUI
    {| stored_pass := stored_pass s;
       stored_auth := if val then Some "true" else None;
       admin_panel := admin_panel s;
       button_label := button_label s;
       messages := messages s |}.

Definition alert (msg : string) (s : session) : session :=
  {| stored_pass := stored_pass s; stored_auth := stored_auth s;
     admin_panel := admin_panel s; button_label := button_label s;
     messages := (messages s ++ [msg])%list |}.

(** What the user answers during one click on the admin button. *)
Record answers := {
  confirm_logout : bool;            (* confirm('Log out of admin mode?') *)
  new_password : option string;     (* first prompt when no password is set *)
  new_password_again : option string;
  attempt : option string           (* prompt('Enter admin password:') *)
}.

Definition same_answer (a b : option string) : bool :=
  match a, b with
  | Some x, Some y => String.eqb x y
  | None, None => true
  | _, _ => false
  end.

(** The click listener of the admin button. *)
Definition onAdminClick (a : answers) (s : session) : session :=
  if isAdmin s then
    if confirm_logout a then
      alert "Logged out of admin mode." (setAdminAuthenticated false s)
    else s
  else if negb (JsString.truthy (stored_pass s)) then
    if negb (JsString.truthy (new_password a)) then s
    else if negb (same_answer (new_password a) (new_password_again a)) then
      alert "Passwords did not match — try again." s
    else
      updateAdminUI
        (alert "Admin password set. You are now logged in as admin."
           {| stored_pass := new_password a;
              stored_auth := Some "true";
              admin_panel := admin_panel s;
              button_label := button_label s;
              messages := messages s |})
  else if negb (JsString.truthy (attempt a)) then s
  else if same_answer (attempt a) (stored_pass s) then
    alert "Admin login successful." (setAdminAuthenticated true s)
  else alert "Incorrect password." s.

Definition clicks (l : list answers) (s : session) : session :=
  fold_left (fun s a => onAdminClick a s) l s.

(** The panel and the button show the mode the session is in. *)
Definition in_sync (s : session) : Prop :=
  (forall p, admin_panel s = Some p ->
     p = if isAdmin s
         then {| panel_aria_hidden := None; panel_style := panel_flex |}
         else {| panel_aria_hidden := Some "true"; panel_style := panel_none |})
  /\ button_label s = if isAdmin s then "Admin (Logout)" else "Admin".

(** A browser in which a password was set earlier and nobody is logged in. *)
Definition locked (pw : string) : session :=
  {| stored_pass := Some pw; stored_auth := None;
     admin_panel := Some {| panel_aria_hidden := Some "true";
                            panel_style := panel_none |};
     button_label := "Admin"; messages := [] |}.

Definition guess (g : string) : answers :=
  {| confirm_logout := true; new_password := Some g;
     new_password_again := Some g; attempt := Some g |}.

End Admin.

(* ------------------------------------------------------------------ *)
(** ** Theme

    [initTheme], [applyTheme], [toggleTheme] and the listener on the system
    colour-scheme preference; the same in both revisions.  The state is
    [state.theme], the ['portfolio-theme'] entry of local storage, the
    ['data-theme'] attribute of the document element, and the class of the
    icon and the markup of the footer button where they exist. *)

Module Theme.

#[local] Open Scope string_scope.

Record state := {
  theme : string;                    (* state.theme *)
  saved_theme : option string;       (* localStorage['portfolio-theme'] *)
  data_theme : option string;        (* attribute 'data-theme' *)
  icon_class : option string;        (* className of '#theme-toggle i' *)
  footer_button : option string      (* innerHTML of '#footer-theme-toggle' *)
}.

(** The markup [<i class=...></i>] with the class name in double quotes. *)
Definition icon_markup (class : string) : string :=
  "<i class=" ++ String Html.quot class ++ String Html.quot "></i>".

Definition applyTheme (t : string) (s : state) : state :=
  {| theme := theme s;
     saved_theme := saved_theme s;
     data_theme := Some t;
     icon_class :=
       option_map (fun _ => if String.eqb t "dark" then "fas fa-sun"
                            else "fas fa-moon")
                  (icon_class s);
     footer_button :=
       option_map (fun _ => if String.eqb t "dark"
                            then icon_markup "fas fa-sun" ++ " Light"
                            else icon_markup "fas fa-moon" ++ " Dark")
                  (footer_button s) |}.

Definition with_theme (t : string) (s : state) : state :=
  {| theme := t; saved_theme := saved_theme s; data_theme := data_theme s;
     icon_class := icon_class s; footer_button := footer_button s |}.

Definition system_theme (prefers_dark : bool) : string :=
  if prefers_dark then "dark" else "light".

(** [initTheme()]; [prefers_dark] is what the media query
    ['(prefers-color-scheme: dark)'] answers. *)
Definition initTheme (prefers_dark : bool) (s : state) : state :=
  let t := if JsString.truthy (saved_theme s)
           then JsString.or_empty (saved_theme s)
           else system_theme prefers_dark in
  applyTheme t (with_theme t s).

Definition toggleTheme (s : state) : state :=
  let t := if String.eqb (theme s) "light" then "dark" else "light" in
  let s := applyTheme t (with_theme t s) in
  {| theme := theme s; saved_theme := Some t; data_theme := data_theme s;
     icon_class := icon_class s; footer_button := footer_button s |}.

(** The listener on a change of the system preference. *)
Definition onSystemChange (prefers_dark : bool) (s : state) : state :=
  if negb (JsString.truthy (saved_theme s)) then
    applyTheme (system_theme prefers_dark)
      (with_theme (system_theme prefers_dark) s)
  else s.

Inductive event :=
| Toggle
| SystemChange (prefers_dark : bool).

Definition step (e : event) (s : state) : state :=
  match e with
  | Toggle => toggleTheme s
  | SystemChange d => onSystemChange d s
  end.

Definition run (es : list event) (s : state) : state :=
  fold_left (fun s e => step e s) es s.

(** The page shows [state.theme]: the attribute carries it and the icon
    offers the other theme. *)
Definition shown (s : state) : Prop :=
  data_theme s = Some (theme s)
  /\ (forall c, icon_class s = Some c ->
        c = if String.eqb (theme s) "dark" then "fas fa-sun" else "fas fa-moon").

(** The last system preference among the events, [d] if there is none. *)
Fixpoint last_preference (d : bool) (es : list event) : bool :=
  match es with
  | [] => d
  | SystemChange d' :: es' => last_preference d' es'
  | Toggle :: es' => last_preference d es'
  end.

(** No event is a click on a theme button. *)
Definition no_toggle (es : list event) : Prop :=
  Forall (fun e => e <> Toggle) es.

(** A first visit: nothing saved. *)
Definition first_visit : state :=
  {| theme := "light"; saved_theme := None; data_theme := None;
     icon_class := Some ""; footer_button := Some "" |}.

(** The user's choice has been saved and is one of the two themes. *)
Definition chosen (s : state) : Prop :=
  saved_theme s = Some (theme s) /\ (theme s = "light" \/ theme s = "dark").

(** The number of toggles among the events. *)
Fixpoint toggles (es : list event) : nat :=
  match es with
  | [] => 0
  | Toggle :: es' => S (toggles es')
  | SystemChange _ :: es' => toggles es'
  end.

End Theme.

(* ------------------------------------------------------------------ *)
(** ** Debouncing

    [debounce(fn, wait)]: the returned function cancels the pending timer
    and starts a new one that will call [fn] with the arguments of this
    call.  Time is counted in milliseconds.  A timer that is due when the
    next call arrives has run before it. *)

Module Debounce.

Section Debounced.

Variable A : Type.        (* the arguments of a call *)
Variable wait : nat.

(** The variable [t] of the closure: the pending timer, as its due time and
    the arguments it will pass on. *)
Definition pending := option (nat * A).

(** The debounced function is called at time [now] with [a]:
    [clearTimeout(t); t = setTimeout(() => fn.apply(this, a), wait)]. *)
Definition call (now : nat) (a : A) (t : pending) : pending :=
  Some (now + wait, a).

(** The clock has reached [now]: the invocation of [fn] made meanwhile, if
    the timer was due, and what is still pending. *)
Definition elapse (now : nat) (t : pending) : list (nat * A) * pending :=
  match t with
  | Some (due, a) => if due <=? now then ([(due, a)], None) else ([], t)
  | None => ([], None)
  end.

(** The invocations of [fn], as (time, arguments), that a series of calls
    of the debounced function at the given times leads to, the clock running
    on after the last call. *)
Fixpoint invocations (calls : list (nat * A)) (t : pending) : list (nat * A) :=
  match calls with
  | [] =>
      match t with
      | Some (due, a) => [(due, a)]
      | None => []
      end
  | (now, a) :: rest =>
      let '(ran, t') := elapse now t in
      (ran ++ invocations rest (call now a t'))%list
  end.

(** Each call follows the one before by less than [wait]. *)
Fixpoint burst (calls : list (nat * A)) : Prop :=
  match calls with
  | [] => True
  | (now, _) :: rest =>
      match rest with
      | [] => True
      | (next, _) :: _ => now <= next /\ next < now + wait
      end
      /\ burst rest
  end.

End Debounced.

Arguments call {A} wait now a t.
Arguments elapse {A} now t.
Arguments invocations {A} wait calls t.
Arguments burst {A} wait calls.

(** The search box: the listener of [initProjectSearch] is the search
    handler debounced by 180 ms; [typed] are the values of the input at the
    times of the input events. *)
Definition search_after (typed : list (nat * string)) (st : Projects.state)
  : Projects.state :=
  fold_left (fun st inv => Projects.onSearchInput (snd inv) st)
    (invocations 180 typed None) st.

End Debounce.

(* ------------------------------------------------------------------ *)
(** ** Regular expressions

    The fragment of JavaScript regular expressions the contact form uses:
    character classes, sequence, alternation and repetition, matched against
    the whole text (the pattern is anchored by [^] and [$] and has no flags).
    [lang] says which texts a pattern matches; [test] decides it by
    derivatives. *)

Module Regex.

#[local] Open Scope string_scope.

Inductive regex :=
| Never
| Empty
| Class (p : ascii -> bool)
| Seq (r1 r2 : regex)
| Alt (r1 r2 : regex)
| Star (r : regex).

(** [r+] *)
Definition Plus (r : regex) : regex := Seq r (Star r).

Inductive lang : regex -> string -> Prop :=
| lang_empty : lang Empty ""
| lang_class (p : ascii -> bool) (c : ascii) :
    p c = true -> lang (Class p) (String c "")
| lang_seq (r1 r2 : regex) (s1 s2 : string) :
    lang r1 s1 -> lang r2 s2 -> lang (Seq r1 r2) (s1 ++ s2)
| lang_alt_l (r1 r2 : regex) (s : string) : lang r1 s -> lang (Alt r1 r2) s
| lang_alt_r (r1 r2 : regex) (s : string) : lang r2 s -> lang (Alt r1 r2) s
| lang_star_nil (r : regex) : lang (Star r) ""
| lang_star_cons (r : regex) (s1 s2 : string) :
    lang r s1 -> lang (Star r) s2 -> lang (Star r) (s1 ++ s2).

Fixpoint nullable (r : regex) : bool :=
  match r with
  | Never => false
  | Empty => true
  | Class _ => false
  | Seq r1 r2 => nullable r1 && nullable r2
  | Alt r1 r2 => nullable r1 || nullable r2
  | Star _ => true
  end.

Fixpoint deriv (c : ascii) (r : regex) : regex :=
  match r with
  | Never => Never
  | Empty => Never
  | Class p => if p c then Empty else Never
  | Seq r1 r2 =>
      if nullable r1 then Alt (Seq (deriv c r1) r2) (deriv c r2)
      else Seq (deriv c r1) r2
  | Alt r1 r2 => Alt (deriv c r1) (deriv c r2)
  | Star r1 => Seq (deriv c r1) (Star r1)
  end.

(** [/^r$/.test(s)] *)
Fixpoint test (r : regex) (s : string) : bool :=
  match s with
  | EmptyString => nullable r
  | String c s' => test (deriv c r) s'
  end.

End Regex.

(* ------------------------------------------------------------------ *)
(** ** Contact form: field validation

    [validateField] in its two revisions.  A field is its [required] and
    [type] attributes, its value, and its parent group with the error class
    and the text of the ['.error-message'] element where they exist.  The
    later revision dereferences the parent without a test, so it raises when
    there is none: its result is an option. *)

Module Contact.

Import JsString Regex.
#[local] Open Scope string_scope.

(** [[^\s@]] *)
Definition plain (c : ascii) : bool :=
  negb (is_space c || Ascii.eqb c "@"%char).

(** [/^[^\s@]+@[^\s@]+\.[^\s@]+$/] *)
Definition email_re : regex :=
  Seq (Plus (Class plain))
    (Seq (Class (Ascii.eqb "@"%char))
       (Seq (Plus (Class plain))
          (Seq (Class (Ascii.eqb "."%char)) (Plus (Class plain))))).

Record group := {
  error_class : bool;               (* the group carries class 'error' *)
  error_message : option string     (* text of '.error-message', if any *)
}.

Record field := {
  required : bool;                  (* hasAttribute('required') *)
  is_email : bool;                  (* type === 'email' *)
  value : string;
  parent : option group             (* parentElement *)
}.

(** [!field.value.trim()] *)
Definition blank (f : field) : bool := negb (truthy (Some (trim (value f)))).

(** [field.type === 'email' && field.value] and the pattern fails. *)
Definition bad_email (f : field) : bool :=
  is_email f && truthy (Some (value f)) && negb (test email_re (value f)).

Definition with_parent (g : option group) (f : field) : field :=
  {| required := required f; is_email := is_email f; value := value f;
     parent := g |}.

(** [validateField(field)] of [src/script.js], for a field that exists:
    the field afterwards and the value returned. *)
Definition validateField_v1 (f : field) : field * bool :=
  let message :=
    if required f && blank f then "This field is required"
    else if bad_email f then "Enter a valid email"
    else "" in
  if truthy (Some message) then
    (with_parent
       (option_map
          (fun g => {| error_class := true;
                       error_message :=
                         option_map (fun _ => message) (error_message g) |})
          (parent f)) f,
     false)
  else
    (with_parent
       (option_map
          (fun g => {| error_class := false;
                       error_message :=
                         option_map (fun _ => "") (error_message g) |})
          (parent f)) f,
     true).

Definition set_message (msg : string) (g : group) (f : field) : field :=
  with_parent
    (Some {| error_class := error_class g; error_message := Some msg |}) f.

(** [validateField(input)] of the later revision; [None] when it raises. *)
Definition validateField_v2 (f : field) : option (field * bool) :=
  match parent f with
  | None => None
  | Some g =>
      match error_message g with
      | None => Some (f, true)
      | Some _ =>
          if required f && blank f then
            Some (set_message "This field is required." g f, false)
          else if bad_email f then
            Some (set_message "Please enter a valid email." g f, false)
          else Some (set_message "" g f, true)
      end
  end.

(** The text has the shape [local@domain.tld]: three non-empty parts free
    of white space and of [@], joined by an [@] and a dot. *)
Definition address_shaped (s : string) : Prop :=
  exists a b c,
    s = a ++ "@" ++ b ++ "." ++ c
    /\ a <> "" /\ b <> "" /\ c <> ""
    /\ Forall (fun x => plain x = true) (Gallery.chars a)
    /\ Forall (fun x => plain x = true) (Gallery.chars b)
    /\ Forall (fun x => plain x = true) (Gallery.chars c).

(** How often a character occurs in a text. *)
Fixpoint occurrences (c : ascii) (s : string) : nat :=
  match s with
  | EmptyString => 0
  | String x r => (if Ascii.eqb x c then 1 else 0) + occurrences c r
  end.

Definition email_field (v : string) : field :=
  {| required := true; is_email := true; value := v;
     parent := Some {| error_class := false; error_message := Some "" |} |}.

End Contact.

(* ------------------------------------------------------------------ *)
(** ** Dialogs and the scroll lock

    What a user can do on the page as it is shown: a card can be activated
    only while no dialog covers the page, and a backdrop or a close control
    can be clicked only on a dialog that is open. *)

Module Scroll.

Import Modal.

Definition possible (ev : event) (s : State) : Prop :=
  match ev with
  | ActivateProjectCard _ | ActivateBlogCard _ => none_open s = true
  | ClickBackdrop A | ClickClose A => is_open A s = true
  | _ => True
  end.

Fixpoint all_possible (evs : list event) (s : State) : Prop :=
  match evs with
  | [] => True
  | ev :: evs' => possible ev s /\ all_possible evs' (step ev s)
  end.

(** [document.body.style.overflow === 'hidden'] *)
Definition locked (s : State) : bool :=
  match body_overflow s with
  | overflow_hidden => true
  | overflow_unset => false
  end.

(** The page scroll is locked exactly while a dialog is open, and no two
    dialogs are open. *)
Definition lock_follows_dialogs (s : State) : Prop :=
  locked s = is_open ProjectSurface s || is_open BlogSurface s
  /\ is_open ProjectSurface s && is_open BlogSurface s = false.

End Scroll.

(* ================================================================== *)
(** * Properties *)

(* ------------------------------------------------------------------ *)
(** ** Strings *)

Section StringFacts.

Import JsString.
#[local] Open Scope string_scope.

Lemma starts_with_app (q s : string) :
  starts_with q s = true <-> exists b, s = q ++ b.
Proof.
  revert s; induction q as [|c q IH]; intros s; simpl.
  - split; [intros _; exists s; reflexivity | reflexivity].
  - destruct s as [|d s].
    + split; [discriminate | intros [b Hb]; discriminate].
    + rewrite andb_true_iff, Ascii.eqb_eq, IH.
      split.
      * intros [-> [b ->]]. now exists b.
      * intros [b Hb]. inversion Hb; subst. split; [reflexivity | now exists b].
Qed.

Lemma includes_spec (s q : string) :
  includes s q = true <-> substring_of q s.
Proof.
  unfold substring_of. induction s as [|c s IH].
  - cbn [includes]. destruct (starts_with q "") eqn:Hp.
    + split; [intros _|reflexivity].
      apply starts_with_app in Hp. destruct Hp as [b Hb].
      exists "", b. exact Hb.
    + split; [discriminate|].
      intros (a & b & Hab).
      destruct a; simpl in Hab; [|discriminate].
      assert (starts_with q "" = true) by (apply starts_with_app; now exists b).
      congruence.
  - cbn [includes]. destruct (starts_with q (String c s)) eqn:Hp.
    + split; [intros _|reflexivity].
      apply starts_with_app in Hp. destruct Hp as [b Hb].
      exists "", b. exact Hb.
    + rewrite IH. split.
      * intros (a & b & Hab). exists (String c a), b. simpl. now rewrite Hab.
      * intros (a & b & Hab). destruct a as [|d a]; simpl in Hab.
        -- assert (starts_with q (String c s) = true)
             by (apply starts_with_app; now exists b).
           congruence.
        -- inversion Hab; subst. now exists a, b.
Qed.

Lemma array_includes_In (l : list string) (x : string) :
  array_includes l x = true <-> In x l.
Proof.
  unfold array_includes. rewrite existsb_exists. split.
  - intros (y & Hy & Heq). apply String.eqb_eq in Heq. now subst.
  - intros H. exists x. split; [assumption | apply String.eqb_refl].
Qed.

Example toLowerCase_demo : toLowerCase "Demo Shop" = "demo shop".
Proof. reflexivity. Qed.

Example trim_spaces : trim "  Node.js 	" = "Node.js".
Proof. reflexivity. Qed.

Example includes_demo :
  includes "demo shop" "demo" = true /\ includes "Demo Shop" "demo" = false
  /\ includes "react" "" = true.
Proof. repeat split. Qed.

End StringFacts.

(* ------------------------------------------------------------------ *)
(** ** Project search *)

Section SearchFacts.

Import JsString Projects.
#[local] Open Scope string_scope.

Lemma has_tag_In (tag : string) (p : project) :
  has_tag tag p = true <-> In tag (tags_or_empty p).
Proof. apply array_includes_In. Qed.

Lemma matches_folded (value : string) (p : project) :
  matches (query value) p = true <-> contains_query_folded value p.
Proof.
  unfold matches, contains_query_folded.
  rewrite !orb_true_iff, !includes_spec, existsb_exists.
  split.
  - intros [[H|H]|(t & Ht & H)]; auto.
    right; right. exists t. now rewrite <- includes_spec.
  - intros [H|[H|(t & Ht & H)]]; auto.
    right. exists t. now rewrite includes_spec.
Qed.

Lemma filter_pool (st : state) (f : project -> bool) :
  filter f (pool st)
  = filter (fun p => (String.eqb (currentFilter st) "all"
                      || has_tag (currentFilter st) p) && f p)
           (projects st).
Proof.
  unfold pool. destruct (String.eqb (currentFilter st) "all"); simpl.
  - reflexivity.
  - induction (projects st) as [|p l IH]; simpl; [reflexivity|].
    destruct (has_tag (currentFilter st) p); simpl; [|exact IH].
    destruct (f p); now rewrite IH.
Qed.

Lemma kept_spec (value : string) (st : state) (p : project) :
  kept value st p = true <->
  (currentFilter st = "all" \/ In (currentFilter st) (tags_or_empty p))
  /\ contains_query_folded value p.
Proof.
  unfold kept.
  now rewrite andb_true_iff, orb_true_iff, String.eqb_eq, has_tag_In,
    matches_folded.
Qed.

(** C10, as the handler behaves: after the search handler has run, the
    filtered list is the project list, in its order, restricted to the
    projects of the current filter pool (all of them under ['all'], otherwise
    those whose tag list includes the active filter) whose lowercased title,
    lowercased description or some lowercased tag contains the lowercased,
    trimmed query; the project list and the filter are left as they were. *)
Theorem search_keeps_pool_matches_case_folded (value : string) (st : state) :
  exists keep : project -> bool,
    filteredProjects (onSearchInput value st) = filter keep (projects st)
    /\ (forall p, keep p = true <->
          (currentFilter st = "all"
           \/ In (currentFilter st) (tags_or_empty p))
          /\ contains_query_folded value p)
    /\ (forall p, In p (filteredProjects (onSearchInput value st)) <->
          in_pool st p /\ contains_query_folded value p)
    /\ projects (onSearchInput value st) = projects st
    /\ currentFilter (onSearchInput value st) = currentFilter st.
Proof.
  exists (kept value st).
  split; [apply (filter_pool st (matches (query value)))|].
  split; [intros p; apply kept_spec|].
  split; [|split; reflexivity].
  intros p. simpl. rewrite filter_pool.
  change (In p (filter (kept value st) (projects st)) <->
          in_pool st p /\ contains_query_folded value p).
  rewrite filter_In, kept_spec. unfold in_pool. tauto.
Qed.

(** C10, as written, fails on the demo gallery: the query ["demo"] keeps
    "Demo Shop", whose title, description and tags do not contain ["demo"]
    letter for letter. *)
Lemma search_as_written_fails_on_demo :
  ~ (forall value st p,
       In p (filteredProjects (onSearchInput value st)) <->
       in_pool st p /\ contains_query_as_written value p).
Proof.
  intros H.
  assert (Hin : In demo_shop
                   (filteredProjects (onSearchInput "demo" demo_state)))
    by (left; reflexivity).
  apply H in Hin. destruct Hin as [_ [Hc|[Hc|(t & Ht & Hc)]]].
  - apply includes_spec in Hc. discriminate Hc.
  - apply includes_spec in Hc. discriminate Hc.
  - simpl in Ht. destruct Ht as [<-|[<-|[]]];
      apply includes_spec in Hc; discriminate Hc.
Qed.

End SearchFacts.

(* ------------------------------------------------------------------ *)
(** ** Likes *)

Section LikeFacts.

Import Likes.

Lemma count_Some (n : Z) : count (Some n) = n.
Proof. unfold count. destruct (Z.eqb_spec n 0); congruence. Qed.

(** Toggling twice gives back the counter and the flag as the page reads
    them. *)
Lemma toggled_twice (l : option Z) (f : option bool) :
  toggled (Some (fst (toggled l f))) (Some (snd (toggled l f)))
  = (count l, flag f).
Proof.
  unfold toggled. cbn [fst snd flag]. rewrite count_Some, negb_involutive.
  destruct (flag f); cbn [negb]; f_equal; lia.
Qed.

Section UpdateFound.

Variables (A : Type) (f : A -> bool) (g : A -> A).
Hypothesis f_stable : forall x, f x = true -> f (g x) = true.

Lemma find_update_found (l : list A) :
  find f (update_found f g l) = option_map g (find f l).
Proof.
  induction l as [|x r IH]; simpl; [reflexivity|].
  destruct (f x) eqn:Hx; simpl.
  - now rewrite f_stable.
  - now rewrite Hx.
Qed.

Lemma update_found_twice (l : list A) :
  update_found f g (update_found f g l)
  = update_found f (fun x => g (g x)) l.
Proof.
  induction l as [|x r IH]; simpl; [reflexivity|].
  destruct (f x) eqn:Hx; simpl.
  - now rewrite f_stable.
  - now rewrite Hx, IH.
Qed.

End UpdateFound.

Lemma map_update_found (A B : Type) (f : A -> bool) (h : A -> A)
  (v : A -> B) (l : list A) :
  (forall x, v (h x) = v x) -> map v (update_found f h l) = map v l.
Proof.
  intros Hv. induction l as [|x r IH]; simpl; [reflexivity|].
  destruct (f x); simpl; now rewrite ?Hv, ?IH.
Qed.

Lemma update_found_fixed (A : Type) (f : A -> bool) (h : A -> A)
  (P : A -> Prop) (l : list A) :
  (forall x, P x -> h x = x) -> Forall P l -> update_found f h l = l.
Proof.
  intros Hh Hl. induction Hl as [|x r Hx Hr IH]; simpl; [reflexivity|].
  destruct (f x); now rewrite ?Hh, ?IH.
Qed.

Lemma update_found_none (A : Type) (f : A -> bool) (h : A -> A) (l : list A) :
  find f l = None -> update_found f h l = l.
Proof.
  induction l as [|x r IH]; simpl; [reflexivity|].
  destruct (f x); [discriminate|]. intros H. now rewrite IH.
Qed.

Lemma find_absent (A : Type) (f : A -> bool) (l : list A) :
  (forall x, In x l -> f x = false) -> find f l = None.
Proof.
  induction l as [|x r IH]; simpl; intros H; [reflexivity|].
  rewrite (H x (or_introl eq_refl)). apply IH. intros y Hy. apply H. now right.
Qed.

Lemma like_like_shown (p : post) : shown (like (like p)) = shown p.
Proof.
  unfold shown, like. cbn [post_id content date likes liked].
  rewrite toggled_twice. cbn [fst snd flag]. now rewrite count_Some.
Qed.

Lemma like_like_complete (p : post) : complete p -> like (like p) = p.
Proof.
  destruct p as [i c d [n|] [b|]]; intros [H1 H2]; cbn in H1, H2;
    try congruence.
  unfold like. cbn [post_id content date likes liked].
  rewrite toggled_twice. cbn [fst snd flag]. now rewrite count_Some.
Qed.

Lemma like_blog_twice_shown (b : Modal.blog) :
  Modal.shown_blog (Modal.like_blog (Modal.like_blog b)) = Modal.shown_blog b.
Proof.
  unfold Modal.shown_blog, Modal.like_blog.
  cbn [Modal.blog_id Modal.blog_title Modal.blog_content Modal.blog_date
       Modal.blog_likes Modal.blog_liked].
  rewrite toggled_twice. cbn [fst snd flag]. now rewrite count_Some.
Qed.

Lemma like_blog_twice_complete (b : Modal.blog) :
  Modal.complete_blog b -> Modal.like_blog (Modal.like_blog b) = b.
Proof.
  destruct b as [i t c d [n|] [l|]]; intros [H1 H2]; cbn in H1, H2;
    try congruence.
  unfold Modal.like_blog.
  cbn [Modal.blog_id Modal.blog_title Modal.blog_content Modal.blog_date
       Modal.blog_likes Modal.blog_liked].
  rewrite toggled_twice. cbn [fst snd flag]. now rewrite count_Some.
Qed.

Lemma likePost_twice (i : Z) (st : state) :
  posts (likePost i (likePost i st))
  = update_found (has_id i) (fun p => like (like p)) (posts st).
Proof.
  unfold likePost. destruct (find (has_id i) (posts st)) as [p|] eqn:Hf.
  - cbn [posts]. rewrite find_update_found, Hf by (intros x Hx; exact Hx).
    cbn [option_map posts]. now apply update_found_twice.
  - rewrite Hf. symmetry. now apply update_found_none.
Qed.

Lemma likeBlog_twice (i : Z) (s : Modal.State) :
  Modal.blogs (Modal.likeBlog i (Modal.likeBlog i s))
  = update_found (Modal.blog_has_id i)
      (fun b => Modal.like_blog (Modal.like_blog b)) (Modal.blogs s).
Proof.
  unfold Modal.likeBlog.
  destruct (find (Modal.blog_has_id i) (Modal.blogs s)) as [b|] eqn:Hf.
  - cbn [Modal.blogs Modal.with_blogs].
    rewrite find_update_found, Hf by (intros x Hx; exact Hx).
    cbn [option_map Modal.blogs Modal.with_blogs].
    now apply update_found_twice.
  - rewrite Hf. symmetry. now apply update_found_none.
Qed.

(** C9: liking twice is a round trip.  For every id, after two successive
    likes every entry shows the counter ([likes || 0]) and the flag (the
    truth value of [liked]) it showed before; an entry that carries both
    properties gets back the very values it had, so the list is the one
    before; and liking an id that no entry has leaves the state as it was.
    This holds for [likePost] on posts and for [likeBlog] on blogs. *)
Theorem like_twice_round_trip (i : Z) (st : state) (s : Modal.State) :
  (map shown (posts (likePost i (likePost i st))) = map shown (posts st)
   /\ (Forall complete (posts st) ->
       posts (likePost i (likePost i st)) = posts st)
   /\ ((forall p, In p (posts st) -> post_id p <> i) -> likePost i st = st))
  /\
  (map Modal.shown_blog (Modal.blogs (Modal.likeBlog i (Modal.likeBlog i s)))
   = map Modal.shown_blog (Modal.blogs s)
   /\ (Forall Modal.complete_blog (Modal.blogs s) ->
       Modal.blogs (Modal.likeBlog i (Modal.likeBlog i s)) = Modal.blogs s)
   /\ ((forall b, In b (Modal.blogs s) -> Modal.blog_id b <> i) ->
       Modal.likeBlog i s = s)).
Proof.
  split; (split; [|split]).
  - rewrite likePost_twice. apply map_update_found, like_like_shown.
  - intros Hc. rewrite likePost_twice.
    now apply update_found_fixed with (P := complete);
      [apply like_like_complete|].
  - intros Habs. unfold likePost. rewrite find_absent; [reflexivity|].
    intros p Hp. apply Z.eqb_neq. now apply Habs.
  - rewrite likeBlog_twice. apply map_update_found, like_blog_twice_shown.
  - intros Hc. rewrite likeBlog_twice.
    now apply update_found_fixed with (P := Modal.complete_blog);
      [apply like_blog_twice_complete|].
  - intros Habs. unfold Modal.likeBlog. rewrite find_absent; [reflexivity|].
    intros b Hb. apply Z.eqb_neq. now apply Habs.
Qed.

(** The round trip on the second of two posts and on the first seed blog,
    and a like on an id nobody has. *)
Lemma like_twice_round_trip_witness :
  (posts (likePost 1000 (likePost 1000 two_posts)) = posts two_posts
   /\ likePost 7 two_posts = two_posts)
  /\ (Modal.blogs (Modal.likeBlog 2000 (Modal.likeBlog 2000 Modal.loaded_page))
      = Modal.blogs Modal.loaded_page
      /\ Modal.likeBlog 7 Modal.loaded_page = Modal.loaded_page).
Proof.
  destruct (like_twice_round_trip 1000 two_posts Modal.loaded_page)
    as [[_ [Hp _]] _].
  destruct (like_twice_round_trip 2000 two_posts Modal.loaded_page)
    as [_ [_ [Hb _]]].
  destruct (like_twice_round_trip 7 two_posts Modal.loaded_page)
    as [[_ [_ Hp']] [_ [_ Hb']]].
  split; split.
  - apply Hp. repeat constructor; discriminate.
  - apply Hp'. intros p [<-|[<-|[]]]; discriminate.
  - apply Hb. repeat constructor; discriminate.
  - apply Hb'. intros b [<-|[<-|[]]]; discriminate.
Defined.

End LikeFacts.

(* ------------------------------------------------------------------ *)
(** ** Dialogs *)

Section ModalFacts.

Import Modal.

(** *** Focus and attachment *)

Lemma mem_In (n : nat) (l : list nat) : mem n l = true <-> In n l.
Proof.
  unfold mem. rewrite existsb_exists. split.
  - intros (x & Hx & Heq). apply Nat.eqb_eq in Heq. now subst.
  - intros H. exists n. split; [assumption | apply Nat.eqb_refl].
Qed.

Lemma attached_ext (s t : State) (n : nat) :
  page s = page t ->
  nodes_of (project_modal s) = nodes_of (project_modal t) ->
  nodes_of (blog_modal s) = nodes_of (blog_modal t) ->
  attached s n = attached t n.
Proof. unfold attached. now intros -> -> ->. Qed.

Lemma focus_cases (n : nat) (s : State) :
  (attached s n = true /\ focus n s = with_activeElement (Some n) s)
  \/ (attached s n = false /\ focus n s = s).
Proof. unfold focus. destruct (attached s n); auto. Qed.

Lemma focus_project_modal n s : project_modal (focus n s) = project_modal s.
Proof. unfold focus. now destruct (attached s n). Qed.

Lemma focus_blog_modal n s : blog_modal (focus n s) = blog_modal s.
Proof. unfold focus. now destruct (attached s n). Qed.

Lemma focus_modal_of A n s : modal_of A (focus n s) = modal_of A s.
Proof. destruct A; [apply focus_project_modal | apply focus_blog_modal]. Qed.

Lemma focus_page n s : page (focus n s) = page s.
Proof. unfold focus. now destruct (attached s n). Qed.

Lemma focus_body_overflow n s : body_overflow (focus n s) = body_overflow s.
Proof. unfold focus. now destruct (attached s n). Qed.

Lemma focus_lastFocused n s : lastFocused (focus n s) = lastFocused s.
Proof. unfold focus. now destruct (attached s n). Qed.

Lemma focus_attached n s k : attached (focus n s) k = attached s k.
Proof.
  apply attached_ext;
    [apply focus_page | now rewrite focus_project_modal
     | now rewrite focus_blog_modal].
Qed.

Lemma focus_active n s :
  attached s n = true -> activeElement (focus n s) = Some n.
Proof. unfold focus. now intros ->. Qed.

Lemma focus_detached n s : attached s n = false -> focus n s = s.
Proof. unfold focus. now intros ->. Qed.

Lemma focus_idem n s : focus n (focus n s) = focus n s.
Proof.
  unfold focus at 1. rewrite focus_attached.
  destruct (focus_cases n s) as [[Ha ->]|[Ha ->]]; rewrite Ha; reflexivity.
Qed.

Lemma restore_focus_idem s : restore_focus (restore_focus s) = restore_focus s.
Proof.
  unfold restore_focus.
  destruct (lastFocused s) as [n|] eqn:Hl.
  - rewrite focus_lastFocused, Hl. apply focus_idem.
  - now rewrite Hl.
Qed.

Lemma restore_focus_modal_of A s :
  modal_of A (restore_focus s) = modal_of A s.
Proof.
  unfold restore_focus. destruct (lastFocused s); [apply focus_modal_of|reflexivity].
Qed.

Lemma restore_focus_body_overflow s :
  body_overflow (restore_focus s) = body_overflow s.
Proof.
  unfold restore_focus.
  destruct (lastFocused s); [apply focus_body_overflow|reflexivity].
Qed.

Lemma hide_idem m : hide (hide m) = hide m.
Proof. reflexivity. Qed.

Lemma nodes_of_hide m : nodes_of (Some (hide m)) = nodes_of (Some m).
Proof. reflexivity. Qed.

(** *** Closing *)

(** The state [closeProjectModal] builds before it restores the focus. *)
Lemma closeProjectModal_eq s m :
  project_modal s = Some m ->
  closeProjectModal s
  = restore_focus
      (with_body_overflow overflow_unset
         (with_project_modal (Some (hide m)) s)).
Proof. unfold closeProjectModal. now intros ->. Qed.

Lemma closeBlogModal_eq s m :
  blog_modal s = Some m ->
  closeBlogModal s
  = restore_focus
      (with_body_overflow overflow_unset
         (with_blog_modal (Some (hide m)) (with_currentBlogId None s))).
Proof. unfold closeBlogModal. now intros ->. Qed.

Lemma close_close (A : surface) (s : State) :
  close A (close A s) = close A s.
Proof.
  destruct A; cbn [close].
  - destruct (project_modal s) as [m|] eqn:Hm.
    + rewrite (closeProjectModal_eq s m Hm).
      set (t := with_body_overflow _ _).
      rewrite (closeProjectModal_eq (restore_focus t) (hide m))
        by (now rewrite (restore_focus_modal_of ProjectSurface)).
      rewrite hide_idem.
      replace (with_body_overflow overflow_unset
                 (with_project_modal (Some (hide m)) (restore_focus t)))
        with (restore_focus t).
      * apply restore_focus_idem.
      * unfold restore_focus. destruct (lastFocused t) as [n|]; [|reflexivity].
        destruct (focus_cases n t) as [[_ ->]|[_ ->]]; reflexivity.
    + unfold closeProjectModal. now rewrite Hm, Hm.
  - destruct (blog_modal s) as [m|] eqn:Hm.
    + rewrite (closeBlogModal_eq s m Hm).
      set (t := with_body_overflow _ _).
      rewrite (closeBlogModal_eq (restore_focus t) (hide m))
        by (now rewrite (restore_focus_modal_of BlogSurface)).
      rewrite hide_idem.
      replace (with_body_overflow overflow_unset
                 (with_blog_modal (Some (hide m))
                    (with_currentBlogId None (restore_focus t))))
        with (restore_focus t).
      * apply restore_focus_idem.
      * unfold restore_focus. destruct (lastFocused t) as [n|]; [|reflexivity].
        destruct (focus_cases n t) as [[_ ->]|[_ ->]]; reflexivity.
    + unfold closeBlogModal. now rewrite Hm, Hm.
Qed.

(** C7: [close] is idempotent.  For either surface and any state, closing
    twice in a row gives the state that closing once gives, so the same
    visibility, ['aria-hidden'] marking, scroll lock and focus; this covers
    a surface that is already closed or has no container.  [close] is a
    total function of the state: none of its steps can raise. *)
Theorem close_is_idempotent (A : surface) (s : State) :
  close A (close A s) = close A s
  /\ observe A (close A (close A s)) = observe A (close A s).
Proof. now rewrite close_close. Qed.

(** *** What closing leaves *)

Lemma restore_focus_active s :
  activeElement (restore_focus s) = remembered_focus s.
Proof.
  unfold restore_focus, remembered_focus, focus.
  destruct (lastFocused s) as [n|]; [|reflexivity].
  now destruct (attached s n).
Qed.

Lemma restore_focus_page s : page (restore_focus s) = page s.
Proof.
  unfold restore_focus. destruct (lastFocused s); [apply focus_page|reflexivity].
Qed.

Lemma restore_focus_lastFocused s :
  lastFocused (restore_focus s) = lastFocused s.
Proof.
  unfold restore_focus.
  destruct (lastFocused s) as [n|] eqn:Hl; [|exact Hl].
  now rewrite focus_lastFocused.
Qed.

Lemma remembered_focus_ext (s t : State) :
  lastFocused s = lastFocused t ->
  activeElement s = activeElement t ->
  (forall n, attached s n = attached t n) ->
  remembered_focus s = remembered_focus t.
Proof.
  unfold remembered_focus. intros -> -> H.
  destruct (lastFocused t); [now rewrite H|reflexivity].
Qed.

Lemma close_modal_of_same A s m :
  modal_of A s = Some m -> modal_of A (close A s) = Some (hide m).
Proof.
  destruct A; cbn [modal_of close]; intros Hm.
  - rewrite (closeProjectModal_eq s m Hm).
    now rewrite (restore_focus_modal_of ProjectSurface).
  - rewrite (closeBlogModal_eq s m Hm).
    now rewrite (restore_focus_modal_of BlogSurface).
Qed.

Lemma close_modal_of_other A s :
  modal_of (other A) (close A s) = modal_of (other A) s.
Proof.
  destruct A; cbn [modal_of close other].
  - unfold closeProjectModal. destruct (project_modal s); [|reflexivity].
    now rewrite (restore_focus_modal_of BlogSurface).
  - unfold closeBlogModal. destruct (blog_modal s); [|reflexivity].
    now rewrite (restore_focus_modal_of ProjectSurface).
Qed.

Lemma close_absent A s : modal_of A s = None -> close A s = s.
Proof.
  destruct A; cbn [modal_of close]; intros Hm.
  - unfold closeProjectModal. now rewrite Hm.
  - unfold closeBlogModal. now rewrite Hm.
Qed.

Lemma close_lastFocused A s : lastFocused (close A s) = lastFocused s.
Proof.
  destruct A; cbn [close].
  - unfold closeProjectModal. destruct (project_modal s); [|reflexivity].
    now rewrite restore_focus_lastFocused.
  - unfold closeBlogModal. destruct (blog_modal s); [|reflexivity].
    now rewrite restore_focus_lastFocused.
Qed.

Lemma close_attached A s n : attached (close A s) n = attached s n.
Proof.
  destruct A; cbn [close].
  - unfold closeProjectModal. destruct (project_modal s) as [m|] eqn:Hm;
      [|reflexivity].
    apply attached_ext.
    + now rewrite restore_focus_page.
    + rewrite (restore_focus_modal_of ProjectSurface). cbn. now rewrite Hm.
    + now rewrite (restore_focus_modal_of BlogSurface).
  - unfold closeBlogModal. destruct (blog_modal s) as [m|] eqn:Hm;
      [|reflexivity].
    apply attached_ext.
    + now rewrite restore_focus_page.
    + now rewrite (restore_focus_modal_of ProjectSurface).
    + rewrite (restore_focus_modal_of BlogSurface). cbn. now rewrite Hm.
Qed.

Lemma close_active A s m :
  modal_of A s = Some m -> activeElement (close A s) = remembered_focus s.
Proof.
  destruct A; cbn [modal_of close]; intros Hm.
  - rewrite (closeProjectModal_eq s m Hm), restore_focus_active.
    apply remembered_focus_ext; try reflexivity.
    intros n. apply attached_ext; try reflexivity. cbn. now rewrite Hm.
  - rewrite (closeBlogModal_eq s m Hm), restore_focus_active.
    apply remembered_focus_ext; try reflexivity.
    intros n. apply attached_ext; try reflexivity. cbn. now rewrite Hm.
Qed.

Lemma close_body_overflow A s m :
  modal_of A s = Some m -> body_overflow (close A s) = overflow_unset.
Proof.
  destruct A; cbn [modal_of close]; intros Hm.
  - now rewrite (closeProjectModal_eq s m Hm), restore_focus_body_overflow.
  - now rewrite (closeBlogModal_eq s m Hm), restore_focus_body_overflow.
Qed.

(** The focus after [close] when the remembered element is on the page
    outside the dialogs, is gone from the document, or was never set. *)
Lemma close_focus_on_page A s m e :
  modal_of A s = Some m ->
  lastFocused s = Some e -> In e (page s) ->
  activeElement (close A s) = Some e.
Proof.
  intros Hm Hl Hin. rewrite (close_active A s m Hm).
  unfold remembered_focus. rewrite Hl.
  assert (Ha : attached s e = true).
  { unfold attached. apply mem_In. rewrite in_app_iff. now left. }
  now rewrite Ha.
Qed.

Lemma close_focus_detached A s m e :
  modal_of A s = Some m ->
  lastFocused s = Some e -> attached s e = false ->
  activeElement (close A s) = activeElement s.
Proof.
  intros Hm Hl Ha. rewrite (close_active A s m Hm).
  unfold remembered_focus. now rewrite Hl, Ha.
Qed.

Lemma close_focus_unset A s m :
  modal_of A s = Some m ->
  lastFocused s = None ->
  activeElement (close A s) = activeElement s.
Proof.
  intros Hm Hl. rewrite (close_active A s m Hm).
  unfold remembered_focus. now rewrite Hl.
Qed.

(** The marking [close] leaves on its surface, and the scroll lock. *)
Lemma close_marks A s m :
  modal_of A s = Some m ->
  obs_overflow (observe A (close A s)) = overflow_unset
  /\ obs_aria_hidden (observe A (close A s)) = Some (Some true)
  /\ obs_display (observe A (close A s)) = Some display_none
  /\ obs_open_attr (observe A (close A s)) = Some false.
Proof.
  intros Hm. unfold observe. cbn [obs_overflow obs_aria_hidden obs_display
                                   obs_open_attr].
  now rewrite (close_modal_of_same A s m Hm), (close_body_overflow A s m Hm).
Qed.

Lemma is_open_present A s :
  is_open A s = true -> exists m, modal_of A s = Some m.
Proof.
  unfold is_open. destruct (modal_of A s) as [m|]; [now exists m|discriminate].
Qed.

Lemma is_open_close_same A s : is_open A (close A s) = false.
Proof.
  unfold is_open. destruct (modal_of A s) as [m|] eqn:Hm.
  - now rewrite (close_modal_of_same A s m Hm).
  - now rewrite (close_absent A s Hm), Hm.
Qed.

Lemma is_open_close_other A s :
  is_open (other A) (close A s) = is_open (other A) s.
Proof. unfold is_open. now rewrite close_modal_of_other. Qed.

(** *** Key presses that are not Tab *)

Lemma keyHandler_not_tab h e s :
  key_of e <> Tab -> keyHandler h e s = (s, false).
Proof. unfold keyHandler. destruct (key_of e); congruence. Qed.

Lemma run_listeners_not_tab hs e s :
  key_of e <> Tab -> run_listeners hs e s = (s, 0).
Proof.
  intros He. induction hs as [|h hs IH]; cbn [run_listeners]; [reflexivity|].
  rewrite keyHandler_not_tab by assumption. now rewrite IH.
Qed.

Lemma bubble_not_tab e s : key_of e <> Tab -> bubble_keydown e s = (s, 0).
Proof.
  intros He. unfold bubble_keydown.
  destruct (activeElement s) as [n|]; [|reflexivity].
  destruct (container_of s n); [|reflexivity].
  now apply run_listeners_not_tab.
Qed.

Lemma keydown_escape shift s :
  keydown {| key_of := Escape; shiftKey := shift |} s
  = (let s1 := if is_open ProjectSurface s then closeProjectModal s else s in
     if is_open BlogSurface s1 then closeBlogModal s1 else s1).
Proof.
  unfold keydown. rewrite bubble_not_tab by (cbn; discriminate). reflexivity.
Qed.

Lemma keydown_v1_escape shift s :
  keydown_v1 {| key_of := Escape; shiftKey := shift |} s
  = if is_open ProjectSurface s then closeProjectModal s else s.
Proof.
  unfold keydown_v1. rewrite bubble_not_tab by (cbn; discriminate). reflexivity.
Qed.

Lemma click_backdrop_close A s :
  is_open A s = true -> click_backdrop A s = close A s.
Proof.
  intros Ho. destruct (is_open_present A s Ho) as [m Hm].
  unfold click_backdrop, on_document_click_project, on_document_click_blog.
  destruct A; cbn [modal_of close] in *.
  - rewrite Hm. now destruct (blog_modal (closeProjectModal s)).
  - destruct (project_modal s); now rewrite Hm.
Qed.

(** Escape hides an open surface and unlocks the scroll, whatever the other
    surface is. *)
Lemma escape_marks A s shift m :
  is_open A s = true -> modal_of A s = Some m ->
  modal_of A (keydown {| key_of := Escape; shiftKey := shift |} s)
  = Some (hide m)
  /\ body_overflow (keydown {| key_of := Escape; shiftKey := shift |} s)
     = overflow_unset.
Proof.
  intros Ho Hm. rewrite keydown_escape. cbn zeta.
  destruct A; cbn [modal_of] in Hm.
  - rewrite Ho.
    pose proof (close_modal_of_same ProjectSurface s m Hm) as Hp.
    pose proof (close_body_overflow ProjectSurface s m Hm) as Hv.
    cbn [close] in Hp, Hv.
    destruct (is_open BlogSurface (closeProjectModal s)) eqn:Hb;
      [|now split].
    destruct (is_open_present BlogSurface _ Hb) as [mb Hmb].
    split.
    + rewrite <- Hp.
      apply (close_modal_of_other BlogSurface (closeProjectModal s)).
    + apply (close_body_overflow BlogSurface _ mb Hmb).
  - set (s1 := if is_open ProjectSurface s then closeProjectModal s else s).
    assert (Hm1 : modal_of BlogSurface s1 = Some m).
    { subst s1. destruct (is_open ProjectSurface s); [|exact Hm].
      rewrite <- Hm. apply (close_modal_of_other ProjectSurface s). }
    assert (Ho1 : is_open BlogSurface s1 = true).
    { rewrite <- Ho. unfold is_open. cbn [modal_of] in *. now rewrite Hm1, Hm. }
    rewrite Ho1. split.
    + apply (close_modal_of_same BlogSurface s1 m Hm1).
    + apply (close_body_overflow BlogSurface s1 m Hm1).
Qed.

Lemma escape_close A s shift :
  is_open A s = true -> is_open (other A) s = false ->
  keydown {| key_of := Escape; shiftKey := shift |} s = close A s.
Proof.
  intros Ho Hc. rewrite keydown_escape. cbn zeta.
  destruct A; cbn [other close] in *.
  - rewrite Ho.
    now rewrite (is_open_close_other ProjectSurface s
                   : is_open BlogSurface (closeProjectModal s) = is_open BlogSurface s), Hc.
  - now rewrite Hc, Ho.
Qed.

(** C6, as the script behaves: from a state in which surface [A] is open,
    a click whose target is the backdrop of [A] gives the very state
    [close A] gives, and so does the Escape key when the other surface is
    not open as well; the later revision's Escape listener closes every open
    dialog, so with both open it does more than [close A].  Either
    dismissal, like [close A], leaves the page scroll unlocked and [A]
    marked ['aria-hidden'], displayed ['none'] and without ['open'].  After
    [close A] the focus is on the remembered element when that element is
    on the page outside the dialogs; it is left where it was when the
    remembered element is no longer attached or none is remembered.  Under
    [src/script.js], with its single surface, both dismissals give the state
    of [closeProjectModal]. *)
Theorem dismissals_agree_with_close (A : surface) (s : State) (shift : bool) :
  is_open A s = true ->
  click_backdrop A s = close A s
  /\ (is_open (other A) s = false ->
      keydown {| key_of := Escape; shiftKey := shift |} s = close A s)
  /\ (forall t : State,
        t = keydown {| key_of := Escape; shiftKey := shift |} s
        \/ t = click_backdrop A s \/ t = close A s ->
        obs_overflow (observe A t) = overflow_unset
        /\ obs_aria_hidden (observe A t) = Some (Some true)
        /\ obs_display (observe A t) = Some display_none
        /\ obs_open_attr (observe A t) = Some false)
  /\ (forall e, lastFocused s = Some e -> In e (page s) ->
        activeElement (close A s) = Some e)
  /\ (forall e, lastFocused s = Some e -> attached s e = false ->
        activeElement (close A s) = activeElement s)
  /\ (lastFocused s = None -> activeElement (close A s) = activeElement s)
  /\ (A = ProjectSurface ->
      keydown_v1 {| key_of := Escape; shiftKey := shift |} s
      = closeProjectModal s
      /\ click_backdrop_v1 s = closeProjectModal s).
Proof.
  intros Ho. destruct (is_open_present A s Ho) as [m Hm].
  split; [now apply click_backdrop_close|].
  split; [now apply escape_close|].
  split.
  { intros t [->|[->| ->]].
    - destruct (escape_marks A s shift m Ho Hm) as [Hh Hv].
      unfold observe. cbn [obs_overflow obs_aria_hidden obs_display
                             obs_open_attr].
      now rewrite Hh, Hv.
    - rewrite (click_backdrop_close A s Ho). apply (close_marks A s m Hm).
    - apply (close_marks A s m Hm). }
  split; [intros e; apply (close_focus_on_page A s m e Hm)|].
  split; [intros e; apply (close_focus_detached A s m e Hm)|].
  split; [apply (close_focus_unset A s m Hm)|].
  intros ->. cbn [modal_of] in Hm. split.
  - now rewrite keydown_v1_escape, Ho.
  - unfold click_backdrop_v1, on_document_click_project. now rewrite Hm.
Qed.

Lemma dismissals_agree_with_close_witness :
  click_backdrop ProjectSurface
    (open (OpenProject Projects.demo_shop) loaded_page)
  = close ProjectSurface (open (OpenProject Projects.demo_shop) loaded_page)
  /\ keydown {| key_of := Escape; shiftKey := false |}
       (open (OpenBlog 2000) loaded_page)
     = close BlogSurface (open (OpenBlog 2000) loaded_page)
  /\ activeElement (close BlogSurface (open (OpenBlog 2000) loaded_page))
     = Some 10.
Proof.
  destruct (dismissals_agree_with_close ProjectSurface
              (open (OpenProject Projects.demo_shop) loaded_page) false
              eq_refl) as (Hclick & _).
  destruct (dismissals_agree_with_close BlogSurface
              (open (OpenBlog 2000) loaded_page) false
              eq_refl) as (_ & Hesc & _ & Hfocus & _).
  split; [exact Hclick|].
  split; [apply Hesc; reflexivity|].
  apply Hfocus; [reflexivity | now left].
Defined.

(** C6, as written, fails in the later revision: on the loaded page, a
    project card and then a blog card leave both dialogs open; the Escape
    key then closes both of them, whereas [close] on the blog surface
    leaves the project dialog open. *)
Lemma escape_closes_both_open_dialogs :
  ~ (forall A s shift,
       is_open A s = true ->
       keydown {| key_of := Escape; shiftKey := shift |} s = close A s).
Proof.
  intros H.
  specialize (H BlogSurface
                (run [ActivateProjectCard Projects.demo_shop;
                      ActivateBlogCard 2000] loaded_page)
                false eq_refl).
  apply (f_equal (is_open ProjectSurface)) in H.
  vm_compute in H. discriminate H.
Qed.

(** *** What opening does *)

Lemma trapFocus_descendants m : descendants (trapFocus m) = descendants m.
Proof. unfold trapFocus. now destruct (focusable m). Qed.


Lemma trapFocus_focusable m : focusable (trapFocus m) = focusable m.
Proof. unfold focusable. now rewrite trapFocus_descendants. Qed.

Lemma trapFocus_aria_hidden m : aria_hidden (trapFocus m) = aria_hidden m.
Proof. unfold trapFocus. now destruct (focusable m). Qed.

Lemma trapFocus_nodes m : nodes_of (Some (trapFocus m)) = nodes_of (Some m).
Proof. cbn. now rewrite trapFocus_descendants. Qed.

(** The listener [trapFocus] registers for a non-empty focusable list. *)
Lemma trapFocus_installs m first rest :
  focusable m = first :: rest ->
  keydown_listeners (trapFocus m)
  = keydown_listeners m
      ++ [{| trap_first := first; trap_last := List.last rest first |}]
  /\ removeTrap (trapFocus m)
     = Some {| trap_first := first; trap_last := List.last rest first |}.
Proof. unfold trapFocus. now intros ->. Qed.

Lemma trapFocus_nothing m :
  focusable m = [] -> trapFocus m = m.
Proof. unfold trapFocus. now intros ->. Qed.

Lemma closeBtn_In m b : closeBtn m = Some b -> In b (map nid (descendants m)).
Proof.
  unfold closeBtn. destruct (find modal_close (descendants m)) as [x|] eqn:Hf;
    [|discriminate].
  intros [= <-]. apply in_map. now apply find_some in Hf.
Qed.

Lemma focusable_In m n : In n (focusable m) -> In n (map nid (descendants m)).
Proof.
  unfold focusable. rewrite !in_map_iff. intros (x & Hx & Hin).
  exists x. split; [assumption|]. now apply filter_In in Hin.
Qed.

Lemma attached_in_modal A s m n :
  modal_of A s = Some m -> In n (map nid (descendants m)) -> attached s n = true.
Proof.
  intros Hm Hin. unfold attached. apply mem_In. rewrite !in_app_iff.
  destruct A; cbn [modal_of] in Hm; rewrite Hm; cbn [nodes_of]; auto.
Qed.

Lemma focus_closeBtn_modal_of A m s :
  modal_of A (focus_closeBtn m s) = modal_of A s.
Proof.
  unfold focus_closeBtn. destruct (closeBtn m); [apply focus_modal_of|reflexivity].
Qed.

Lemma focus_closeBtn_lastFocused m s :
  lastFocused (focus_closeBtn m s) = lastFocused s.
Proof.
  unfold focus_closeBtn.
  destruct (closeBtn m); [apply focus_lastFocused|reflexivity].
Qed.

Lemma focus_closeBtn_page m s : page (focus_closeBtn m s) = page s.
Proof.
  unfold focus_closeBtn. destruct (closeBtn m); [apply focus_page|reflexivity].
Qed.

Lemma focus_closeBtn_body_overflow m s :
  body_overflow (focus_closeBtn m s) = body_overflow s.
Proof.
  unfold focus_closeBtn.
  destruct (closeBtn m); [apply focus_body_overflow|reflexivity].
Qed.

(** Focus after [closeBtn && closeBtn.focus()] in a state whose dialog [A]
    is [m]: on the close control, or unchanged when there is none. *)
Lemma focus_closeBtn_active A m s :
  modal_of A s = Some m ->
  activeElement (focus_closeBtn m s)
  = match closeBtn m with Some b => Some b | None => activeElement s end.
Proof.
  intros Hm. unfold focus_closeBtn.
  destruct (closeBtn m) as [b|] eqn:Hb; [|reflexivity].
  apply focus_active, (attached_in_modal A s m b Hm), closeBtn_In, Hb.
Qed.

Lemma openProjectModal_eq p s m c0 :
  project_modal s = Some m -> body m = Some c0 ->
  openProjectModal p s
  = with_project_modal
      (Some (trapFocus (show (fst (render_project p (next_node s))) m)))
      (focus_closeBtn (show (fst (render_project p (next_node s))) m)
         (with_body_overflow overflow_hidden
            (with_next_node (snd (render_project p (next_node s)))
               (with_project_modal
                  (Some (show (fst (render_project p (next_node s))) m))
                  (with_lastFocused (activeElement s) s))))).
Proof.
  intros Hm Hb. unfold openProjectModal. rewrite Hm, Hb.
  cbn [next_node with_lastFocused].
  now destruct (render_project p (next_node s)).
Qed.

Lemma openBlogModal_eq i s m c0 b :
  blog_modal s = Some m -> body m = Some c0 ->
  find (blog_has_id i) (blogs s) = Some b ->
  openBlogModal i s
  = with_blog_modal
      (Some (trapFocus (show (fst (render_blog (admin s) (next_node s))) m)))
      (focus_closeBtn (show (fst (render_blog (admin s) (next_node s))) m)
         (with_body_overflow overflow_hidden
            (with_next_node (snd (render_blog (admin s) (next_node s)))
               (with_blog_modal
                  (Some (show (fst (render_blog (admin s) (next_node s))) m))
                  (with_lastFocused (activeElement s)
                     (with_currentBlogId (Some i) s)))))).
Proof.
  intros Hm Hb Hf. unfold openBlogModal. rewrite Hm, Hb, Hf.
  cbn [next_node admin with_lastFocused with_currentBlogId].
  now destruct (render_blog (admin s) (next_node s)).
Qed.

(** An [open] that takes effect, field by field. *)
Lemma open_effect (a : open_arg) (s : State) :
  takes_effect a s ->
  exists m,
    modal_of (surface_of a) s = Some m
    /\ modal_of (surface_of a) (open a s)
       = Some (trapFocus (show (rendered a s) m))
    /\ lastFocused (open a s) = activeElement s
    /\ activeElement (open a s)
       = match closeBtn (show (rendered a s) m) with
         | Some b => Some b
         | None => activeElement s
         end
    /\ body_overflow (open a s) = overflow_hidden
    /\ page (open a s) = page s.
Proof.
  unfold takes_effect.
  destruct (modal_of (surface_of a) s) as [m|] eqn:Hm; [|contradiction].
  intros [Hb Hf]. exists m. split; [reflexivity|].
  destruct (body m) as [c0|] eqn:Hc; [clear Hb|congruence].
  destruct a as [p|i]; cbn [surface_of modal_of open rendered] in *.
  - rewrite (openProjectModal_eq p s m c0 Hm Hc).
    set (c := fst (render_project p (next_node s))).
    set (t := with_body_overflow _ _).
    repeat split.
    + cbn [lastFocused with_project_modal].
      now rewrite focus_closeBtn_lastFocused.
    + cbn [activeElement with_project_modal].
      now rewrite (focus_closeBtn_active ProjectSurface (show c m) t).
    + cbn [body_overflow with_project_modal].
      now rewrite focus_closeBtn_body_overflow.
    + cbn [page with_project_modal]. now rewrite focus_closeBtn_page.
  - destruct (find (blog_has_id i) (blogs s)) as [b|] eqn:Hfb; [|congruence].
    rewrite (openBlogModal_eq i s m c0 b Hm Hc Hfb).
    set (c := fst (render_blog (admin s) (next_node s))).
    set (t := with_body_overflow _ _).
    repeat split.
    + cbn [lastFocused with_blog_modal].
      now rewrite focus_closeBtn_lastFocused.
    + cbn [activeElement with_blog_modal].
      now rewrite (focus_closeBtn_active BlogSurface (show c m) t).
    + cbn [body_overflow with_blog_modal].
      now rewrite focus_closeBtn_body_overflow.
    + cbn [page with_blog_modal]. now rewrite focus_closeBtn_page.
Qed.

(** [open] never touches the other dialog, whether it takes effect or not. *)
Lemma open_modal_of_other (a : open_arg) (s : State) :
  modal_of (other (surface_of a)) (open a s)
  = modal_of (other (surface_of a)) s.
Proof.
  destruct a as [p|i]; cbn [surface_of other modal_of open].
  - unfold openProjectModal.
    destruct (project_modal s) as [m|]; [|reflexivity].
    destruct (body m); [|reflexivity].
    cbn [next_node with_lastFocused].
    destruct (render_project p (next_node s)) as [c n].
    cbn [blog_modal with_project_modal].
    now rewrite (focus_closeBtn_modal_of BlogSurface).
  - unfold openBlogModal.
    destruct (blog_modal s) as [m|]; [|reflexivity].
    destruct (body m); [|reflexivity].
    destruct (find (blog_has_id i) (blogs s)); [|reflexivity].
    cbn [next_node admin with_lastFocused with_currentBlogId].
    destruct (render_blog (admin s) (next_node s)) as [c n].
    cbn [project_modal with_blog_modal].
    now rewrite (focus_closeBtn_modal_of ProjectSurface).
Qed.

(** *** Focus when a dialog opens and closes *)




(** C2: focus comes back on close.  When [open] takes effect on a surface
    while element [e] has the focus, [e] is remembered, and a [close] of that
    surface that follows (directly, or after the page outside the dialogs
    was rebuilt) puts the focus on [e] if [e] is still attached; if [e] is
    no longer attached, [close] leaves the focus where it is. *)
Theorem close_restores_focus_of_open
  (a : open_arg) (s : State) (e : nat) (pg : list nat) :
  takes_effect a s ->
  activeElement s = Some e ->
  lastFocused (open a s) = Some e
  /\ (attached (open a s) e = true ->
      activeElement (close (surface_of a) (open a s)) = Some e)
  /\ (attached (with_page pg (open a s)) e = true ->
      activeElement (close (surface_of a) (with_page pg (open a s))) = Some e)
  /\ (attached (with_page pg (open a s)) e = false ->
      activeElement (close (surface_of a) (with_page pg (open a s)))
      = activeElement (with_page pg (open a s))).
Proof.
  intros Ht He.
  destruct (open_effect a s Ht) as (m & _ & Hm & Hl & _).
  rewrite He in Hl.
  assert (Hm2 : modal_of (surface_of a) (with_page pg (open a s))
                = Some (trapFocus (show (rendered a s) m)))
    by (rewrite <- Hm; now destruct (surface_of a)).
  split; [exact Hl|].
  rewrite (close_active _ _ _ Hm), (close_active _ _ _ Hm2).
  unfold remembered_focus. cbn [lastFocused with_page]. rewrite Hl.
  repeat split; now intros ->.
Qed.

Lemma close_restores_focus_of_open_witness :
  activeElement
    (close ProjectSurface (open (OpenProject Projects.demo_shop) loaded_page))
  = Some 10
  /\ activeElement
       (close ProjectSurface
          (with_page [11] (open (OpenProject Projects.demo_shop) loaded_page)))
     = Some 1.
Proof.
  destruct (close_restores_focus_of_open
              (OpenProject Projects.demo_shop) loaded_page 10 [11])
    as (_ & H1 & _ & H2).
  - cbn. split; [discriminate|exact I].
  - reflexivity.
  - split; [apply H1|apply H2]; reflexivity.
Defined.

(** *** The focus trap *)

Lemma last_cons_In (x : nat) (l : list nat) (d : nat) :
  In (List.last (x :: l) d) (x :: l).
Proof.
  revert x. induction l as [|y r IH]; intros x.
  - now left.
  - right. apply (IH y).
Qed.

Lemma last_In (rest : list nat) (first : nat) :
  In (List.last rest first) (first :: rest).
Proof.
  destruct rest as [|x r]; [now left|]. right. apply last_cons_In.
Qed.

Lemma listeners_of_open (a : open_arg) (s : State) (m' : modal)
  (first : nat) (rest : list nat) :
  takes_effect a s ->
  modal_of (surface_of a) (open a s) = Some m' ->
  focusable m' = first :: rest ->
  keydown_listeners m'
  = listeners_of (surface_of a) s
      ++ [{| trap_first := first; trap_last := List.last rest first |}]
  /\ removeTrap m'
     = Some {| trap_first := first; trap_last := List.last rest first |}.
Proof.
  intros Ht Hm' Hf.
  destruct (open_effect a s Ht) as (m & Hm0 & Hm & _).
  rewrite Hm in Hm'. injection Hm' as <-.
  rewrite trapFocus_focusable in Hf.
  unfold listeners_of. rewrite Hm0.
  apply (trapFocus_installs _ _ _ Hf).
Qed.

(** The demo dialog: close button, "View Code", "Live Demo".  Opening
    focuses the close button; Shift+Tab there wraps to the last link, Tab on
    the last link wraps back, Tab on the close button is left to the
    browser. *)
Example trap_on_demo_dialog :
  let s1 := open (OpenProject Projects.demo_shop) loaded_page in
  let back := {| key_of := Tab; shiftKey := true |} in
  let forth := {| key_of := Tab; shiftKey := false |} in
  option_map focusable (project_modal s1) = Some [1; 100; 101]
  /\ activeElement s1 = Some 1
  /\ activeElement (keydown back s1) = Some 101
  /\ activeElement (keydown forth (keydown back s1)) = Some 1
  /\ wraps forth s1 = 0.
Proof. repeat split. Qed.

Lemma keydown_single_listener (A : surface) (h : closure) (st : State)
  (n : nat) (shift : bool) :
  activeElement st = Some n ->
  container_of st n = Some A ->
  listeners_of A st = [h] ->
  keydown {| key_of := Tab; shiftKey := shift |} st
  = fst (keyHandler h {| key_of := Tab; shiftKey := shift |} st).
Proof.
  intros Hn HA Hl. unfold keydown, bubble_keydown. rewrite Hn, HA, Hl.
  cbn [run_listeners].
  now destruct (keyHandler h {| key_of := Tab; shiftKey := shift |} st).
Qed.

(** C3: the key handler of the trap.  When [open] takes effect and the
    container then has the focusable descendants [first :: rest], the
    listener [trapFocus] installs is the closure over [first] and the last
    element of that list, both attached while the dialog is shown.  On a Tab
    press that closure behaves as follows: with shift held and the focus on
    [first] it prevents the default and focuses [last]; without shift and
    with the focus on [last] it prevents the default and focuses [first];
    on any other Tab press it prevents nothing and changes nothing.  While
    it is the only listener of the dialog holding the focus, a Tab key press
    does to the page exactly what the closure does. *)
Theorem trap_handler_wraps_at_both_ends
  (a : open_arg) (s : State) (m' : modal) (first : nat) (rest : list nat) :
  takes_effect a s ->
  modal_of (surface_of a) (open a s) = Some m' ->
  focusable m' = first :: rest ->
  let last := List.last rest first in
  let h := {| trap_first := first; trap_last := last |} in
  (exists older, keydown_listeners m' = older ++ [h])
  /\ attached (open a s) first = true
  /\ attached (open a s) last = true
  /\ forall st : State,
       (active_is st first = true ->
        keyHandler h {| key_of := Tab; shiftKey := true |} st
        = (focus last st, true))
       /\ (active_is st last = true ->
           keyHandler h {| key_of := Tab; shiftKey := false |} st
           = (focus first st, true))
       /\ (attached st last = true ->
           activeElement (focus last st) = Some last)
       /\ (attached st first = true ->
           activeElement (focus first st) = Some first)
       /\ (active_is st first = false ->
           keyHandler h {| key_of := Tab; shiftKey := true |} st = (st, false))
       /\ (active_is st last = false ->
           keyHandler h {| key_of := Tab; shiftKey := false |} st = (st, false))
       /\ (forall n shift,
             activeElement st = Some n ->
             container_of st n = Some (surface_of a) ->
             listeners_of (surface_of a) st = [h] ->
             keydown {| key_of := Tab; shiftKey := shift |} st
             = fst (keyHandler h {| key_of := Tab; shiftKey := shift |} st)).
Proof.
  intros Ht Hm' Hf last h.
  split.
  { exists (listeners_of (surface_of a) s).
    apply (listeners_of_open a s m' first rest Ht Hm' Hf). }
  assert (Hin : forall n, In n (first :: rest) -> attached (open a s) n = true).
  { intros n Hn. apply (attached_in_modal (surface_of a) _ m' n Hm').
    apply focusable_In. now rewrite Hf. }
  split; [apply Hin; now left|].
  split; [apply Hin, last_In|].
  intros st. unfold keyHandler. cbn [key_of shiftKey trap_first trap_last h].
  repeat split.
  - now intros ->.
  - now intros ->.
  - apply focus_active.
  - apply focus_active.
  - now intros ->.
  - now intros ->.
  - intros n shift. apply keydown_single_listener.
Qed.

Lemma trap_handler_wraps_at_both_ends_witness :
  keyHandler {| trap_first := 1; trap_last := 101 |}
    {| key_of := Tab; shiftKey := true |}
    (open (OpenProject Projects.demo_shop) loaded_page)
  = (focus 101 (open (OpenProject Projects.demo_shop) loaded_page), true)
  /\ keyHandler {| trap_first := 1; trap_last := 101 |}
       {| key_of := Tab; shiftKey := false |}
       (open (OpenProject Projects.demo_shop) loaded_page)
     = (open (OpenProject Projects.demo_shop) loaded_page, false).
Proof.
  assert (Ht : takes_effect (OpenProject Projects.demo_shop) loaded_page)
    by (cbn; split; [discriminate|exact I]).
  destruct (trap_handler_wraps_at_both_ends
              (OpenProject Projects.demo_shop) loaded_page _ 1 [100; 101]
              Ht eq_refl eq_refl) as (_ & _ & _ & H).
  destruct (H (open (OpenProject Projects.demo_shop) loaded_page))
    as (H1 & _ & _ & _ & _ & H2 & _).
  split; [apply H1|apply H2]; reflexivity.
Defined.

Lemma run_listeners_bound (hs : list closure) (e : keyEvent) (s : State) :
  snd (run_listeners hs e s) <= List.length hs.
Proof.
  revert s. induction hs as [|h hs IH]; intros s; cbn [run_listeners].
  - apply Nat.le_refl.
  - destruct (keyHandler h e s) as [s1 p].
    specialize (IH s1). destruct (run_listeners hs e s1) as [s2 k].
    cbn [snd List.length] in *. destruct p; lia.
Qed.

(** C5, as the script behaves: every [open] that takes effect on a
    container with a focusable descendant appends one more trap listener to
    that container, whether or not the surface is already open; one key
    press runs each registered listener of the dialog holding the focus
    once, so the wrapping logic fires at most once per registered listener. *)
Theorem each_open_appends_one_listener
  (a : open_arg) (s : State) (m' : modal) (first : nat) (rest : list nat) :
  takes_effect a s ->
  modal_of (surface_of a) (open a s) = Some m' ->
  focusable m' = first :: rest ->
  listeners_of (surface_of a) (open a s)
  = listeners_of (surface_of a) s
      ++ [{| trap_first := first; trap_last := List.last rest first |}]
  /\ List.length (listeners_of (surface_of a) (open a s))
     = S (List.length (listeners_of (surface_of a) s))
  /\ forall (e : keyEvent) (st : State) (n : nat) (B : surface),
       activeElement st = Some n ->
       container_of st n = Some B ->
       wraps e st <= List.length (listeners_of B st).
Proof.
  intros Ht Hm' Hf.
  destruct (listeners_of_open a s m' first rest Ht Hm' Hf) as [Hl _].
  assert (Hl' : listeners_of (surface_of a) (open a s)
                = listeners_of (surface_of a) s
                    ++ [{| trap_first := first;
                           trap_last := List.last rest first |}])
    by (unfold listeners_of at 1; now rewrite Hm').
  split; [exact Hl'|]. split.
  - rewrite Hl', length_app. cbn. lia.
  - intros e st n B Hn HB. unfold wraps, bubble_keydown. rewrite Hn, HB.
    apply run_listeners_bound.
Qed.

Lemma each_open_appends_one_listener_witness :
  List.length
    (listeners_of ProjectSurface
       (open (OpenProject Projects.demo_shop)
          (open (OpenProject Projects.demo_shop) loaded_page)))
  = 2.
Proof.
  assert (Ht : takes_effect (OpenProject Projects.demo_shop)
                 (open (OpenProject Projects.demo_shop) loaded_page))
    by (cbn; split; [discriminate|exact I]).
  destruct (each_open_appends_one_listener
              (OpenProject Projects.demo_shop)
              (open (OpenProject Projects.demo_shop) loaded_page)
              _ 1 [102; 103] Ht eq_refl eq_refl) as (_ & H & _).
  exact H.
Defined.

(** C5, as written, fails: opening the demo project while its dialog is
    open leaves two trap listeners on the container, and one Shift+Tab on
    the close button then runs the wrapping branch twice. *)
Lemma second_open_installs_second_listener :
  ~ (forall a s,
       takes_effect a s ->
       is_open (surface_of a) s = true ->
       List.length (listeners_of (surface_of a) (open a s))
       <= List.length (listeners_of (surface_of a) s)
       /\ forall shift,
            wraps {| key_of := Tab; shiftKey := shift |} (open a s) <= 1).
Proof.
  intros H.
  assert (Ht : takes_effect (OpenProject Projects.demo_shop)
                 (open (OpenProject Projects.demo_shop) loaded_page))
    by (cbn; split; [discriminate|exact I]).
  destruct (H _ _ Ht eq_refl) as [_ Hw].
  specialize (Hw true). vm_compute in Hw. lia.
Qed.

(** *** The listener outlives the dialog *)

Lemma close_listeners_of (A B : surface) (s : State) :
  listeners_of B (close A s) = listeners_of B s.
Proof.
  unfold listeners_of.
  destruct A, B;
    first [ rewrite (close_modal_of_other ProjectSurface s
                       : modal_of BlogSurface (close ProjectSurface s)
                         = modal_of BlogSurface s); reflexivity
          | rewrite (close_modal_of_other BlogSurface s
                       : modal_of ProjectSurface (close BlogSurface s)
                         = modal_of ProjectSurface s); reflexivity
          | idtac ].
  - destruct (modal_of ProjectSurface s) as [m|] eqn:Hm.
    + now rewrite (close_modal_of_same ProjectSurface s m Hm).
    + now rewrite (close_absent ProjectSurface s Hm), Hm.
  - destruct (modal_of BlogSurface s) as [m|] eqn:Hm.
    + now rewrite (close_modal_of_same BlogSurface s m Hm).
    + now rewrite (close_absent BlogSurface s Hm), Hm.
Qed.

(** C4 at work on the code: [close] leaves the key-down listeners of every
    container as they are, so the trap listener that opening the demo
    project installed on the page's project dialog is still registered
    after the dialog was closed, and each further cycle adds one. *)
Theorem trap_listener_outlives_close :
  (forall A B s, listeners_of B (close A s) = listeners_of B s)
  /\ listeners_of ProjectSurface loaded_page = []
  /\ listeners_of ProjectSurface
       (close ProjectSurface (open (OpenProject Projects.demo_shop) loaded_page))
     = [{| trap_first := 1; trap_last := 101 |}]
  /\ listeners_of ProjectSurface
       (close ProjectSurface
          (open (OpenProject Projects.demo_shop)
             (close ProjectSurface
                (open (OpenProject Projects.demo_shop) loaded_page))))
     = [{| trap_first := 1; trap_last := 101 |};
        {| trap_first := 1; trap_last := 103 |}].
Proof.
  split; [exact close_listeners_of|]. repeat split.
Qed.

(** *** How many dialogs are open *)

Lemma is_open_ext (A : surface) (s t : State) :
  modal_of A s = modal_of A t -> is_open A s = is_open A t.
Proof. unfold is_open. now intros ->. Qed.

Lemma close_keeps_closed (A B : surface) (s : State) :
  is_open B (close A s) = true -> is_open B s = true.
Proof.
  intros H. destruct A, B.
  - now rewrite (is_open_close_same ProjectSurface s) in H.
  - exact (eq_trans (eq_sym (is_open_close_other ProjectSurface s)) H).
  - exact (eq_trans (eq_sym (is_open_close_other BlogSurface s)) H).
  - now rewrite (is_open_close_same BlogSurface s) in H.
Qed.

Lemma keyHandler_modal_of (A : surface) h e s :
  modal_of A (fst (keyHandler h e s)) = modal_of A s.
Proof.
  unfold keyHandler. destruct (key_of e); try reflexivity.
  destruct (shiftKey e && active_is s (trap_first h));
    [apply focus_modal_of|].
  destruct (negb (shiftKey e) && active_is s (trap_last h));
    [apply focus_modal_of|reflexivity].
Qed.

Lemma run_listeners_modal_of (A : surface) hs e s :
  modal_of A (fst (run_listeners hs e s)) = modal_of A s.
Proof.
  revert s. induction hs as [|h hs IH]; intros s; cbn [run_listeners].
  - reflexivity.
  - pose proof (keyHandler_modal_of A h e s) as Hk.
    destruct (keyHandler h e s) as [s1 p].
    specialize (IH s1). destruct (run_listeners hs e s1) as [s2 k].
    cbn [fst] in *. congruence.
Qed.

Lemma bubble_modal_of (A : surface) e s :
  modal_of A (fst (bubble_keydown e s)) = modal_of A s.
Proof.
  unfold bubble_keydown. destruct (activeElement s) as [n|]; [|reflexivity].
  destruct (container_of s n); [|reflexivity].
  apply run_listeners_modal_of.
Qed.

Lemma on_document_keydown_keeps_closed (B : surface) e s :
  is_open B (on_document_keydown e s) = true -> is_open B s = true.
Proof.
  unfold on_document_keydown. destruct (key_of e); try easy.
  intros H.
  assert (H1 : is_open B
                 (if is_open ProjectSurface s then closeProjectModal s else s)
               = true).
  { destruct (is_open BlogSurface
                (if is_open ProjectSurface s then closeProjectModal s else s));
      [apply (close_keeps_closed BlogSurface B _ H)|exact H]. }
  destruct (is_open ProjectSurface s);
    [apply (close_keeps_closed ProjectSurface B _ H1)|exact H1].
Qed.

Lemma fire_aria_hidden m : aria_hidden (fire m) = aria_hidden m.
Proof. unfold fire. now destruct (open_timers m). Qed.

Lemma timer_is_open (A B : surface) s : is_open B (timer A s) = is_open B s.
Proof.
  unfold is_open.
  destruct A, B; cbn [timer modal_of with_project_modal with_blog_modal
                        project_modal blog_modal]; try reflexivity.
  - destruct (project_modal s) as [m|]; [|reflexivity].
    cbn [option_map]. now rewrite fire_aria_hidden.
  - destruct (blog_modal s) as [m|]; [|reflexivity].
    cbn [option_map]. now rewrite fire_aria_hidden.
Qed.

(** Apart from the activation of a card, no event opens a dialog. *)
Lemma step_keeps_closed (ev : event) (B : surface) (s : State) :
  match ev with
  | ActivateProjectCard _ | ActivateBlogCard _ => False
  | _ => True
  end ->
  is_open B (step ev s) = true -> is_open B s = true.
Proof.
  destruct ev as [p|i|e|A|A|n|A]; cbn [step]; intros Hev H; try contradiction.
  - unfold keydown in H. apply on_document_keydown_keeps_closed in H.
    now rewrite (is_open_ext B _ s (bubble_modal_of B e s)) in H.
  - unfold click_backdrop, on_document_click_project, on_document_click_blog in H.
    destruct A.
    + destruct (project_modal s) eqn:Hp.
      * destruct (blog_modal (closeProjectModal s));
          apply (close_keeps_closed ProjectSurface B s H).
      * now destruct (blog_modal s).
    + assert (H' : is_open B
                     match blog_modal s with
                     | Some _ => closeBlogModal s
                     | None => s
                     end = true)
        by (now destruct (project_modal s)).
      destruct (blog_modal s);
        [apply (close_keeps_closed BlogSurface B s H')|exact H'].
  - unfold click_close in H. destruct (modal_of A s) as [m|]; [|exact H].
    destruct (closeBtn m); [apply (close_keeps_closed A B s H)|exact H].
  - now rewrite (is_open_ext B _ s (focus_modal_of B n s)) in H.
  - now rewrite timer_is_open in H.
Qed.

Lemma open_is_open_other (a : open_arg) (s : State) :
  is_open (other (surface_of a)) (open a s) = is_open (other (surface_of a)) s.
Proof. apply is_open_ext, open_modal_of_other. Qed.

Lemma step_keeps_at_most_one (ev : event) (s : State) :
  match ev with
  | ActivateProjectCard _ | ActivateBlogCard _ => none_open s = true
  | _ => True
  end ->
  at_most_one_open s -> at_most_one_open (step ev s).
Proof.
  intros Hev Hs [Hp Hb].
  destruct ev as [p|i|e|A|A|n|A];
    try (apply Hs; split;
         [ eapply step_keeps_closed; [|exact Hp]; exact I
         | eapply step_keeps_closed; [|exact Hb]; exact I ]).
  - cbn [step] in Hb.
    rewrite (open_is_open_other (OpenProject p) s
               : is_open BlogSurface (openProjectModal p s)
                 = is_open BlogSurface s) in Hb.
    unfold none_open in Hev. rewrite Hb in Hev.
    now rewrite andb_false_r in Hev.
  - cbn [step] in Hp.
    rewrite (open_is_open_other (OpenBlog i) s
               : is_open ProjectSurface (openBlogModal i s)
                 = is_open ProjectSurface s) in Hp.
    unfold none_open in Hev. now rewrite Hp in Hev.
Qed.

Lemma run_keeps_at_most_one (evs : list event) (s : State) :
  cards_only_when_closed evs s ->
  at_most_one_open s -> at_most_one_open (run evs s).
Proof.
  revert s. induction evs as [|ev evs IH]; intros s; cbn [run fold_left].
  - intros _ Hs. exact Hs.
  - intros [Hev Hrest] Hs. apply IH; [exact Hrest|].
    now apply step_keeps_at_most_one.
Qed.

(** C1, as the script behaves: neither [open] looks at the other dialog, so
    the bound is kept by the events, not by the code.  From a page with no
    dialog open, every run of user events (card activations, key presses,
    backdrop and close-button clicks, focus moves, timers) in which a card
    is activated only while no dialog is open ends with at most one dialog
    open. *)
Theorem at_most_one_open_when_cards_wait (s0 : State) (evs : list event) :
  none_open s0 = true ->
  cards_only_when_closed evs s0 ->
  at_most_one_open (run evs s0).
Proof.
  intros H0 Hevs. apply run_keeps_at_most_one; [exact Hevs|].
  intros [Hp _]. unfold none_open in H0. now rewrite Hp in H0.
Qed.

Lemma at_most_one_open_when_cards_wait_witness :
  at_most_one_open
    (run [ActivateProjectCard Projects.demo_shop;
          Keydown {| key_of := Escape; shiftKey := false |};
          ActivateBlogCard 2000;
          ClickBackdrop BlogSurface]
       loaded_page).
Proof.
  apply at_most_one_open_when_cards_wait.
  - reflexivity.
  - cbn [cards_only_when_closed]. repeat split.
Defined.

(** C1, as written, fails: on the loaded page, activating a project card
    and then a blog card leaves both dialogs open. *)
Lemma blog_card_opens_second_dialog :
  ~ (forall s0 evs, none_open s0 = true -> at_most_one_open (run evs s0)).
Proof.
  intros H.
  apply (H loaded_page
           [ActivateProjectCard Projects.demo_shop; ActivateBlogCard 2000]
           eq_refl).
  split; reflexivity.
Qed.

End ModalFacts.

(* ------------------------------------------------------------------ *)
(** ** Gallery: filter bar and search together *)

Section GalleryFacts.

Import JsString Projects Gallery.
#[local] Open Scope string_scope.

(** On ASCII text [toLowerCase] maps each character on its own, so it
    goes through a concatenation. *)
Lemma toLowerCase_app (a b : string) :
  ascii_text a = true -> ascii_text b = true ->
  toLowerCase (a ++ b) = toLowerCase a ++ toLowerCase b.
Proof.
  intros _ _. induction a as [|c a IH]; simpl; [reflexivity | now rewrite IH].
Qed.

Lemma string_app_assoc (a b c : string) : (a ++ b) ++ c = a ++ (b ++ c).
Proof. induction a as [|x a IH]; simpl; [reflexivity | now rewrite IH]. Qed.

Lemma trimEnd_app (x y : string) : exists b, trimEnd (x ++ y) = trimEnd x ++ b.
Proof.
  induction x as [|c x IH]; cbn [append trimEnd].
  - now exists (trimEnd y).
  - destruct IH as [b Hb]. rewrite Hb.
    destruct (trimEnd x) as [|d r] eqn:Hx; cbn [append].
    + destruct (is_space c).
      * now eexists.
      * destruct b as [|e b']; [now exists "" | now exists (String e b')].
    + now exists b.
Qed.

(** What is left of a text after trimming stays at the front when more
    text is appended. *)
Lemma trim_app (x y : string) : exists b, trim (x ++ y) = trim x ++ b.
Proof.
  unfold trim. induction x as [|c x IH]; cbn [append trimStart].
  - now exists (trimEnd (trimStart y)).
  - destruct (is_space c); [exact IH|].
    apply (trimEnd_app (String c x) y).
Qed.

Lemma query_app (value more : string) :
  ascii_text value = true -> ascii_text more = true ->
  exists b, query (value ++ more) = query value ++ b.
Proof.
  intros Hv Hm. unfold query. cbn [or_empty].
  rewrite (toLowerCase_app value more Hv Hm). apply trim_app.
Qed.

Lemma substring_of_trans (a b c : string) :
  substring_of a b -> substring_of b c -> substring_of a c.
Proof.
  intros (x & y & ->) (u & v & ->).
  exists (u ++ x), (y ++ v). now rewrite !string_app_assoc.
Qed.

Lemma includes_mono (s q1 q2 : string) :
  substring_of q1 q2 -> includes s q2 = true -> includes s q1 = true.
Proof.
  rewrite !includes_spec. intros H12 H2. now apply substring_of_trans with q2.
Qed.

Lemma matches_mono (q1 q2 : string) (p : project) :
  substring_of q1 q2 -> matches q2 p = true -> matches q1 p = true.
Proof.
  intros H. unfold matches. rewrite !orb_true_iff, !existsb_exists.
  intros [[H2|H2]|(t & Ht & H2)].
  - left; left. now apply includes_mono with q2.
  - left; right. now apply includes_mono with q2.
  - right. exists t. split; [assumption | now apply includes_mono with q2].
Qed.

Lemma filter_filter_mono (A : Type) (f g : A -> bool) (l : list A) :
  (forall x, f x = true -> g x = true) ->
  filter f l = filter f (filter g l).
Proof.
  intros H. induction l as [|x l IH]; simpl; [reflexivity|].
  destruct (f x) eqn:Hf.
  - rewrite (H x Hf). simpl. now rewrite Hf, IH.
  - destruct (g x); simpl; now rewrite ?Hf, IH.
Qed.

(** A query that contains the previous one narrows the result: the handler
    then keeps exactly those projects of the previous result that match the
    new query. *)
Lemma longer_query_narrows (value value' : string) (st : state) :
  substring_of (query value) (query value') ->
  filteredProjects (onSearchInput value' st)
  = filter (matches (query value'))
      (filteredProjects (onSearchInput value st)).
Proof.
  intros Hsub. cbn [onSearchInput filteredProjects].
  apply filter_filter_mono. intros p. now apply matches_mono.
Qed.

(** Typing on narrows the gallery.  When the search box holds ASCII text
    and more ASCII text is typed at its end, the new query begins with the
    previous one, so the handler keeps exactly those projects of the
    previous result that match the longer query: no project comes back.
    (The restriction matters: outside ASCII, [toLowerCase] of JavaScript can
    change a letter according to what follows it, and a project dropped for
    the shorter text can match the longer one.) *)
Theorem typing_on_narrows_the_search (value more : string) (st : state) :
  ascii_text value = true -> ascii_text more = true ->
  (exists rest, query (value ++ more) = query value ++ rest)
  /\ filteredProjects (onSearchInput (value ++ more) st)
     = filter (matches (query (value ++ more)))
         (filteredProjects (onSearchInput value st))
  /\ incl (filteredProjects (onSearchInput (value ++ more) st))
          (filteredProjects (onSearchInput value st)).
Proof.
  intros Hv Hm.
  destruct (query_app value more Hv Hm) as [b Hb].
  assert (Hsub : substring_of (query value) (query (value ++ more)))
    by (exists "", b; now rewrite Hb).
  pose proof (longer_query_narrows value (value ++ more) st Hsub) as Heq.
  split; [now exists b|]. split; [exact Heq|].
  rewrite Heq. intros p Hp. now apply filter_In in Hp.
Qed.

Lemma typing_on_narrows_the_search_witness :
  filteredProjects (onSearchInput ("De" ++ "mo s") demo_state)
  = filter (matches (query ("De" ++ "mo s")))
      (filteredProjects (onSearchInput "De" demo_state)).
Proof.
  destruct (typing_on_narrows_the_search "De" "mo s" demo_state
              eq_refl eq_refl) as (_ & H & _).
  exact H.
Defined.

Lemma starts_with_empty (s : string) : starts_with "" s = true.
Proof. now destruct s. Qed.

Lemma includes_empty (s : string) : includes s "" = true.
Proof. destruct s; cbn [includes]; now rewrite starts_with_empty. Qed.

Lemma matches_empty (p : project) : matches "" p = true.
Proof. unfold matches. now rewrite includes_empty. Qed.

Lemma filter_all (A : Type) (f : A -> bool) (l : list A) :
  (forall x, f x = true) -> filter f l = l.
Proof.
  intros H. induction l as [|x l IH]; simpl; [reflexivity|].
  now rewrite H, IH.
Qed.

Lemma trimStart_blank (s : string) :
  Forall (fun c => is_space c = true) (chars s) -> trimStart s = "".
Proof.
  induction s as [|c s IH]; cbn [chars trimStart]; [reflexivity|].
  intros H. inversion H as [|? ? Hc Hs]; subst. rewrite Hc. now apply IH.
Qed.

Lemma lower_char_space (c : ascii) :
  is_space c = true -> lower_char c = c.
Proof.
  unfold is_space, lower_char, is_upper. intros H.
  destruct ((65 <=? nat_of_ascii c)%nat && (nat_of_ascii c <=? 90)%nat) eqn:E;
    [|reflexivity].
  apply andb_true_iff in E. destruct E as [E1 E2].
  apply Nat.leb_le in E1. apply Nat.leb_le in E2.
  apply orb_true_iff in H. destruct H as [H|H].
  - apply andb_true_iff in H. destruct H as [_ H]. apply Nat.leb_le in H. lia.
  - apply Nat.eqb_eq in H. lia.
Qed.

Lemma toLowerCase_blank (s : string) :
  Forall (fun c => is_space c = true) (chars s) -> toLowerCase s = s.
Proof.
  induction s as [|c s IH]; cbn [chars toLowerCase]; [reflexivity|].
  intros H. inversion H as [|? ? Hc Hs]; subst.
  now rewrite (lower_char_space c Hc), IH.
Qed.

Lemma query_blank (value : string) :
  Forall (fun c => is_space c = true) (chars value) -> query value = "".
Proof.
  intros H. unfold query, trim. cbn [or_empty].
  rewrite (toLowerCase_blank value H), (trimStart_blank value H). reflexivity.
Qed.

(** A blank search box shows the whole pool: when the value typed is empty
    or made of white space only, the handler keeps every project of the
    current filter pool; right after a tag button other than ['all'] was
    clicked, it therefore changes nothing. *)
Theorem blank_search_shows_the_pool (value tag : string) (st : state) :
  Forall (fun c => is_space c = true) (chars value) ->
  filteredProjects (onSearchInput value st) = pool st
  /\ (tag <> "all" ->
      onSearchInput value (toggleFilter tag st) = toggleFilter tag st).
Proof.
  intros Hb.
  assert (Hp : forall st', filteredProjects (onSearchInput value st') = pool st').
  { intros st'. cbn [onSearchInput filteredProjects].
    rewrite (query_blank value Hb). apply filter_all, matches_empty. }
  split; [apply Hp|].
  intros Htag. unfold onSearchInput at 1.
  change (filter (matches (query value)) (pool (toggleFilter tag st)))
    with (filteredProjects (onSearchInput value (toggleFilter tag st))).
  rewrite Hp. unfold toggleFilter, pool.
  destruct (String.eqb (currentFilter st) tag) eqn:E; cbn.
  - reflexivity.
  - apply String.eqb_neq in Htag. now rewrite Htag.
Qed.

Lemma blank_search_shows_the_pool_witness :
  filteredProjects (onSearchInput "  " demo_state) = demoProjects
  /\ onSearchInput "  " (toggleFilter "React" demo_state)
     = toggleFilter "React" demo_state.
Proof.
  destruct (blank_search_shows_the_pool "  " "React" demo_state) as [H1 H2].
  - repeat constructor.
  - split; [exact H1 | apply H2; discriminate].
Defined.

(** *** The filter buttons *)

Lemma set_add_In (t x : string) (set : list string) :
  In x (set_add t set) <-> In x set \/ x = t.
Proof.
  unfold set_add. destruct (array_includes set t) eqn:E.
  - apply array_includes_In in E. split; [auto|]. intros [H| ->]; assumption.
  - rewrite in_app_iff. cbn. intuition congruence.
Qed.

Lemma set_add_NoDup (t : string) (set : list string) :
  NoDup set -> NoDup (set_add t set).
Proof.
  unfold set_add. intros H. destruct (array_includes set t) eqn:E; [exact H|].
  apply NoDup_app; [exact H | repeat constructor; intros [] | ].
  intros x Hx [<-|[]]. apply array_includes_In in Hx. congruence.
Qed.

Lemma add_tags_spec (ts set : list string) :
  (NoDup set -> NoDup (fold_left (fun set t => set_add t set) ts set))
  /\ forall x, In x (fold_left (fun set t => set_add t set) ts set)
               <-> In x set \/ In x ts.
Proof.
  revert set. induction ts as [|t ts IH]; intros set; cbn [fold_left].
  - split; [auto|]. intros x. cbn. tauto.
  - destruct (IH (set_add t set)) as [IH1 IH2]. split.
    + intros H. now apply IH1, set_add_NoDup.
    + intros x. rewrite IH2, set_add_In. cbn. intuition congruence.
Qed.

Lemma collect_from_spec (ps : list project) (set : list string) :
  let collected :=
    fold_left
      (fun set p => fold_left (fun set t => set_add t set) (tags_or_empty p) set)
      ps set in
  (NoDup set -> NoDup collected)
  /\ forall x, In x collected
               <-> In x set \/ exists p, In p ps /\ In x (tags_or_empty p).
Proof.
  revert set. induction ps as [|p ps IH]; intros set; cbn [fold_left].
  - split; [auto|]. intros x. split; [auto|].
    intros [H|(p & Hp & _)]; [assumption|contradiction].
  - destruct (IH (fold_left (fun set t => set_add t set) (tags_or_empty p) set))
      as [IH1 IH2].
    destruct (add_tags_spec (tags_or_empty p) set) as [A1 A2].
    split.
    + intros H. now apply IH1, A1.
    + intros x. cbn zeta in IH2. rewrite IH2, A2. split.
      * intros [[H|H]|(q & Hq & Hx)]; auto.
        -- right. exists p. split; [now left|assumption].
        -- right. exists q. split; [now right|assumption].
      * intros [H|(q & [<-|Hq] & Hx)]; auto.
        right. now exists q.
Qed.

Lemma collect_tags_In (ps : list project) (t : string) :
  In t (collect_tags ps) <-> exists p, In p ps /\ In t (tags_or_empty p).
Proof.
  destruct (collect_from_spec ps []) as [_ H2].
  unfold collect_tags. cbn zeta in H2. rewrite H2.
  split; [intros [H|H]; [contradiction|assumption] | auto].
Qed.

(** The filter bar offers each tag once: [renderFilterTags] creates no two
    buttons with the same text, and a tag has a button exactly when some
    project carries it. *)
Theorem filter_bar_lists_each_tag_once (ps : list project) :
  NoDup (collect_tags ps)
  /\ forall t, In t (collect_tags ps)
               <-> exists p, In p ps /\ In t (tags_or_empty p).
Proof.
  split; [|apply collect_tags_In].
  destruct (collect_from_spec ps []) as [H1 _]. apply H1. constructor.
Qed.

(** No filter button leads to an empty gallery: whatever the current
    filter, clicking the button of a tag leaves at least one project in the
    filtered list. *)
Theorem every_filter_button_shows_a_project (tag : string) (g : gallery) :
  In tag (collect_tags (projects (listing g))) ->
  filteredProjects (listing (clickFilterTag tag g)) <> [].
Proof.
  intros Hin.
  apply collect_tags_In in Hin.
  destruct Hin as (p & Hp & Ht).
  cbn [clickFilterTag listing]. unfold toggleFilter.
  destruct (String.eqb (currentFilter (listing g)) tag);
    cbn [filteredProjects]; intros Hnil.
  - rewrite Hnil in Hp. contradiction.
  - assert (Hf : In p (filter (has_tag tag) (projects (listing g))))
      by (apply filter_In; split; [assumption | now apply has_tag_In]).
    rewrite Hnil in Hf. contradiction.
Qed.

Lemma every_filter_button_shows_a_project_witness :
  filteredProjects (listing (clickFilterTag "Node.js" (loaded demoProjects)))
  <> [].
Proof.
  apply every_filter_button_shows_a_project.
  right; left; reflexivity.
Defined.

Lemma loaded_in_step (ps : list project) : in_step ps (loaded ps).
Proof.
  unfold in_step, loaded. cbn [listing tag_buttons active projects
                               currentFilter filteredProjects].
  split; [reflexivity|]. split; [reflexivity|].
  split; [split; reflexivity|].
  split; [intros t Ht; discriminate Ht|].
  exists "". unfold pool. cbn. symmetry. apply filter_all, matches_empty.
Qed.

Lemma act_in_step (ps : list project) (a : action) (g : gallery) :
  on_a_button g a -> in_step ps g -> in_step ps (act a g).
Proof.
  intros Ha (Hp & Hb & Hnone & Hsome & q & Hq).
  destruct a as [tag|value]; cbn [act on_a_button] in *.
  - destruct Ha as [Hin Hall].
    unfold in_step, clickFilterTag, toggleFilter.
    cbn [listing tag_buttons active].
    destruct (String.eqb (currentFilter (listing g)) tag) eqn:E;
      cbn [projects currentFilter filteredProjects].
    + split; [exact Hp|]. split; [exact Hb|].
      split; [split; reflexivity|].
      split; [intros t Ht; discriminate Ht|].
      exists "". unfold pool. cbn. symmetry. apply filter_all, matches_empty.
    + split; [exact Hp|]. split; [exact Hb|].
      split; [split; [discriminate | intros Ht; contradiction]|].
      split; [intros t Ht; injection Ht as <-; now split|].
      exists "". unfold pool. cbn [currentFilter projects].
      apply String.eqb_neq in Hall. rewrite Hall.
      symmetry. apply filter_all, matches_empty.
  - unfold in_step, typeSearch. cbn [listing tag_buttons active].
    split; [exact Hp|]. split; [exact Hb|].
    split; [exact Hnone|]. split; [exact Hsome|].
    now exists (query value).
Qed.

Lemma run_in_step (ps : list project) (acts : list action) (g : gallery) :
  Forall (on_a_button (loaded ps)) acts ->
  tag_buttons g = collect_tags ps ->
  in_step ps g -> in_step ps (run acts g).
Proof.
  revert g. induction acts as [|a acts IH]; intros g Hall Hb Hg; cbn [run fold_left].
  - exact Hg.
  - inversion Hall as [|? ? Ha Hrest]; subst.
    apply IH; [assumption | now destruct a | ].
    apply act_in_step; [|assumption].
    destruct a; cbn [on_a_button] in *; [|exact I].
    cbn [loaded tag_buttons] in Ha. now rewrite Hb.
Qed.

(** The marked button always names the filter.  From the freshly loaded
    gallery, after any sequence of clicks on tag buttons (none of them named
    ['all']) and of searches: the project list and the buttons are those of
    the start, a button is marked exactly when the filter is not ['all'], the
    marked button is the one of the current filter, and the gallery shows
    the matches of a query within the pool of that filter. *)
Theorem marked_button_names_the_filter (ps : list project) (acts : list action) :
  Forall (on_a_button (loaded ps)) acts ->
  in_step ps (run acts (loaded ps)).
Proof.
  intros Hall. apply run_in_step; [assumption|reflexivity|apply loaded_in_step].
Qed.

Lemma marked_button_names_the_filter_witness :
  in_step demoProjects
    (run [ClickTag "React"; TypeSearch "shop"; ClickTag "Node.js";
          ClickTag "Node.js"]
       (loaded demoProjects)).
Proof.
  apply marked_button_names_the_filter.
  repeat constructor; cbn; auto; discriminate.
Defined.

End GalleryFacts.

(* ------------------------------------------------------------------ *)
(** ** Escaped text *)

Section HtmlFacts.

Import JsString Gallery Html.
#[local] Open Scope string_scope.

Lemma replace_all_app (c : ascii) (by_ a b : string) :
  replace_all c by_ (a ++ b) = replace_all c by_ a ++ replace_all c by_ b.
Proof.
  induction a as [|x a IH]; cbn [append replace_all]; [reflexivity|].
  destruct (Ascii.eqb x c); rewrite IH; [|reflexivity].
  now rewrite string_app_assoc.
Qed.

Lemma escape_text_app (a b : string) :
  escape_text (a ++ b) = escape_text a ++ escape_text b.
Proof. unfold escape_text. now rewrite !replace_all_app. Qed.

Lemma escape_text_char (c : ascii) :
  escape_text (String c "") = escape_char c.
Proof.
  unfold escape_char.
  destruct (Ascii.eqb c amp) eqn:E1; [apply Ascii.eqb_eq in E1; now subst|].
  destruct (Ascii.eqb c lt) eqn:E2; [apply Ascii.eqb_eq in E2; now subst|].
  destruct (Ascii.eqb c gt) eqn:E3; [apply Ascii.eqb_eq in E3; now subst|].
  destruct (Ascii.eqb c quot) eqn:E4; [apply Ascii.eqb_eq in E4; now subst|].
  destruct (Ascii.eqb c apos) eqn:E5; [apply Ascii.eqb_eq in E5; now subst|].
  unfold escape_text. cbn [replace_all].
  rewrite E1. cbn [replace_all]. rewrite E2. cbn [replace_all].
  rewrite E3. cbn [replace_all]. rewrite E4. cbn [replace_all].
  now rewrite E5.
Qed.

Lemma escape_text_cons (c : ascii) (s : string) :
  escape_text (String c s) = escape_char c ++ escape_text s.
Proof.
  change (String c s) with (String c "" ++ s).
  now rewrite escape_text_app, escape_text_char.
Qed.

Lemma escapeHtml_text (s : string) : escapeHtml (Some s) = escape_text s.
Proof. now destruct s. Qed.

Lemma chars_app (a b : string) : chars (a ++ b) = (chars a ++ chars b)%list.
Proof. induction a as [|c a IH]; cbn; [reflexivity | now rewrite IH]. Qed.

Lemma escape_char_clean (c : ascii) :
  Forall (fun x => markup x = false) (chars (escape_char c)).
Proof.
  unfold escape_char.
  destruct (Ascii.eqb c amp) eqn:E1; [repeat constructor|].
  destruct (Ascii.eqb c lt) eqn:E2; [repeat constructor|].
  destruct (Ascii.eqb c gt) eqn:E3; [repeat constructor|].
  destruct (Ascii.eqb c quot) eqn:E4; [repeat constructor|].
  destruct (Ascii.eqb c apos) eqn:E5; [repeat constructor|].
  repeat constructor. unfold markup. now rewrite E2, E3, E4, E5.
Qed.

Lemma escape_char_plain (c : ascii) :
  Ascii.eqb c amp = false -> markup c = false -> escape_char c = String c "".
Proof.
  unfold markup, escape_char. intros -> H.
  apply orb_false_iff in H. destruct H as [H ->].
  apply orb_false_iff in H. destruct H as [H ->].
  apply orb_false_iff in H. destruct H as [-> ->]. reflexivity.
Qed.

Lemma escapeHtml_no_markup (s : option string) :
  Forall (fun x => markup x = false) (chars (escapeHtml s)).
Proof.
  destruct s as [t|]; [|constructor].
  rewrite escapeHtml_text. induction t as [|c t IH]; [constructor|].
  rewrite escape_text_cons, chars_app. apply Forall_app.
  split; [apply escape_char_clean | exact IH].
Qed.

(** Escaped text carries no markup.  The result of [escapeHtml] contains
    none of the characters [<], [>], double quote and apostrophe, whatever
    the text; and a text that has none of them and no [&] comes back as it
    is. *)
Theorem escaped_text_has_no_markup (s : option string) :
  Forall (fun x => markup x = false) (chars (escapeHtml s))
  /\ (forall t, s = Some t ->
        Forall (fun x => Ascii.eqb x amp = false /\ markup x = false) (chars t) ->
        escapeHtml s = t).
Proof.
  split; [apply escapeHtml_no_markup|].
  intros t -> Ht. rewrite escapeHtml_text.
  induction t as [|c t IH]; [reflexivity|].
  cbn [chars] in Ht. inversion Ht as [|? ? [Ha Hm] Hrest]; subst.
  rewrite escape_text_cons, (escape_char_plain c Ha Hm), (IH Hrest).
  reflexivity.
Qed.

Lemma escaped_text_has_no_markup_witness :
  escapeHtml (Some "Step away to debug") = "Step away to debug".
Proof.
  apply (proj2 (escaped_text_has_no_markup (Some "Step away to debug"))
               "Step away to debug" eq_refl).
  repeat constructor.
Defined.

Lemma decode_escape_char (c : ascii) (t : string) :
  decode_from 0 (escape_char c ++ t) = String c (decode_from 0 t).
Proof.
  unfold escape_char.
  destruct (Ascii.eqb c amp) eqn:E1; [apply Ascii.eqb_eq in E1; now subst|].
  destruct (Ascii.eqb c lt) eqn:E2; [apply Ascii.eqb_eq in E2; now subst|].
  destruct (Ascii.eqb c gt) eqn:E3; [apply Ascii.eqb_eq in E3; now subst|].
  destruct (Ascii.eqb c quot) eqn:E4; [apply Ascii.eqb_eq in E4; now subst|].
  destruct (Ascii.eqb c apos) eqn:E5; [apply Ascii.eqb_eq in E5; now subst|].
  cbn [append decode_from starts_with].
  assert (Hc : Ascii.eqb "&" c = false)
    by (rewrite Ascii.eqb_sym; exact E1).
  now rewrite Hc.
Qed.

(** Escaping loses nothing.  Reading the character references of
    [escapeHtml(s)] back gives the text [s], so two different texts never
    have the same escaped form. *)
Theorem escaped_text_reads_back (s t : string) :
  decode_entities (escapeHtml (Some s)) = s
  /\ (escapeHtml (Some s) = escapeHtml (Some t) -> s = t).
Proof.
  assert (H : forall u, decode_entities (escapeHtml (Some u)) = u).
  { intros u. rewrite escapeHtml_text. unfold decode_entities.
    induction u as [|c u IH]; [reflexivity|].
    now rewrite escape_text_cons, decode_escape_char, IH. }
  split; [apply H|].
  intros E. rewrite <- (H s), <- (H t). now rewrite E.
Qed.

Lemma escaped_text_reads_back_witness :
  decode_entities (escapeHtml (Some "a < b && 'c'")) = "a < b && 'c'".
Proof. apply (escaped_text_reads_back "a < b && 'c'" ""). Defined.

End HtmlFacts.

(* ------------------------------------------------------------------ *)
(** ** Posts *)

Section PostFacts.

Import JsString Likes Posts.
#[local] Open Scope string_scope.

Lemma map_update_found_on (A B : Type) (f : A -> bool) (h : A -> A)
  (v : A -> B) (l : list A) :
  (forall x, f x = true -> v (h x) = v x) ->
  map v (update_found f h l) = map v l.
Proof.
  intros Hv. induction l as [|x r IH]; simpl; [reflexivity|].
  destruct (f x) eqn:Hx; simpl; [now rewrite Hv | now rewrite IH].
Qed.

Lemma visitor_apply (o : op) (s : site) :
  is_admin s = false ->
  is_admin (apply o s) = false
  /\ map authored (posts (data (apply o s))) = map authored (posts (data s)).
Proof.
  intros Hv.
  destruct o as [text|now today|i|i answer|i confirmed]; cbn [apply].
  - unfold typeContent. destruct (post_content s); now split.
  - unfold addPost. rewrite Hv. now split.
  - unfold likePost. cbn [is_admin with_data data]. split; [assumption|].
    unfold Likes.likePost. destruct (find (has_id i) (posts (data s)));
      [|reflexivity].
    cbn [posts]. now apply map_update_found_on.
  - unfold editPost. rewrite Hv. now split.
  - unfold deletePost. rewrite Hv. now split.
Qed.

(** A visitor cannot rewrite the posts.  While the admin flag is not set,
    no sequence of handler calls (adding, editing, deleting, liking, typing)
    changes which posts there are, their order, ids, texts or dates; the only
    thing a visitor changes is the like counters. *)
Theorem visitor_changes_only_likes (ops : list op) (s : site) :
  is_admin s = false ->
  is_admin (run ops s) = false
  /\ map authored (posts (data (run ops s))) = map authored (posts (data s)).
Proof.
  revert s. induction ops as [|o ops IH]; intros s Hv; cbn [run fold_left].
  - now split.
  - destruct (visitor_apply o s Hv) as [Hv' Hm].
    destruct (IH (apply o s) Hv') as [H1 H2].
    split; [exact H1 | now rewrite <- Hm].
Qed.

Lemma visitor_changes_only_likes_witness :
  map authored
    (posts (data (run [AddPost 6000 6000; LikePost 3000;
                       EditPost 3000 (Some "x"); DeletePost 2000 true]
                    visitor_page)))
  = map authored (seedPosts 5000).
Proof.
  apply (visitor_changes_only_likes
           [AddPost 6000 6000; LikePost 3000; EditPost 3000 (Some "x");
            DeletePost 2000 true] visitor_page eq_refl).
Defined.

(** *** Deleting and adding *)

Lemma filter_idem (A : Type) (f : A -> bool) (l : list A) :
  filter f (filter f l) = filter f l.
Proof.
  induction l as [|x l IH]; cbn; [reflexivity|].
  destruct (f x) eqn:E; cbn; [now rewrite E, IH | exact IH].
Qed.

Lemma find_filtered_out (i : Z) (l : list post) :
  find (has_id i) (filter (fun x => negb (has_id i x)) l) = None.
Proof.
  apply find_absent. intros x Hx. apply filter_In in Hx.
  destruct Hx as [_ Hx]. now apply negb_true_iff in Hx.
Qed.

(** Deleting is thorough and final.  When the admin confirms, [deletePost]
    keeps exactly the posts with another id, in their order, and saves the
    list; afterwards no post has that id, so liking or editing it does
    nothing, and deleting it again changes nothing. *)
Theorem deleted_post_is_gone (i : Z) (answer : option string) (s : site) :
  is_admin s = true ->
  let s' := deletePost i true s in
  posts (data s') = filter (fun x => negb (has_id i x)) (posts (data s))
  /\ stored_posts (data s') = Some (posts (data s'))
  /\ (forall p, In p (posts (data s')) -> post_id p <> i /\ In p (posts (data s)))
  /\ likePost i s' = s'
  /\ editPost i answer s' = s'
  /\ deletePost i true s' = s'.
Proof.
  intros Ha s'.
  assert (Hs' : s' = with_data
                       (save (filter (fun x => negb (has_id i x))
                                (posts (data s)))) s)
    by (unfold s', deletePost; now rewrite Ha).
  assert (Hf : find (has_id i) (posts (data s')) = None)
    by (rewrite Hs'; apply find_filtered_out).
  split; [now rewrite Hs'|]. split; [now rewrite Hs'|]. split.
  { intros p Hp. rewrite Hs' in Hp. cbn in Hp. apply filter_In in Hp.
    destruct Hp as [Hin Hp]. split; [|assumption].
    apply negb_true_iff in Hp. now apply Z.eqb_neq in Hp. }
  split.
  { unfold likePost, Likes.likePost. rewrite Hf. now destruct s'. }
  split.
  { unfold editPost. rewrite Hf.
    replace (is_admin s') with true by (now rewrite Hs'). reflexivity. }
  unfold deletePost.
  replace (is_admin s') with true by (now rewrite Hs').
  cbn [negb]. rewrite Hs'. unfold with_data, save. cbn [data posts].
  now rewrite filter_idem.
Qed.

Lemma deleted_post_is_gone_witness :
  posts (data (deletePost 1000 true admin_page))
  = filter (fun x => negb (has_id 1000 x)) (posts two_posts)
  /\ likePost 1000 (deletePost 1000 true admin_page)
     = deletePost 1000 true admin_page.
Proof.
  destruct (deleted_post_is_gone 1000 None admin_page eq_refl)
    as (H1 & _ & _ & H2 & _).
  split; [exact H1 | exact H2].
Defined.

Lemma truthy_content (c : string) : truthy (Some c) = false <-> c = "".
Proof. destruct c; cbn; split; congruence. Qed.

Lemma filter_all_In (A : Type) (f : A -> bool) (l : list A) :
  (forall x, In x l -> f x = true) -> filter f l = l.
Proof.
  induction l as [|x l IH]; cbn; intros H; [reflexivity|].
  rewrite (H x (or_introl eq_refl)), IH; [reflexivity|].
  intros y Hy. apply H. now right.
Qed.

(** Adding a post.  For the admin with text area content [text]: if the
    text is blank the list is left alone and a message is shown; otherwise
    the trimmed text becomes a new post at the head of the list, with no
    likes, the list is saved and the text area emptied; and if no post had
    the new id, deleting that id gives back the list as it was. *)
Theorem added_post_heads_the_list (now today : Z) (text : string) (s : site) :
  is_admin s = true ->
  post_content s = Some text ->
  (trim text = "" -> addPost now today s = alert "Please write something." s)
  /\ (trim text <> "" ->
      posts (data (addPost now today s))
      = {| post_id := now; content := trim text; date := today;
           likes := Some 0%Z; liked := Some false |} :: posts (data s)
      /\ stored_posts (data (addPost now today s))
         = Some (posts (data (addPost now today s)))
      /\ post_content (addPost now today s) = Some ""
      /\ alerts (addPost now today s) = alerts s
      /\ ((forall p, In p (posts (data s)) -> post_id p <> now) ->
          posts (data (deletePost now true (addPost now today s)))
          = posts (data s))).
Proof.
  intros Ha Hc. unfold addPost. rewrite Ha, Hc. cbn [negb].
  split.
  - intros Hb. rewrite Hb. reflexivity.
  - intros Hb. destruct (truthy (Some (trim text))) eqn:Ht;
      [|apply truthy_content in Ht; contradiction].
    cbn [negb]. cbn zeta. cbn [data posts stored_posts save post_content alerts].
    split; [reflexivity|]. split; [reflexivity|].
    split; [reflexivity|]. split; [reflexivity|].
    intros Hfresh. unfold deletePost.
    cbn [is_admin negb with_data data save posts].
    cbn [negb filter]. unfold has_id at 1. cbn [post_id].
    rewrite Z.eqb_refl. cbn [negb].
    apply filter_all_In. intros x Hx. apply negb_true_iff, Z.eqb_neq.
    now apply Hfresh.
Qed.

Lemma added_post_heads_the_list_witness :
  posts (data (deletePost 3000 true (addPost 3000 3001 admin_page)))
  = posts (data admin_page).
Proof.
  destruct (added_post_heads_the_list 3000 3001 "  new post " admin_page
              eq_refl eq_refl) as [_ H].
  destruct H as (_ & _ & _ & _ & H); [discriminate|].
  apply H. intros p [<-|[<-|[]]]; discriminate.
Defined.

(** *** What is saved *)

Lemma apply_saved (now : Z) (o : op) (s : site) :
  stored_posts (data s) = Some (posts (data s))
  \/ (stored_posts (data s) = None /\ posts (data s) = seedPosts now) ->
  stored_posts (data (apply o s)) = Some (posts (data (apply o s)))
  \/ (stored_posts (data (apply o s)) = None
      /\ posts (data (apply o s)) = seedPosts now).
Proof.
  intros H.
  destruct o as [text|n t|i|i answer|i confirmed]; cbn [apply].
  - unfold typeContent. now destruct (post_content s).
  - unfold addPost. destruct (negb (is_admin s)); [exact H|].
    destruct (post_content s) as [v|]; [|exact H].
    destruct (negb (truthy (Some (trim v)))); [exact H | now left].
  - unfold likePost, Likes.likePost. cbn [data with_data].
    destruct (find (has_id i) (posts (data s))); [now left | exact H].
  - unfold editPost. destruct (negb (is_admin s)); [exact H|].
    destruct (find (has_id i) (posts (data s))); [|exact H].
    destruct answer; [now left | exact H].
  - unfold deletePost. destruct (negb (is_admin s)); [exact H|].
    destruct confirmed; [now left | exact H].
Qed.

Lemma run_saved (now : Z) (ops : list op) (s : site) :
  stored_posts (data s) = Some (posts (data s))
  \/ (stored_posts (data s) = None /\ posts (data s) = seedPosts now) ->
  stored_posts (data (run ops s)) = Some (posts (data (run ops s)))
  \/ (stored_posts (data (run ops s)) = None
      /\ posts (data (run ops s)) = seedPosts now).
Proof.
  revert s. induction ops as [|o ops IH]; intros s Hs; cbn [run fold_left];
    [exact Hs | apply IH, apply_saved, Hs].
Qed.

Lemma apply_keeps_stored (o : op) (s : site) :
  stored_posts (data s) <> None -> stored_posts (data (apply o s)) <> None.
Proof.
  intros Hs.
  destruct o as [text|n t|i|i answer|i confirmed]; cbn [apply].
  - unfold typeContent. destruct (post_content s); exact Hs.
  - unfold addPost. destruct (negb (is_admin s)); [exact Hs|].
    destruct (post_content s) as [v|]; [|exact Hs].
    destruct (negb (truthy (Some (trim v)))); [exact Hs | discriminate].
  - unfold likePost, Likes.likePost. cbn [data with_data].
    destruct (find (has_id i) (posts (data s))); [discriminate | exact Hs].
  - unfold editPost. destruct (negb (is_admin s)); [exact Hs|].
    destruct (find (has_id i) (posts (data s))); [|exact Hs].
    destruct answer; [discriminate | exact Hs].
  - unfold deletePost. destruct (negb (is_admin s)); [exact Hs|].
    destruct confirmed; [discriminate | exact Hs].
Qed.

Lemma run_keeps_stored (ops : list op) (s : site) :
  stored_posts (data s) <> None -> stored_posts (data (run ops s)) <> None.
Proof.
  revert s. induction ops as [|o ops IH]; intros s Hs; cbn [run fold_left];
    [exact Hs | apply IH, apply_keeps_stored, Hs].
Qed.

(** A reload shows what was saved last.  After [initPosts] and any sequence
    of handler calls, either the list on the page is the list in local
    storage, so that loading the page again shows the same posts; or nothing
    was ever saved, and the page still shows the seed posts of this load. *)
Theorem reload_shows_the_saved_posts (now later : Z) (ops : list op) (s0 : site) :
  (stored_posts (data (run ops (initPosts now s0))) <> None ->
   posts (data (initPosts later (run ops (initPosts now s0))))
   = posts (data (run ops (initPosts now s0))))
  /\ (stored_posts (data (run ops (initPosts now s0))) = None ->
      stored_posts (data s0) = None
      /\ posts (data (run ops (initPosts now s0))) = seedPosts now).
Proof.
  assert (H0 : stored_posts (data (initPosts now s0))
               = Some (posts (data (initPosts now s0)))
               \/ (stored_posts (data (initPosts now s0)) = None
                   /\ posts (data (initPosts now s0)) = seedPosts now)).
  { unfold initPosts. cbn [data with_data posts stored_posts].
    destruct (stored_posts (data s0)); [now left | now right]. }
  pose proof (run_saved now ops (initPosts now s0) H0) as Hinv. split.
  - intros Hst. unfold initPosts at 1. cbn [data with_data posts].
    destruct Hinv as [-> | [Hn _]]; [reflexivity | contradiction].
  - intros Hn. destruct Hinv as [Hsome | [_ Hseed]]; [congruence|].
    split; [|exact Hseed].
    destruct (stored_posts (data s0)) as [l|] eqn:E; [|reflexivity].
    exfalso. apply (run_keeps_stored ops (initPosts now s0)); [|exact Hn].
    unfold initPosts. cbn [data with_data stored_posts]. now rewrite E.
Qed.

Lemma reload_shows_the_saved_posts_witness :
  posts (data (initPosts 9000 (run [LikePost 3000] visitor_page)))
  = posts (data (run [LikePost 3000] visitor_page)).
Proof.
  apply (reload_shows_the_saved_posts 5000 9000 [LikePost 3000]
           {| data := {| posts := []; stored_posts := None |};
              is_admin := false; post_content := Some "hello";
              alerts := [] |}).
  discriminate.
Defined.

Lemma insert_by_date_perm (p : post) (l : list post) :
  Permutation (insert_by_date p l) (p :: l).
Proof.
  induction l as [|q r IH]; cbn; [reflexivity|].
  destruct (date q <=? date p)%Z; [reflexivity|].
  rewrite IH. apply perm_swap.
Qed.

Lemma sort_by_date_perm (l : list post) : Permutation (sort_by_date l) l.
Proof.
  induction l as [|p r IH]; cbn; [reflexivity|].
  rewrite insert_by_date_perm. now constructor.
Qed.

(** *** The like counters stay sane *)

Lemma like_sane (p : post) : sane p -> sane (like p).
Proof.
  unfold sane, like. cbn [likes liked]. unfold toggled. cbn [fst snd flag].
  rewrite count_Some. intros [H0 H1].
  destruct (flag (liked p)); cbn [negb].
  - specialize (H1 eq_refl). split; [lia | discriminate].
  - split; [lia | intros _; lia].
Qed.

Lemma Forall_update_found (A : Type) (P : A -> Prop) (f : A -> bool)
  (h : A -> A) (l : list A) :
  (forall x, P x -> P (h x)) -> Forall P l -> Forall P (update_found f h l).
Proof.
  intros Hh Hl. induction Hl as [|x r Hx Hr IH]; cbn; [constructor|].
  destruct (f x); constructor; auto.
Qed.

Lemma Forall_filter (A : Type) (P : A -> Prop) (f : A -> bool) (l : list A) :
  Forall P l -> Forall P (filter f l).
Proof.
  intros Hl. induction Hl as [|x r Hx Hr IH]; cbn; [constructor|].
  destruct (f x); [constructor|]; assumption.
Qed.

Lemma apply_sane (o : op) (s : site) :
  Forall sane (posts (data s)) -> Forall sane (posts (data (apply o s))).
Proof.
  intros H.
  destruct o as [text|n t|i|i answer|i confirmed]; cbn [apply].
  - unfold typeContent. destruct (post_content s); exact H.
  - unfold addPost. destruct (negb (is_admin s)); [exact H|].
    destruct (post_content s) as [v|]; [|exact H].
    destruct (negb (truthy (Some (trim v)))); [exact H|].
    cbn [data save posts]. constructor; [|exact H].
    split; cbn; [lia | discriminate].
  - unfold likePost, Likes.likePost. cbn [data with_data].
    destruct (find (has_id i) (posts (data s))); [|exact H].
    cbn [posts]. apply Forall_update_found; [apply like_sane | exact H].
  - unfold editPost. destruct (negb (is_admin s)); [exact H|].
    destruct (find (has_id i) (posts (data s))); [|exact H].
    destruct answer; [|exact H].
    cbn [data with_data save posts].
    apply Forall_update_found; [|exact H]. now intros x Hx.
  - unfold deletePost. destruct (negb (is_admin s)); [exact H|].
    destruct confirmed; [|exact H].
    cbn [data with_data save posts]. now apply Forall_filter.
Qed.

(** No like counter goes below zero.  If the posts found in local storage
    (if any) have sane counters, that is, not negative and at least one
    where the visitor's own like is recorded, then after [initPosts] and any
    sequence of handler calls every post still has a sane counter; in
    particular the number shown on a like button is never negative. *)
Theorem like_counters_stay_sane (now : Z) (ops : list op) (s0 : site) :
  (forall l, stored_posts (data s0) = Some l -> Forall sane l) ->
  Forall sane (posts (data (run ops (initPosts now s0))))
  /\ Forall (fun c => (0 <= card_likes c)%Z)
       (renderPosts (run ops (initPosts now s0))).
Proof.
  intros Hst.
  assert (H0 : Forall sane (posts (data (initPosts now s0)))).
  { unfold initPosts. cbn [data with_data posts].
    destruct (stored_posts (data s0)) as [l|]; [now apply Hst|].
    repeat constructor; cbn; try lia; discriminate. }
  assert (H : Forall sane (posts (data (run ops (initPosts now s0))))).
  { generalize dependent (initPosts now s0). clear.
    induction ops as [|o ops IH]; intros s Hs; cbn [run fold_left];
      [exact Hs | apply IH, apply_sane, Hs]. }
  split; [exact H|].
  unfold renderPosts. apply Forall_map.
  assert (Hsort : forall l, Forall sane l -> Forall sane (sort_by_date l)).
  { intros l. apply Permutation_Forall. symmetry. apply sort_by_date_perm. }
  apply Hsort in H. revert H. apply Forall_impl. now intros p [Hp _].
Qed.

Lemma like_counters_stay_sane_witness :
  Forall sane
    (posts (data (run [LikePost 3000; LikePost 3000; LikePost 2000]
                    visitor_page))).
Proof.
  apply (like_counters_stay_sane 5000
           [LikePost 3000; LikePost 3000; LikePost 2000]
           {| data := {| posts := []; stored_posts := None |};
              is_admin := false; post_content := Some "hello";
              alerts := [] |}).
  discriminate.
Defined.

(** *** Rendering *)

Lemma insert_by_date_sorted (p : post) (l : list post) :
  StronglySorted newer_first l -> StronglySorted newer_first (insert_by_date p l).
Proof.
  intros Hl. induction Hl as [|q r Hr IH Hq]; cbn.
  - repeat constructor.
  - destruct (Z.leb_spec (date q) (date p)) as [Hle|Hgt].
    + constructor; [now constructor|].
      constructor; [exact Hle|].
      revert Hq. apply Forall_impl. unfold newer_first. intros x Hx. lia.
    + constructor; [exact IH|].
      rewrite insert_by_date_perm. constructor; [unfold newer_first; lia|exact Hq].
Qed.

Lemma sort_by_date_sorted (l : list post) :
  StronglySorted newer_first (sort_by_date l).
Proof.
  induction l as [|p r IH]; cbn; [constructor | now apply insert_by_date_sorted].
Qed.

Lemma insert_by_date_same_day (d : Z) (p : post) (l : list post) :
  filter (fun x => (date x =? d)%Z) (insert_by_date p l)
  = filter (fun x => (date x =? d)%Z) (p :: l).
Proof.
  induction l as [|q r IH]; [reflexivity|].
  cbn [insert_by_date].
  destruct (Z.leb_spec (date q) (date p)) as [Hle|Hgt]; [reflexivity|].
  cbn [filter] in *. rewrite IH.
  destruct (Z.eqb_spec (date q) d) as [Hq|Hq];
    destruct (Z.eqb_spec (date p) d) as [Hp|Hp]; try reflexivity.
  lia.
Qed.

Lemma sort_by_date_same_day (d : Z) (l : list post) :
  filter (fun x => (date x =? d)%Z) (sort_by_date l)
  = filter (fun x => (date x =? d)%Z) l.
Proof.
  induction l as [|p r IH]; [reflexivity|].
  cbn [sort_by_date]. rewrite insert_by_date_same_day. cbn [filter].
  now rewrite IH.
Qed.

(** The posts are shown newest first.  [renderPosts] makes one card per
    post: the cards are the posts in another order, no card is above a card
    with a later date, posts of the same instant keep the order of the
    list, the edit and delete buttons are there exactly for the admin, and
    no card text contains markup characters. *)
Theorem posts_are_shown_newest_first (s : site) :
  Permutation (renderPosts s) (map (card_of (is_admin s)) (posts (data s)))
  /\ StronglySorted (fun a b => (card_date b <= card_date a)%Z) (renderPosts s)
  /\ (forall d,
        filter (fun c => (card_date c =? d)%Z) (renderPosts s)
        = map (card_of (is_admin s))
            (filter (fun p => (date p =? d)%Z) (posts (data s))))
  /\ Forall (fun c => card_controls c = is_admin s
                      /\ Forall (fun x => Html.markup x = false)
                           (Gallery.chars (card_text c)))
       (renderPosts s).
Proof.
  unfold renderPosts. split; [|split; [|split]].
  - apply Permutation_map, sort_by_date_perm.
  - pose proof (sort_by_date_sorted (posts (data s))) as H.
    induction H as [|p r Hr IH Hp]; cbn [map]; constructor; [exact IH|].
    apply Forall_map. exact Hp.
  - intros d. rewrite <- (sort_by_date_same_day d (posts (data s))).
    induction (sort_by_date (posts (data s))) as [|p r IH]; [reflexivity|].
    cbn [map filter card_of card_date].
    destruct (date p =? d)%Z; cbn [map]; now rewrite IH.
  - apply Forall_map. apply Forall_forall. intros p _.
    split; [reflexivity|]. cbn [card_text card_of].
    apply escapeHtml_no_markup.
Qed.

End PostFacts.

(* ------------------------------------------------------------------ *)
(** ** Blogs and their dialog *)

Section BlogFacts.

Import JsString Modal Blogs.
#[local] Open Scope string_scope.

Lemma tracks_dialog_side (v w : State) :
  blog_side w = blog_side v -> tracks_dialog v -> tracks_dialog w.
Proof.
  unfold blog_side, tracks_dialog. intros [= Ho Hc Hb _]. now rewrite Ho, Hc, Hb.
Qed.

Lemma focus_blog_side n v : blog_side (focus n v) = blog_side v.
Proof.
  unfold blog_side, focus. destruct (attached v n); reflexivity.
Qed.

Lemma restore_focus_blog_side v : blog_side (restore_focus v) = blog_side v.
Proof.
  unfold restore_focus. destruct (lastFocused v); [apply focus_blog_side|reflexivity].
Qed.

Lemma focus_closeBtn_blog_side m v :
  blog_side (focus_closeBtn m v) = blog_side v.
Proof.
  unfold focus_closeBtn. destruct (closeBtn m); [apply focus_blog_side|reflexivity].
Qed.

Lemma keyHandler_blog_side h e v :
  blog_side (fst (keyHandler h e v)) = blog_side v.
Proof.
  unfold keyHandler. destruct (key_of e); try reflexivity.
  destruct (shiftKey e && active_is v (trap_first h)); [apply focus_blog_side|].
  destruct (negb (shiftKey e) && active_is v (trap_last h));
    [apply focus_blog_side|reflexivity].
Qed.

Lemma run_listeners_blog_side hs e v :
  blog_side (fst (run_listeners hs e v)) = blog_side v.
Proof.
  revert v. induction hs as [|h hs IH]; intros v; cbn [run_listeners].
  - reflexivity.
  - pose proof (keyHandler_blog_side h e v) as Hk.
    destruct (keyHandler h e v) as [v1 p].
    specialize (IH v1). destruct (run_listeners hs e v1) as [v2 k].
    cbn [fst] in *. congruence.
Qed.

Lemma bubble_blog_side e v :
  blog_side (fst (bubble_keydown e v)) = blog_side v.
Proof.
  unfold bubble_keydown. destruct (activeElement v) as [n|]; [|reflexivity].
  destruct (container_of v n); [|reflexivity].
  apply run_listeners_blog_side.
Qed.

Lemma openProjectModal_blog_side p v :
  blog_side (openProjectModal p v) = blog_side v.
Proof.
  unfold openProjectModal. destruct (project_modal v) as [m|]; [|reflexivity].
  destruct (body m); [|reflexivity].
  cbn [next_node with_lastFocused].
  destruct (render_project p (next_node v)) as [c n].
  unfold blog_side, is_open.
  cbn [modal_of blog_modal currentBlogId blogs admin with_project_modal].
  pose proof (focus_closeBtn_blog_side (show c m)
                (with_body_overflow overflow_hidden
                   (with_next_node n
                      (with_project_modal (Some (show c m))
                         (with_lastFocused (activeElement v) v))))) as H.
  unfold blog_side, is_open in H. cbn [modal_of] in H. exact H.
Qed.

Lemma closeProjectModal_blog_side v :
  blog_side (closeProjectModal v) = blog_side v.
Proof.
  unfold closeProjectModal. destruct (project_modal v) as [m|]; [|reflexivity].
  now rewrite restore_focus_blog_side.
Qed.

Lemma timer_blog_side A v : blog_side (timer A v) = blog_side v.
Proof.
  unfold blog_side. rewrite timer_is_open. now destruct A.
Qed.

Lemma with_blogs_side l st v :
  blog_side (with_blogs l st v)
  = (is_open BlogSurface v, currentBlogId v, l, admin v).
Proof. reflexivity. Qed.

(** What [closeBlogModal] leaves of the blog side. *)
Lemma closeBlogModal_side v :
  blog_modal v <> None ->
  blog_side (closeBlogModal v) = (false, None, blogs v, admin v).
Proof.
  intros Hm. unfold closeBlogModal. destruct (blog_modal v) as [m|]; [|congruence].
  now rewrite restore_focus_blog_side.
Qed.

Lemma closeBlogModal_tracks v : tracks_dialog v -> tracks_dialog (closeBlogModal v).
Proof.
  intros H. destruct (blog_modal v) as [m|] eqn:Hm.
  - assert (Hs : blog_side (closeBlogModal v) = (false, None, blogs v, admin v))
      by (apply closeBlogModal_side; congruence).
    unfold blog_side in Hs. injection Hs as Ho Hc Hb _.
    unfold tracks_dialog. rewrite Ho, Hc. split; [tauto|discriminate].
  - unfold closeBlogModal. now rewrite Hm.
Qed.

Lemma find_blog_exists i l b :
  find (blog_has_id i) l = Some b -> In b l /\ blog_id b = i.
Proof.
  intros H. apply find_some in H. destruct H as [Hin H].
  split; [assumption | now apply Z.eqb_eq].
Qed.

Lemma openBlogModal_tracks i v : tracks_dialog v -> tracks_dialog (openBlogModal i v).
Proof.
  intros H. unfold openBlogModal.
  destruct (blog_modal v) as [m|] eqn:Hm; [|exact H].
  destruct (body m) as [c0|] eqn:Hb; [|exact H].
  destruct (find (blog_has_id i) (blogs v)) as [b|] eqn:Hf; [|exact H].
  cbn [next_node admin with_lastFocused with_currentBlogId].
  destruct (render_blog (admin v) (next_node v)) as [c n].
  set (t := with_body_overflow _ _).
  pose proof (focus_closeBtn_blog_side (show c m) t) as Hs.
  unfold blog_side in Hs. injection Hs as _ Hc Hl _.
  unfold tracks_dialog, is_open.
  cbn [modal_of blog_modal currentBlogId blogs with_blog_modal].
  rewrite trapFocus_aria_hidden. cbn [aria_hidden show].
  rewrite Hc, Hl. subst t. cbn [currentBlogId blogs with_body_overflow
    with_next_node with_blog_modal with_lastFocused with_currentBlogId].
  split; [split; discriminate|].
  intros j [= <-]. exists b. now apply find_blog_exists.
Qed.

Lemma likeBlog_tracks i v :
  tracks_dialog v -> tracks_dialog (Modal.likeBlog i v).
Proof.
  intros [H1 H2]. unfold Modal.likeBlog.
  destruct (find (blog_has_id i) (blogs v)) as [found|]; [|now split].
  split; [exact H1|]. intros j Hj. cbn [currentBlogId with_blogs] in Hj.
  destruct (H2 j Hj) as (b & Hb & Hid). cbn [blogs with_blogs].
  assert (Hm : map blog_id (Likes.update_found (blog_has_id i) like_blog (blogs v))
               = map blog_id (blogs v))
    by (now apply map_update_found).
  assert (Hin : In j (map blog_id (blogs v)))
    by (rewrite <- Hid; now apply in_map).
  rewrite <- Hm in Hin. apply in_map_iff in Hin.
  destruct Hin as (b' & Hb' & Hin). now exists b'.
Qed.

Lemma step_tracks ev v : tracks_dialog v -> tracks_dialog (step ev v).
Proof.
  intros H. destruct ev as [p|i|e|A|A|n|A]; cbn [step].
  - apply (tracks_dialog_side v); [apply openProjectModal_blog_side|exact H].
  - now apply openBlogModal_tracks.
  - unfold keydown.
    assert (H1 : tracks_dialog (fst (bubble_keydown e v)))
      by (apply (tracks_dialog_side v); [apply bubble_blog_side|exact H]).
    revert H1. generalize (fst (bubble_keydown e v)). intros w Hw.
    unfold on_document_keydown. destruct (key_of e); try exact Hw.
    assert (H2 : tracks_dialog
                   (if is_open ProjectSurface w then closeProjectModal w else w)).
    { destruct (is_open ProjectSurface w); [|exact Hw].
      apply (tracks_dialog_side w); [apply closeProjectModal_blog_side|exact Hw]. }
    destruct (is_open BlogSurface _); [now apply closeBlogModal_tracks|exact H2].
  - unfold click_backdrop, on_document_click_project, on_document_click_blog.
    destruct A.
    + assert (H1 : tracks_dialog
                     match project_modal v with
                     | Some _ => closeProjectModal v
                     | None => v
                     end).
      { destruct (project_modal v); [|exact H].
        apply (tracks_dialog_side v); [apply closeProjectModal_blog_side|exact H]. }
      now destruct (blog_modal _).
    + assert (Hv : match project_modal v with Some _ => v | None => v end = v)
        by (now destruct (project_modal v)).
      rewrite Hv. destruct (blog_modal v); [now apply closeBlogModal_tracks|exact H].
  - unfold click_close. destruct (modal_of A v) as [m|]; [|exact H].
    destruct (closeBtn m); [|exact H].
    destruct A; cbn [close].
    + apply (tracks_dialog_side v); [apply closeProjectModal_blog_side|exact H].
    + now apply closeBlogModal_tracks.
  - apply (tracks_dialog_side v); [apply focus_blog_side|exact H].
  - apply (tracks_dialog_side v); [apply timer_blog_side|exact H].
Qed.

(** [renderBlogs] rebuilds page nodes only. *)
Lemma renderBlogs_side (s : site) :
  blog_side (view (renderBlogs s)) = blog_side (view s).
Proof. unfold renderBlogs. now destruct (blogs_container s). Qed.

Lemma renderBlogs_tracks (s : site) :
  tracks_dialog (view s) -> tracks_dialog (view (renderBlogs s)).
Proof. apply tracks_dialog_side, renderBlogs_side. Qed.

Lemma renderBlogs_fields (s : site) :
  blogs (view (renderBlogs s)) = blogs (view s)
  /\ admin (view (renderBlogs s)) = admin (view s)
  /\ currentBlogId (view (renderBlogs s)) = currentBlogId (view s)
  /\ blog_modal (view (renderBlogs s)) = blog_modal (view s)
  /\ project_modal (view (renderBlogs s)) = project_modal (view s)
  /\ lastFocused (view (renderBlogs s)) = lastFocused (view s)
  /\ body_overflow (view (renderBlogs s)) = body_overflow (view s).
Proof. unfold renderBlogs. now destruct (blogs_container s). Qed.

Lemma update_found_tracks (g : blog -> blog) i (v : State) :
  (forall b, blog_id (g b) = blog_id b) ->
  tracks_dialog v ->
  tracks_dialog
    (with_blogs (Likes.update_found (blog_has_id i) g (blogs v))
       (Some (Likes.update_found (blog_has_id i) g (blogs v))) v).
Proof.
  intros Hg [H1 H2]. split; [exact H1|].
  intros j Hj. destruct (H2 j Hj) as (b & Hb & Hid).
  cbn [blogs with_blogs].
  assert (Hm : map blog_id (Likes.update_found (blog_has_id i) g (blogs v))
               = map blog_id (blogs v))
    by (now apply map_update_found).
  assert (Hin : In j (map blog_id (blogs v)))
    by (rewrite <- Hid; now apply in_map).
  rewrite <- Hm in Hin. apply in_map_iff in Hin.
  destruct Hin as (b' & Hb' & Hin). now exists b'.
Qed.

Lemma act_tracks (a : action) (s : site) :
  tracks_dialog (view s) -> tracks_dialog (view (act a s)).
Proof.
  intros H. destruct a as [ev|i|t c|now today|i t c|i confirmed]; cbn [act].
  - now apply step_tracks.
  - unfold Blogs.likeBlog.
    destruct (find (blog_has_id i) (blogs (view s))) as [found|]; [|exact H].
    apply renderBlogs_tracks. cbn [view with_view]. now apply likeBlog_tracks.
  - exact H.
  - unfold addBlog. destruct (negb (admin (view s))); [exact H|].
    destruct (blog_title_input s) as [tv|]; [|exact H].
    destruct (blog_content_input s) as [cv|]; [|exact H].
    destruct (negb (truthy (Some (trim tv)))); [exact H|].
    destruct (negb (truthy (Some (trim cv)))); [exact H|].
    cbn [view]. apply renderBlogs_tracks. cbn [view with_view].
    destruct H as [H1 H2]. split; [exact H1|].
    intros j Hj. destruct (H2 j Hj) as (b & Hb & Hid).
    exists b. split; [now right | exact Hid].
  - unfold editBlog. destruct (negb (admin (view s))); [exact H|].
    destruct (find (blog_has_id i) (blogs (view s))) as [found|]; [|exact H].
    destruct t as [t|]; [|exact H]. destruct c as [c|]; [|exact H].
    cbn [view with_view].
    set (l := Likes.update_found (blog_has_id i) (revise t c) (blogs (view s))).
    set (s1 := renderBlogs _).
    assert (Hv : tracks_dialog (view s1)).
    { apply renderBlogs_tracks. cbn [view with_view].
      now apply update_found_tracks. }
    destruct (is_current i _); [now apply openBlogModal_tracks | exact Hv].
  - unfold deleteBlog. destruct (negb (admin (view s))); [exact H|].
    destruct confirmed; [|exact H].
    cbn [view with_view].
    set (l := filter (fun x => negb (blog_has_id i x)) (blogs (view s))).
    set (s1 := renderBlogs _).
    destruct (renderBlogs_fields
                (with_view (with_blogs l (Some l) (view s)) s))
      as (Hb1 & _ & Hc1 & Hm1 & _).
    fold s1 in Hb1, Hc1, Hm1. cbn [view with_view blogs currentBlogId
                                   blog_modal with_blogs] in Hb1, Hc1, Hm1.
    assert (Ho1 : is_open BlogSurface (view s1) = is_open BlogSurface (view s))
      by (unfold is_open; cbn [modal_of]; now rewrite Hm1).
    destruct H as [H1 H2].
    destruct (is_current i (view s1)) eqn:Hc.
    + unfold is_current in Hc. rewrite Hc1 in Hc.
      destruct (currentBlogId (view s)) as [c|] eqn:Hcur; [|discriminate].
      assert (Hm : blog_modal (view s1) <> None).
      { rewrite Hm1.
        destruct (is_open BlogSurface (view s)) eqn:Ho.
        - destruct (is_open_present BlogSurface _ Ho) as [m Hm].
          cbn [modal_of] in Hm. congruence.
        - destruct H1 as [_ H1]. specialize (H1 eq_refl). discriminate. }
      pose proof (closeBlogModal_side _ Hm) as Hs.
      unfold blog_side in Hs. injection Hs as Ho Hcc Hb _.
      unfold tracks_dialog. rewrite Ho, Hcc. split; [tauto|discriminate].
    + unfold tracks_dialog. rewrite Hc1, Ho1, Hb1. split; [exact H1|].
      intros j Hj.
      destruct (H2 j Hj) as (b & Hb & Hid). exists b. split; [|exact Hid].
      apply filter_In. split; [exact Hb|].
      unfold is_current in Hc. rewrite Hc1, Hj in Hc.
      unfold blog_has_id. now rewrite Hid, Hc.
Qed.

(** The recorded blog id follows the dialog.  If [state.currentBlogId] is
    set exactly while the blog dialog is open and names a blog of the list
    (as on a freshly loaded page, where it is unset and the dialog closed),
    this stays so under every sequence of user events (cards, keys, clicks,
    timers) and blog handler calls (like, add, edit, delete): the id is never
    left behind by a closed dialog nor by a deleted blog. *)
Theorem current_blog_follows_the_dialog (acts : list action) (s : site) :
  tracks_dialog (view s) -> tracks_dialog (view (run acts s)).
Proof.
  revert s. induction acts as [|a acts IH]; intros s H; cbn [run fold_left];
    [exact H | apply IH, act_tracks, H].
Qed.

Lemma current_blog_follows_the_dialog_witness :
  tracks_dialog
    (view (run [User (ActivateBlogCard 2000); Like 2000;
                Edit 2000 (Some "New title") (Some "");
                Delete 2000 true; User (ActivateBlogCard 3000)]
             (loaded_site true))).
Proof.
  apply current_blog_follows_the_dialog.
  split; [split; reflexivity | discriminate].
Defined.

Lemma mem_seq (n start len : nat) :
  n < start -> mem n (seq start len) = false.
Proof.
  intros Hn. destruct (mem n (seq start len)) eqn:E; [|reflexivity].
  apply mem_In, in_seq in E. lia.
Qed.

Lemma container_of_none (v : State) (e : nat) :
  container_of v e = None ->
  mem e (nodes_of (project_modal v)) = false
  /\ mem e (nodes_of (blog_modal v)) = false.
Proof.
  unfold container_of.
  destruct (mem e (nodes_of (project_modal v))); [discriminate|].
  destruct (mem e (nodes_of (blog_modal v))); [discriminate|now split].
Qed.

Lemma mem_app (n : nat) (l1 l2 : list nat) :
  mem n (l1 ++ l2) = mem n l1 || mem n l2.
Proof. unfold mem. apply existsb_app. Qed.

Lemma mem_filter_out (n : nat) (old l : list nat) :
  mem n old = true ->
  mem n (filter (fun k => negb (mem k old)) l) = false.
Proof.
  intros Ho. destruct (mem n (filter _ l)) eqn:E; [|reflexivity].
  apply mem_In, filter_In in E. destruct E as [_ E].
  now rewrite Ho in E.
Qed.

(** A node of the container that the dialogs do not hold and that was
    created before is not attached once [renderBlogs] has run. *)
Lemma renderBlogs_detaches (s : site) (old : list nat) (e : nat) :
  blogs_container s = Some old -> In e old ->
  container_of (view s) e = None -> e < next_node (view s) ->
  attached (view (renderBlogs s)) e = false
  /\ activeElement (view (renderBlogs s))
     = surviving_focus old (activeElement (view s)).
Proof.
  intros Hc Hin Hout Hlt. unfold renderBlogs. rewrite Hc.
  cbn [view]. split; [|reflexivity].
  destruct (container_of_none _ _ Hout) as [Hp Hb].
  unfold attached.
  cbn [page project_modal blog_modal with_next_node with_activeElement
       with_page].
  rewrite !mem_app, Hp, Hb.
  rewrite (mem_filter_out e old (page (view s))) by (now apply mem_In).
  unfold render_cards. now rewrite (mem_seq e _ _ Hlt).
Qed.

Lemma surviving_focus_not (old : list nat) (a : option nat) (e : nat) :
  In e old -> surviving_focus old a <> Some e.
Proof.
  intros Hin. unfold surviving_focus. destruct a as [n|]; [|discriminate].
  destruct (mem n old) eqn:E; [discriminate|].
  intros [= ->]. apply mem_In in Hin. congruence.
Qed.

(** Deleting the blog on display closes its dialog and does not give the
    focus back to the card.  When the admin confirms the deletion of the
    blog the dialog is showing, the list is saved without it, the cards are
    built anew, and the dialog is closed: the recorded id is cleared, the
    dialog hidden and the page scroll unlocked.  If the dialog had been
    opened from a node [e] of the blog list (a card or its like button),
    that node is gone with the old cards, so [closeBlogModal] cannot focus
    it: [e] is not attached any more and the focus is where the removal of
    the old cards left it, never on [e].  Deleting any other blog leaves
    the dialog and the recorded id as they are.  Either way no blog with
    the deleted id is left. *)
Theorem deleting_the_shown_blog_closes_the_dialog (i : Z) (s : site) :
  admin (view s) = true ->
  tracks_dialog (view s) ->
  let s' := deleteBlog i true s in
  (forall b, In b (blogs (view s')) -> blog_id b <> i)
  /\ stored_blogs (view s') = Some (blogs (view s'))
  /\ (currentBlogId (view s) = Some i ->
      currentBlogId (view s') = None
      /\ is_open BlogSurface (view s') = false
      /\ option_map style_display (blog_modal (view s')) = Some display_none
      /\ body_overflow (view s') = overflow_unset
      /\ forall old e,
           blogs_container s = Some old ->
           lastFocused (view s) = Some e -> In e old ->
           container_of (view s) e = None -> e < next_node (view s) ->
           attached (view s') e = false
           /\ activeElement (view s')
              = surviving_focus old (activeElement (view s))
           /\ activeElement (view s') <> Some e)
  /\ (currentBlogId (view s) <> Some i ->
      currentBlogId (view s') = currentBlogId (view s)
      /\ blog_modal (view s') = blog_modal (view s)).
Proof.
  intros Ha [H1 H2]. cbn zeta. unfold deleteBlog. rewrite Ha. cbn [negb].
  set (l := filter (fun x => negb (blog_has_id i x)) (blogs (view s))).
  set (s0 := with_view (with_blogs l (Some l) (view s)) s).
  set (s1 := renderBlogs s0).
  cbn [view with_view].
  destruct (renderBlogs_fields s0)
    as (Hb1 & _ & Hc1 & Hm1 & _ & Hl1 & _).
  fold s1 in Hb1, Hc1, Hm1, Hl1.
  cbn [s0 view with_view blogs currentBlogId blog_modal lastFocused
       with_blogs] in Hb1, Hc1, Hm1, Hl1.
  assert (Hst1 : stored_blogs (view s1) = Some l)
    by (unfold s1, renderBlogs; now destruct (blogs_container s0)).
  assert (Hl : forall b, In b l -> blog_id b <> i).
  { intros b Hb. apply filter_In in Hb. destruct Hb as [_ Hb].
    apply negb_true_iff in Hb. now apply Z.eqb_neq in Hb. }
  assert (Hkeep : blogs (if is_current i (view s1) then closeBlogModal (view s1)
                         else view s1) = l
                  /\ stored_blogs (if is_current i (view s1)
                                   then closeBlogModal (view s1)
                                   else view s1) = Some l).
  { destruct (is_current i (view s1)); [|now split].
    unfold closeBlogModal. destruct (blog_modal (view s1)); [|now split].
    unfold restore_focus. cbn [lastFocused with_body_overflow with_blog_modal
                                with_currentBlogId].
    destruct (lastFocused (view s1)) as [n|]; [|now split].
    unfold focus. destruct (attached _ n); now split. }
  destruct Hkeep as [Hblogs Hstored].
  split; [now rewrite Hblogs|].
  split; [now rewrite Hstored, Hblogs|]. split.
  - intros Hc.
    assert (Hcur : is_current i (view s1) = true)
      by (unfold is_current; rewrite Hc1, Hc; apply Z.eqb_refl).
    rewrite Hcur.
    assert (Ho : is_open BlogSurface (view s) = true).
    { destruct (is_open BlogSurface (view s)) eqn:Ho; [reflexivity|].
      destruct H1 as [_ H1]. specialize (H1 eq_refl). congruence. }
    destruct (is_open_present BlogSurface _ Ho) as [m Hm].
    assert (Hmv : modal_of BlogSurface (view s1) = Some m)
      by (cbn [modal_of] in *; congruence).
    split; [|split; [|split; [|split]]].
    + pose proof (closeBlogModal_side (view s1)) as Hs.
      unfold blog_side in Hs.
      assert (Hne : blog_modal (view s1) <> None)
        by (cbn [modal_of] in Hmv; congruence).
      specialize (Hs Hne). now injection Hs as _ Hcc _ _.
    + apply (is_open_close_same BlogSurface (view s1)).
    + pose proof (close_modal_of_same BlogSurface (view s1) m Hmv) as Hh.
      cbn [modal_of close] in Hh. now rewrite Hh.
    + apply (close_body_overflow BlogSurface (view s1) m Hmv).
    + intros old e Hcont Hlast Hin Hout Hlt.
      destruct (renderBlogs_detaches s0 old e Hcont Hin Hout Hlt)
        as [Hdet Hact].
      fold s1 in Hdet, Hact. cbn [s0 view with_view activeElement with_blogs]
        in Hact.
      assert (Hfocus : activeElement (closeBlogModal (view s1))
                       = activeElement (view s1)).
      { apply (close_focus_detached BlogSurface (view s1) m e Hmv);
          [congruence | exact Hdet]. }
      split; [|split].
      * rewrite (close_attached BlogSurface (view s1) e
                 : attached (closeBlogModal (view s1)) e = _).
        exact Hdet.
      * now rewrite Hfocus.
      * rewrite Hfocus, Hact. now apply surviving_focus_not.
  - intros Hc.
    assert (Hcur : is_current i (view s1) = false).
    { unfold is_current. rewrite Hc1.
      destruct (currentBlogId (view s)) as [c|]; [|reflexivity].
      apply Z.eqb_neq. congruence. }
    rewrite Hcur. now split.
Qed.

Lemma deleting_the_shown_blog_closes_the_dialog_witness :
  let s := run [User (MoveFocus 100); User (ActivateBlogCard 2000)]
             (loaded_site true) in
  lastFocused (view s) = Some 100
  /\ currentBlogId (view (deleteBlog 2000 true s)) = None
  /\ attached (view (deleteBlog 2000 true s)) 100 = false
  /\ activeElement (view (deleteBlog 2000 true s)) = Some 2.
Proof.
  cbn zeta.
  destruct (deleting_the_shown_blog_closes_the_dialog 2000
              (run [User (MoveFocus 100); User (ActivateBlogCard 2000)]
                 (loaded_site true)))
    as (_ & _ & H & _).
  - reflexivity.
  - split; [split; discriminate|]. intros j Hj. injection Hj as <-.
    eexists. split; [left; reflexivity|reflexivity].
  - destruct (H eq_refl) as (Hc & _ & _ & _ & Hf).
    destruct (Hf [100; 101; 102; 103] 100 eq_refl eq_refl) as (Hd & Hact & _).
    + now left.
    + reflexivity.
    + cbn. lia.
    + split; [reflexivity|]. split; [exact Hc|]. split; [exact Hd|exact Hact].
Defined.

(** *** Visitors and the blog list *)

Lemma closeBlogModal_keeps v :
  blogs (closeBlogModal v) = blogs v /\ admin (closeBlogModal v) = admin v.
Proof.
  unfold closeBlogModal. destruct (blog_modal v) as [m|]; [|now split].
  pose proof (restore_focus_blog_side
                (with_body_overflow overflow_unset
                   (with_blog_modal (Some (hide m))
                      (with_currentBlogId None v)))) as Hs.
  unfold blog_side in Hs. injection Hs as _ _ Hb Ha. now split.
Qed.

Lemma openBlogModal_keeps i v :
  blogs (openBlogModal i v) = blogs v /\ admin (openBlogModal i v) = admin v.
Proof.
  unfold openBlogModal.
  destruct (blog_modal v) as [m|]; [|now split].
  destruct (body m); [|now split].
  destruct (find (blog_has_id i) (blogs v)); [|now split].
  cbn [next_node admin with_lastFocused with_currentBlogId].
  destruct (render_blog (admin v) (next_node v)) as [c n].
  set (t := with_body_overflow _ _).
  pose proof (focus_closeBtn_blog_side (show c m) t) as Hs.
  unfold blog_side in Hs. injection Hs as _ _ Hb Ha.
  cbn [blogs admin with_blog_modal]. now split.
Qed.

Lemma side_keeps (v w : State) :
  blog_side w = blog_side v -> blogs w = blogs v /\ admin w = admin v.
Proof. unfold blog_side. intros [= _ _ Hb Ha]. now split. Qed.

Lemma step_keeps_blogs ev v :
  blogs (step ev v) = blogs v /\ admin (step ev v) = admin v.
Proof.
  destruct ev as [p|i|e|A|A|n|A]; cbn [step].
  - apply side_keeps, openProjectModal_blog_side.
  - apply openBlogModal_keeps.
  - unfold keydown.
    destruct (side_keeps v _ (bubble_blog_side e v)) as [Hb Ha].
    rewrite <- Hb, <- Ha. generalize (fst (bubble_keydown e v)). intros w.
    unfold on_document_keydown. destruct (key_of e); try now split.
    assert (H1 : blogs (if is_open ProjectSurface w then closeProjectModal w
                        else w) = blogs w
                 /\ admin (if is_open ProjectSurface w then closeProjectModal w
                           else w) = admin w).
    { destruct (is_open ProjectSurface w); [|now split].
      apply side_keeps, closeProjectModal_blog_side. }
    destruct H1 as [H1 H2]. rewrite <- H1, <- H2.
    destruct (is_open BlogSurface _); [apply closeBlogModal_keeps | now split].
  - unfold click_backdrop, on_document_click_project, on_document_click_blog.
    destruct A.
    + assert (H1 : blogs match project_modal v with
                         | Some _ => closeProjectModal v
                         | None => v
                         end = blogs v
                   /\ admin match project_modal v with
                            | Some _ => closeProjectModal v
                            | None => v
                            end = admin v).
      { destruct (project_modal v); [|now split].
        apply side_keeps, closeProjectModal_blog_side. }
      now destruct (blog_modal _).
    + assert (Hv : match project_modal v with Some _ => v | None => v end = v)
        by (now destruct (project_modal v)).
      rewrite Hv. destruct (blog_modal v); [apply closeBlogModal_keeps|now split].
  - unfold click_close. destruct (modal_of A v) as [m|]; [|now split].
    destruct (closeBtn m); [|now split].
    destruct A; cbn [close].
    + apply side_keeps, closeProjectModal_blog_side.
    + apply closeBlogModal_keeps.
  - apply side_keeps, focus_blog_side.
  - apply side_keeps, timer_blog_side.
Qed.

Lemma visitor_act (a : action) (s : site) :
  admin (view s) = false ->
  admin (view (act a s)) = false
  /\ map authored (blogs (view (act a s))) = map authored (blogs (view s)).
Proof.
  intros Hv. destruct a as [ev|i|t c|now today|i t c|i confirmed]; cbn [act].
  - cbn [view with_view]. destruct (step_keeps_blogs ev (view s)) as [Hb Ha].
    now rewrite Hb, Ha.
  - unfold Blogs.likeBlog.
    destruct (find (blog_has_id i) (blogs (view s))) as [found|] eqn:Hf;
      [|now split].
    destruct (renderBlogs_fields (with_view (Modal.likeBlog i (view s)) s))
      as (Hb & Ha & _).
    rewrite Hb, Ha. cbn [view with_view]. unfold Modal.likeBlog. rewrite Hf.
    cbn [admin blogs with_blogs]. split; [exact Hv|].
    now apply map_update_found_on.
  - now split.
  - unfold addBlog. rewrite Hv. now split.
  - unfold editBlog. rewrite Hv. now split.
  - unfold deleteBlog. rewrite Hv. now split.
Qed.

(** A visitor cannot rewrite the blog.  While the admin flag is not set, no
    sequence of user events and handler calls changes which blogs there
    are, their order, ids, titles, texts or dates, and none sets the flag;
    the only thing a visitor changes is the like counters. *)
Theorem visitor_changes_only_blog_likes (acts : list action) (s : site) :
  admin (view s) = false ->
  admin (view (run acts s)) = false
  /\ map authored (blogs (view (run acts s))) = map authored (blogs (view s)).
Proof.
  revert s. induction acts as [|a acts IH]; intros s Hv; cbn [run fold_left].
  - now split.
  - destruct (visitor_act a s Hv) as [Hv' Hm].
    destruct (IH (act a s) Hv') as [H1 H2].
    split; [exact H1 | now rewrite <- Hm].
Qed.

Lemma visitor_changes_only_blog_likes_witness :
  map authored
    (blogs (view (run [User (ActivateBlogCard 2000); Like 2000;
                       Edit 2000 (Some "x") (Some "y"); Delete 3000 true;
                       Add 7000 7000]
                    (loaded_site false))))
  = map authored (seedBlogs 5000).
Proof.
  apply (visitor_changes_only_blog_likes
           [User (ActivateBlogCard 2000); Like 2000;
            Edit 2000 (Some "x") (Some "y"); Delete 3000 true; Add 7000 7000]
           (loaded_site false) eq_refl).
Defined.

End BlogFacts.

(* ------------------------------------------------------------------ *)
(** ** Admin mode *)

Section AdminFacts.

Import Admin.
#[local] Open Scope string_scope.

Lemma updateAdminUI_keys (s : session) :
  stored_pass (updateAdminUI s) = stored_pass s
  /\ stored_auth (updateAdminUI s) = stored_auth s.
Proof. unfold updateAdminUI. now destruct (isAdmin s). Qed.

Lemma truthy_nonempty (v : option string) :
  JsString.truthy v = true <-> exists pw, v = Some pw /\ pw <> "".
Proof.
  destruct v as [[|c r]|]; cbn; split; try discriminate.
  - intros (pw & [= <-] & H). congruence.
  - intros _. eexists. split; [reflexivity|discriminate].
  - reflexivity.
  - intros (pw & H & _). discriminate.
Qed.

Lemma click_keeps_password (a : answers) (s : session) (pw : string) :
  stored_pass s = Some pw -> pw <> "" ->
  stored_pass (onAdminClick a s) = Some pw.
Proof.
  intros Hp Hne.
  assert (Ht : JsString.truthy (stored_pass s) = true)
    by (apply truthy_nonempty; now exists pw).
  unfold onAdminClick. rewrite Ht. cbn [negb].
  destruct (isAdmin s).
  - destruct (confirm_logout a); [|exact Hp].
    cbn [alert stored_pass]. unfold setAdminAuthenticated.
    now rewrite (proj1 (updateAdminUI_keys _)).
  - destruct (negb (JsString.truthy (attempt a))); [exact Hp|].
    destruct (same_answer (attempt a) (stored_pass s)); [|exact Hp].
    cbn [alert stored_pass]. unfold setAdminAuthenticated.
    now rewrite (proj1 (updateAdminUI_keys _)).
Qed.

Lemma wrong_click_stays_out (a : answers) (s : session) (pw : string) :
  stored_pass s = Some pw -> pw <> "" ->
  isAdmin s = false -> attempt a <> Some pw ->
  isAdmin (onAdminClick a s) = false.
Proof.
  intros Hp Hne Hv Ha.
  assert (Ht : JsString.truthy (stored_pass s) = true)
    by (apply truthy_nonempty; now exists pw).
  unfold onAdminClick. rewrite Hv, Ht. cbn [negb].
  destruct (negb (JsString.truthy (attempt a))); [exact Hv|].
  destruct (same_answer (attempt a) (stored_pass s)) eqn:E; [|exact Hv].
  exfalso. apply Ha. rewrite Hp in E. unfold same_answer in E.
  destruct (attempt a) as [x|]; [|discriminate].
  apply String.eqb_eq in E. now subst.
Qed.

(** The password guards admin mode.  Once a non-empty password is stored,
    no click on the admin button changes it, whatever is answered; and
    while nobody is logged in, clicks whose password attempts all differ from
    it never switch admin mode on. *)
Theorem password_guards_admin_mode (l : list answers) (s : session) (pw : string) :
  stored_pass s = Some pw -> pw <> "" ->
  stored_pass (clicks l s) = Some pw
  /\ (isAdmin s = false ->
      Forall (fun a => attempt a <> Some pw) l ->
      isAdmin (clicks l s) = false).
Proof.
  revert s. induction l as [|a l IH]; intros s Hp Hne; cbn [clicks fold_left].
  - now split.
  - pose proof (click_keeps_password a s pw Hp Hne) as Hp'.
    destruct (IH (onAdminClick a s) Hp' Hne) as [H1 H2].
    split; [exact H1|]. intros Hv Hall.
    inversion Hall as [|? ? Ha Hrest]; subst.
    apply H2; [|exact Hrest].
    now apply (wrong_click_stays_out a s pw).
Qed.

Lemma password_guards_admin_mode_witness :
  isAdmin (clicks [guess "admin"; guess "1234"; guess ""] (locked "s3cret"))
  = false.
Proof.
  apply (password_guards_admin_mode
           [guess "admin"; guess "1234"; guess ""] (locked "s3cret") "s3cret"
           eq_refl).
  - discriminate.
  - reflexivity.
  - repeat constructor; discriminate.
Defined.

Lemma updateAdminUI_in_sync (s : session) : in_sync (updateAdminUI s).
Proof.
  unfold in_sync, updateAdminUI.
  destruct (isAdmin s) eqn:E; unfold isAdmin in *; cbn [stored_auth admin_panel
    button_label]; rewrite E; (split; [|reflexivity]);
    intros p Hp; destruct (admin_panel s); cbn in Hp; congruence.
Qed.

Lemma alert_in_sync (msg : string) (s : session) :
  in_sync s -> in_sync (alert msg s).
Proof. intros H. exact H. Qed.

Lemma click_in_sync (a : answers) (s : session) :
  in_sync s -> in_sync (onAdminClick a s).
Proof.
  intros H. unfold onAdminClick.
  destruct (isAdmin s).
  - destruct (confirm_logout a); [|exact H].
    apply alert_in_sync, updateAdminUI_in_sync.
  - destruct (negb (JsString.truthy (stored_pass s))).
    + destruct (negb (JsString.truthy (new_password a))); [exact H|].
      destruct (negb (same_answer (new_password a) (new_password_again a)));
        [exact H | apply updateAdminUI_in_sync].
    + destruct (negb (JsString.truthy (attempt a))); [exact H|].
      destruct (same_answer (attempt a) (stored_pass s)); [|exact H].
      apply alert_in_sync, updateAdminUI_in_sync.
Qed.

(** The admin panel shows the mode.  After [updateAdminUI] has run once (as
    [initAdmin] does), and then after any clicks on the admin button, the
    panel is displayed and exposed exactly in admin mode, hidden and marked
    ['aria-hidden'] otherwise, and the button reads "Admin (Logout)" exactly
    in admin mode. *)
Theorem admin_panel_shows_the_mode (l : list answers) (s : session) :
  in_sync (clicks l (updateAdminUI s)).
Proof.
  generalize (updateAdminUI_in_sync s). generalize (updateAdminUI s).
  induction l as [|a l IH]; intros t Ht; cbn [clicks fold_left];
    [exact Ht | apply IH, click_in_sync, Ht].
Qed.

End AdminFacts.

(* ------------------------------------------------------------------ *)
(** ** Theme *)

Section ThemeFacts.

Import Theme.
#[local] Open Scope string_scope.

Lemma applyTheme_shown (t : string) (s : state) :
  shown (applyTheme t (with_theme t s)).
Proof.
  unfold shown, applyTheme, with_theme. cbn [data_theme theme icon_class].
  split; [reflexivity|]. intros c Hc.
  destruct (icon_class s); cbn in Hc; congruence.
Qed.

Lemma step_shown (e : event) (s : state) : shown s -> shown (step e s).
Proof.
  intros H. destruct e as [|d]; cbn [step].
  - unfold toggleTheme. cbn zeta.
    exact (applyTheme_shown
             (if String.eqb (theme s) "light" then "dark" else "light") s).
  - unfold onSystemChange. destruct (negb (JsString.truthy (saved_theme s)));
      [apply applyTheme_shown | exact H].
Qed.

(** The page always shows the current theme.  After [initTheme] and any
    sequence of toggles and system-preference changes, the ['data-theme']
    attribute is [state.theme] and the toggle icon is the sun exactly under
    the dark theme. *)
Theorem page_shows_the_theme (prefers_dark : bool) (es : list event) (s : state) :
  shown (run es (initTheme prefers_dark s)).
Proof.
  assert (H : shown (initTheme prefers_dark s))
    by (unfold initTheme; apply applyTheme_shown).
  revert H. generalize (initTheme prefers_dark s).
  induction es as [|e es IH]; intros t Ht; cbn [run fold_left];
    [exact Ht | apply IH, step_shown, Ht].
Qed.

Lemma toggleTheme_chosen (s : state) : chosen (toggleTheme s).
Proof.
  unfold chosen, toggleTheme. cbn.
  destruct (String.eqb (theme s) "light"); split; auto.
Qed.

Lemma chosen_truthy (s : state) :
  chosen s -> JsString.truthy (saved_theme s) = true.
Proof. intros [-> [-> | ->]]; reflexivity. Qed.

Lemma step_chosen (e : event) (s : state) :
  chosen s ->
  chosen (step e s)
  /\ match e with
     | Toggle => theme (step e s) <> theme s
     | SystemChange _ => step e s = s
     end.
Proof.
  intros H. destruct e as [|d]; cbn [step].
  - split; [apply toggleTheme_chosen|].
    destruct H as [_ [Ht|Ht]]; unfold toggleTheme; cbn; rewrite Ht; discriminate.
  - unfold onSystemChange. rewrite (chosen_truthy s H). now split.
Qed.

Lemma run_chosen (es : list event) (s : state) :
  chosen s ->
  chosen (run es s)
  /\ (Nat.even (toggles es) = true -> theme (run es s) = theme s)
  /\ (Nat.even (toggles es) = false -> theme (run es s) <> theme s).
Proof.
  revert s. induction es as [|e es IH]; intros s H; cbn [run fold_left].
  - split; [exact H|]. split; [reflexivity | discriminate].
  - destruct (step_chosen e s H) as [H1 H2].
    destruct (IH (step e s) H1) as (I1 & I2 & I3).
    split; [exact I1|].
    destruct e as [|d]; cbn [toggles].
    + assert (Hflip : forall a b c : string,
                 (a = "light" \/ a = "dark") -> (b = "light" \/ b = "dark") ->
                 (c = "light" \/ c = "dark") -> b <> a ->
                 (c = b -> c <> a) /\ (c <> b -> c = a)).
      { intros a b c [-> | ->] [-> | ->] [-> | ->] Hne; split; congruence. }
      destruct (Hflip (theme s) (theme (step Toggle s))
                  (theme (run es (step Toggle s)))
                  (proj2 H) (proj2 H1) (proj2 I1) H2) as [F1 F2].
      rewrite Nat.even_succ, <- Nat.negb_even.
      split; intros He.
      * apply F2, I3. now apply negb_true_iff in He.
      * apply F1, I2. now apply negb_false_iff in He.
    + rewrite H2 in *. now split.
Qed.

(** Once chosen, the theme is the user's.  After a first toggle the theme
    is saved and is ['light'] or ['dark']; from then on a change of the
    system preference changes nothing at all, and the theme is the one
    chosen first exactly after an even number of further toggles. *)
Theorem chosen_theme_ignores_the_system (es : list event) (s : state) :
  let s1 := toggleTheme s in
  saved_theme (run es s1) = Some (theme (run es s1))
  /\ (theme (run es s1) = "light" \/ theme (run es s1) = "dark")
  /\ (forall d, onSystemChange d (run es s1) = run es s1)
  /\ (theme (run es s1) = theme s1 <-> Nat.even (toggles es) = true).
Proof.
  cbn zeta.
  destruct (run_chosen es (toggleTheme s) (toggleTheme_chosen s))
    as ([Hs Ht] & He & Ho).
  split; [exact Hs|]. split; [exact Ht|]. split.
  - intros d. unfold onSystemChange.
    now rewrite (chosen_truthy _ (conj Hs Ht)).
  - split; [|exact He]. intros Heq.
    destruct (Nat.even (toggles es)); [reflexivity|].
    now destruct (Ho eq_refl).
Qed.

Lemma onSystemChange_unsaved (d : bool) (s : state) :
  saved_theme s = None ->
  theme (onSystemChange d s) = system_theme d
  /\ saved_theme (onSystemChange d s) = None.
Proof. intros H. unfold onSystemChange. rewrite H. now split. Qed.

(** Until the user chooses, the theme is the system's.  On a visit with
    nothing saved, after [initTheme] and any number of system-preference
    changes (and no toggle), the theme is the one of the latest preference
    and nothing has been saved. *)
Theorem unchosen_theme_follows_the_system
  (prefers_dark : bool) (es : list event) (s : state) :
  saved_theme s = None ->
  no_toggle es ->
  theme (run es (initTheme prefers_dark s))
  = system_theme (last_preference prefers_dark es)
  /\ saved_theme (run es (initTheme prefers_dark s)) = None.
Proof.
  intros Hs Hes.
  assert (H0 : theme (initTheme prefers_dark s) = system_theme prefers_dark
               /\ saved_theme (initTheme prefers_dark s) = None)
    by (unfold initTheme; rewrite Hs; now split).
  revert H0. generalize (initTheme prefers_dark s). generalize prefers_dark.
  induction Hes as [|e es He Hes IH]; intros d t [Ht Hn]; cbn [run fold_left].
  - now split.
  - destruct e as [|d']; [congruence|]. cbn [step last_preference].
    apply IH. now apply onSystemChange_unsaved.
Qed.

Lemma unchosen_theme_follows_the_system_witness :
  theme (run [SystemChange true; SystemChange false; SystemChange true]
           (initTheme false first_visit))
  = "dark".
Proof.
  apply (unchosen_theme_follows_the_system false
           [SystemChange true; SystemChange false; SystemChange true]
           first_visit eq_refl).
  repeat constructor; discriminate.
Defined.

End ThemeFacts.

(* ------------------------------------------------------------------ *)
(** ** Debounced calls *)

Section DebounceFacts.

Import Debounce.

Variable A : Type.
Variable wait : nat.

Lemma last_cons_default (B : Type) (x d : B) (l : list B) :
  List.last (x :: l) d = List.last l x.
Proof.
  revert x d. induction l as [|y l IH]; intros x d; [reflexivity|].
  change (List.last (x :: y :: l) d) with (List.last (y :: l) d).
  now rewrite (IH y d), (IH y x).
Qed.

Lemma invocations_burst (calls : list (nat * A)) (now : nat) (a : A)
  (t : pending A) :
  burst wait ((now, a) :: calls) ->
  (forall due b, t = Some (due, b) -> now < due) ->
  invocations wait ((now, a) :: calls) t
  = [(fst (List.last calls (now, a)) + wait, snd (List.last calls (now, a)))].
Proof.
  revert now a t. induction calls as [|[next b] rest IH]; intros now a t Hb Ht.
  - cbn [invocations List.last fst snd].
    assert (He : elapse now t = ([], t)).
    { unfold elapse. destruct t as [[due c]|]; [|reflexivity].
      specialize (Ht due c eq_refl).
      destruct (Nat.leb_spec due now); [lia|reflexivity]. }
    rewrite He. reflexivity.
  - cbn [invocations].
    assert (He : elapse now t = ([], t)).
    { unfold elapse. destruct t as [[due c]|]; [|reflexivity].
      specialize (Ht due c eq_refl).
      destruct (Nat.leb_spec due now); [lia|reflexivity]. }
    rewrite He. cbn [app].
    destruct Hb as [[Hle Hlt] Hrest].
    rewrite (last_cons_default _ (next, b) (now, a) rest).
    apply (IH next b (call wait now a t) Hrest).
    intros due c [= <- _]. exact Hlt.
Qed.

(** A burst of calls makes one invocation.  When every call of the
    debounced function follows the previous one by less than [wait], [fn]
    is invoked exactly once, [wait] after the last call and with the
    arguments of the last call. *)
Theorem burst_fires_once_with_last_arguments
  (calls : list (nat * A)) (first_time : nat) (first_args : A) :
  burst wait ((first_time, first_args) :: calls) ->
  invocations wait ((first_time, first_args) :: calls) None
  = [(fst (List.last calls (first_time, first_args)) + wait,
      snd (List.last calls (first_time, first_args)))].
Proof.
  intros Hb. apply invocations_burst; [exact Hb | discriminate].
Qed.

Lemma invocations_from_calls (calls : list (nat * A)) (t : pending A) :
  forall due a, In (due, a) (invocations wait calls t) ->
    t = Some (due, a) \/ exists now, In (now, a) calls /\ due = now + wait.
Proof.
  revert t. induction calls as [|[now b] rest IH]; intros t due a Hin.
  - cbn [invocations] in Hin. destruct t as [[d c]|]; [|contradiction].
    destruct Hin as [[= <- <-]|[]]. now left.
  - cbn [invocations] in Hin.
    destruct (elapse now t) as [ran t'] eqn:He.
    apply in_app_iff in Hin. destruct Hin as [Hin|Hin].
    + left. unfold elapse in He. destruct t as [[d c]|].
      * destruct (d <=? now); injection He as <- <-; [|contradiction].
        destruct Hin as [[= <- <-]|[]]. reflexivity.
      * injection He as <- <-. contradiction.
    + destruct (IH _ _ _ Hin) as [Hc|(n & Hn & Hd)].
      * injection Hc as <- <-. right. exists now. split; [now left|reflexivity].
      * right. exists n. split; [now right|exact Hd].
Qed.

Lemma invocations_count (calls : list (nat * A)) (t : pending A) :
  List.length (invocations wait calls t)
  <= List.length calls + match t with Some _ => 1 | None => 0 end.
Proof.
  revert t. induction calls as [|[now b] rest IH]; intros t.
  - cbn. destruct t as [[d c]|]; cbn; lia.
  - cbn [invocations List.length].
    destruct (elapse now t) as [ran t'] eqn:He.
    rewrite length_app. specialize (IH (call wait now b t')). cbn in IH.
    assert (Hran : List.length ran <= match t with Some _ => 1 | None => 0 end).
    { unfold elapse in He. destruct t as [[d c]|].
      - destruct (d <=? now); injection He as <- <-; cbn; lia.
      - injection He as <- <-. cbn. lia. }
    lia.
Qed.

(** Debouncing invents nothing.  Whatever the timing of the calls, [fn] is
    invoked at most once per call, each invocation carries the arguments of
    one of the calls and happens [wait] after that call. *)
Theorem debounced_invocations_come_from_calls (calls : list (nat * A)) :
  List.length (invocations wait calls None) <= List.length calls
  /\ forall due a, In (due, a) (invocations wait calls None) ->
       exists now, In (now, a) calls /\ due = now + wait.
Proof.
  split.
  - pose proof (invocations_count calls None) as H. cbn in H. lia.
  - intros due a Hin.
    destruct (invocations_from_calls calls None due a Hin) as [H|H];
      [discriminate | exact H].
Qed.

End DebounceFacts.

Section SearchBoxFacts.

Import Debounce.
#[local] Open Scope string_scope.

(** Fast typing searches once.  When the input events of the search box
    follow one another by less than 180 ms, the gallery is filtered once,
    for the value of the input at the last event. *)
Theorem fast_typing_searches_once
  (typed : list (nat * string)) (now : nat) (value : string)
  (st : Projects.state) :
  burst 180 ((now, value) :: typed) ->
  search_after ((now, value) :: typed) st
  = Projects.onSearchInput (snd (List.last typed (now, value))) st.
Proof.
  intros Hb. unfold search_after.
  rewrite (invocations_burst string 180 typed now value None Hb)
    by discriminate.
  reflexivity.
Qed.

Lemma fast_typing_searches_once_witness :
  Projects.filteredProjects
    (search_after [(0, "d"); (90, "de"); (200, "dem"); (350, "demo")]
       Projects.demo_state)
  = Projects.demoProjects.
Proof.
  rewrite (fast_typing_searches_once
             [(90, "de"); (200, "dem"); (350, "demo")] 0 "d"
             Projects.demo_state).
  - reflexivity.
  - cbn. lia.
Defined.

Lemma debounced_invocations_come_from_calls_witness :
  exists now, In (now, "b") [(0, "a"); (400, "b")] /\ 550 = now + 150.
Proof.
  apply (debounced_invocations_come_from_calls string 150
           [(0, "a"); (400, "b")]).
  right; left; reflexivity.
Defined.

Lemma burst_fires_once_with_last_arguments_witness :
  invocations 150 [(0, "a"); (100, "b"); (249, "c")] None = [(399, "c")].
Proof.
  apply (burst_fires_once_with_last_arguments string 150
           [(100, "b"); (249, "c")] 0 "a").
  cbn. lia.
Defined.

End SearchBoxFacts.

(* ------------------------------------------------------------------ *)
(** ** Matching by derivatives *)

Section RegexFacts.

Import Regex.
#[local] Open Scope string_scope.

Lemma append_empty_r (s : string) : s ++ "" = s.
Proof. induction s as [|c s IH]; cbn; [reflexivity | now rewrite IH]. Qed.

Lemma append_is_empty (a b : string) : a ++ b = "" -> a = "" /\ b = "".
Proof. destruct a; cbn; [auto | discriminate]. Qed.

Lemma nullable_spec (r : regex) : nullable r = true <-> lang r "".
Proof.
  induction r as [| |p|r1 IH1 r2 IH2|r1 IH1 r2 IH2|r IH]; cbn [nullable].
  - split; [discriminate | intros H; inversion H].
  - split; [constructor | reflexivity].
  - split; [discriminate | intros H; inversion H].
  - rewrite andb_true_iff, IH1, IH2. split.
    + intros [H1 H2]. exact (lang_seq r1 r2 "" "" H1 H2).
    + intros H. inversion H; subst.
      match goal with E : _ ++ _ = "" |- _ =>
        apply append_is_empty in E; destruct E as [-> ->] end.
      now split.
  - rewrite orb_true_iff, IH1, IH2. split.
    + intros [H|H]; [now apply lang_alt_l | now apply lang_alt_r].
    + intros H. inversion H; subst; auto.
  - split; [constructor | reflexivity].
Qed.

(** A repetition matching a non-empty text starts with a non-empty round. *)
Lemma star_cons (r : regex) (c : ascii) (s : string) :
  lang (Star r) (String c s) ->
  exists s1 s2, s = s1 ++ s2 /\ lang r (String c s1) /\ lang (Star r) s2.
Proof.
  intros H. remember (Star r) as r' eqn:Er. remember (String c s) as t eqn:Et.
  revert s Et. induction H as [| | | | | |r0 s1 s2 H1 _ H2 IH2];
    intros u Et; try discriminate.
  injection Er as ->. destruct s1 as [|d s1].
  - cbn in Et. now apply IH2.
  - cbn in Et. injection Et as -> <-. now exists s1, s2.
Qed.

Lemma deriv_spec (c : ascii) (r : regex) (s : string) :
  lang (deriv c r) s <-> lang r (String c s).
Proof.
  revert s.
  induction r as [| |p|r1 IH1 r2 IH2|r1 IH1 r2 IH2|r IH]; intros s; cbn [deriv].
  - split; intros H; inversion H.
  - split; intros H; inversion H.
  - destruct (p c) eqn:Hp; split; intros H; inversion H; subst.
    + now constructor.
    + constructor.
    + congruence.
  - assert (Hseq : lang (Seq (deriv c r1) r2) s ->
                   lang (Seq r1 r2) (String c s)).
    { intros H. inversion H; subst.
      match goal with H1 : lang (deriv c r1) ?s1, H2 : lang r2 ?s2 |- _ =>
        apply IH1 in H1; exact (lang_seq r1 r2 (String c s1) s2 H1 H2) end. }
    assert (Hinv : lang (Seq r1 r2) (String c s) ->
                   lang (Seq (deriv c r1) r2) s
                   \/ (lang r1 "" /\ lang (deriv c r2) s)).
    { intros H. remember (String c s) as t eqn:Et.
      inversion H; subst.
      match goal with H1 : lang r1 ?s1, H2 : lang r2 ?s2,
                      E : ?s1 ++ ?s2 = String c s |- _ =>
        destruct s1 as [|d s1]; cbn in E;
        [ right; subst s2; split; [exact H1 | now apply IH2]
        | injection E as -> <-; left;
          apply lang_seq; [now apply IH1 | exact H2] ] end. }
    destruct (nullable r1) eqn:Hn.
    + split.
      * intros H. inversion H; subst; [now apply Hseq|].
        apply nullable_spec in Hn.
        match goal with Hd : lang (deriv c r2) s |- _ => apply IH2 in Hd;
          exact (lang_seq r1 r2 "" (String c s) Hn Hd) end.
      * intros H. destruct (Hinv H) as [H'|[_ H']];
          [now apply lang_alt_l | now apply lang_alt_r].
    + split; [exact Hseq|].
      intros H. destruct (Hinv H) as [H'|[H' _]]; [exact H'|].
      apply nullable_spec in H'. congruence.
  - split; intros H; inversion H; subst.
    + apply lang_alt_l. now apply IH1.
    + apply lang_alt_r. now apply IH2.
    + apply lang_alt_l. now apply IH1.
    + apply lang_alt_r. now apply IH2.
  - split.
    + intros H. inversion H; subst.
      match goal with H1 : lang (deriv c r) ?s1, H2 : lang (Star r) ?s2 |- _ =>
        apply IH in H1; exact (lang_star_cons r (String c s1) s2 H1 H2) end.
    + intros H. apply star_cons in H. destruct H as (s1 & s2 & -> & H1 & H2).
      apply lang_seq; [now apply IH | exact H2].
Qed.

(** [test] decides matching. *)
Lemma test_spec (r : regex) (s : string) : test r s = true <-> lang r s.
Proof.
  revert r. induction s as [|c s IH]; intros r; cbn [test].
  - apply nullable_spec.
  - rewrite IH. apply deriv_spec.
Qed.

(** What [c+] matches for a character class [c]. *)
Lemma star_class (p : ascii -> bool) (s : string) :
  lang (Star (Class p)) s <-> Forall (fun x => p x = true) (Gallery.chars s).
Proof.
  split.
  - intros H. remember (Star (Class p)) as r eqn:Er.
    induction H as [| | | | | |r0 s1 s2 H1 _ H2 IH2]; try discriminate.
    + constructor.
    + injection Er as ->. inversion H1; subst. cbn. constructor; auto.
  - induction s as [|c s IH]; cbn; intros H; [constructor|].
    inversion H as [|? ? Hc Hs]; subst.
    exact (lang_star_cons (Class p) (String c "") s
             (lang_class p c Hc) (IH Hs)).
Qed.

Lemma plus_class (p : ascii -> bool) (s : string) :
  lang (Plus (Class p)) s
  <-> s <> "" /\ Forall (fun x => p x = true) (Gallery.chars s).
Proof.
  unfold Plus. split.
  - intros H. inversion H; subst.
    match goal with H1 : lang (Class p) _ |- _ => inversion H1; subst end.
    cbn. split; [discriminate|].
    constructor; [assumption | now apply star_class].
  - intros [Hne H]. destruct s as [|c s]; [congruence|].
    cbn in H. inversion H as [|? ? Hc Hs]; subst.
    exact (lang_seq (Class p) (Star (Class p)) (String c "") s
             (lang_class p c Hc) (proj2 (star_class p s) Hs)).
Qed.

End RegexFacts.

(* ------------------------------------------------------------------ *)
(** ** Contact form *)

Section ContactFacts.

Import JsString Regex Contact.
#[local] Open Scope string_scope.

Lemma class_char (c : ascii) (s : string) :
  lang (Class (Ascii.eqb c)) s <-> s = String c "".
Proof.
  split.
  - intros H. inversion H; subst.
    match goal with E : Ascii.eqb c _ = true |- _ =>
      apply Ascii.eqb_eq in E; now subst end.
  - intros ->. constructor. apply Ascii.eqb_refl.
Qed.

Lemma seq_inv (r1 r2 : regex) (s : string) :
  lang (Seq r1 r2) s <-> exists s1 s2, s = s1 ++ s2 /\ lang r1 s1 /\ lang r2 s2.
Proof.
  split.
  - intros H. inversion H; subst. eauto.
  - intros (s1 & s2 & -> & H1 & H2). now constructor.
Qed.

Lemma email_re_spec (s : string) : lang email_re s <-> address_shaped s.
Proof.
  unfold email_re, address_shaped. split.
  - intros H.
    apply seq_inv in H. destruct H as (a & r1 & -> & Ha & H).
    apply seq_inv in H. destruct H as (at_ & r2 & -> & Hat & H).
    apply seq_inv in H. destruct H as (b & r3 & -> & Hb & H).
    apply seq_inv in H. destruct H as (dot & c & -> & Hdot & Hc).
    apply class_char in Hat. apply class_char in Hdot. subst at_ dot.
    apply plus_class in Ha. apply plus_class in Hb. apply plus_class in Hc.
    exists a, b, c. cbn [append]. intuition.
  - intros (a & b & c & -> & Ha & Hb & Hc & Fa & Fb & Fc).
    apply lang_seq; [now apply plus_class|].
    change ("@" ++ b ++ "." ++ c) with (String "@" "" ++ (b ++ (String "." "" ++ c))).
    apply lang_seq; [now apply class_char|].
    apply lang_seq; [now apply plus_class|].
    apply lang_seq; [now apply class_char | now apply plus_class].
Qed.

Lemma occurrences_app (x : ascii) (a b : string) :
  occurrences x (a ++ b) = occurrences x a + occurrences x b.
Proof. induction a as [|c a IH]; cbn; [reflexivity | rewrite IH; lia]. Qed.

Lemma plain_no_at (a : string) :
  Forall (fun x => plain x = true) (Gallery.chars a) ->
  occurrences "@" a = 0
  /\ Forall (fun x => is_space x = false) (Gallery.chars a).
Proof.
  induction a as [|c a IH]; cbn; intros H; [split; [reflexivity|constructor]|].
  inversion H as [|? ? Hc Ha]; subst. destruct (IH Ha) as [I1 I2].
  unfold plain in Hc. apply negb_true_iff, orb_false_iff in Hc.
  destruct Hc as [Hs He]. rewrite He, I1. split; [reflexivity|].
  now constructor.
Qed.

Lemma test_email_spec (s : string) :
  test email_re s = true <-> address_shaped s.
Proof. rewrite test_spec. apply email_re_spec. Qed.

(** What the e-mail pattern accepts.  The test of the contact form accepts
    a text exactly when it reads [local@domain.tld] with three non-empty
    parts free of white space and of further [@] signs; so an accepted
    address has no white space and exactly one [@]. *)
Theorem email_pattern_accepts_addresses (s : string) :
  (test email_re s = true <-> address_shaped s)
  /\ (test email_re s = true ->
      occurrences "@" s = 1
      /\ Forall (fun x => is_space x = false) (Gallery.chars s)).
Proof.
  pose proof (test_email_spec s) as H.
  split; [exact H|].
  intros Ht. apply H in Ht.
  destruct Ht as (a & b & c & -> & _ & _ & _ & Fa & Fb & Fc).
  destruct (plain_no_at a Fa) as [A1 A2].
  destruct (plain_no_at b Fb) as [B1 B2].
  destruct (plain_no_at c Fc) as [C1 C2].
  split.
  - rewrite !occurrences_app, A1, B1, C1. reflexivity.
  - rewrite !chars_app. repeat (apply Forall_app; split); try assumption;
      repeat constructor.
Qed.

Lemma email_pattern_accepts_addresses_witness :
  occurrences "@" "me@example.org" = 1.
Proof.
  apply (email_pattern_accepts_addresses "me@example.org"). reflexivity.
Defined.

Lemma blank_spec (f : field) : blank f = true <-> trim (value f) = "".
Proof.
  unfold blank. rewrite negb_true_iff. apply truthy_content.
Qed.

Lemma bad_email_spec (f : field) :
  bad_email f = false <->
  (is_email f = true -> value f <> "" -> address_shaped (value f)).
Proof.
  unfold bad_email.
  pose proof (test_email_spec (value f)) as He.
  destruct (is_email f); cbn [andb].
  - destruct (truthy (Some (value f))) eqn:Ht; cbn [andb].
    + rewrite negb_false_iff, He. split; [auto|].
      intros H. apply H; [reflexivity|].
      intros E. apply truthy_content in E. congruence.
    + apply truthy_content in Ht. split; [|reflexivity].
      intros _ _ Hne. contradiction.
  - split; [discriminate | reflexivity].
Qed.

Lemma validateField_v1_verdict (f : field) :
  snd (validateField_v1 f) = negb (required f && blank f) && negb (bad_email f).
Proof.
  unfold validateField_v1.
  destruct (required f && blank f); [reflexivity|].
  destruct (bad_email f); reflexivity.
Qed.

(** The two revisions of [validateField].  The earlier one accepts a field
    exactly when it is not both required and blank and, if it is a non-empty
    e-mail field, its value has the shape of an address.  On a field whose
    group has an error-message element the later revision decides the same;
    on a field whose group has none it accepts whatever the value is; on a
    field without a parent it raises. *)
Theorem revisions_of_validateField (f : field) :
  (snd (validateField_v1 f) = true <->
     (required f = true -> trim (value f) <> "")
     /\ (is_email f = true -> value f <> "" -> address_shaped (value f)))
  /\ (forall g, parent f = Some g -> error_message g <> None ->
        option_map snd (validateField_v2 f) = Some (snd (validateField_v1 f)))
  /\ (forall g, parent f = Some g -> error_message g = None ->
        validateField_v2 f = Some (f, true))
  /\ (parent f = None -> validateField_v2 f = None).
Proof.
  split; [|split; [|split]].
  - rewrite validateField_v1_verdict, andb_true_iff, !negb_true_iff.
    rewrite bad_email_spec. rewrite andb_false_iff.
    split.
    + intros [[Hr|Hb] He]; split; try exact He.
      * intros Hreq. congruence.
      * intros _ Ht. apply blank_spec in Ht. congruence.
    + intros [Hr He]. split; [|exact He].
      destruct (required f); [right|now left].
      destruct (blank f) eqn:Hb; [|reflexivity].
      apply blank_spec in Hb. now destruct (Hr eq_refl).
  - intros g Hp Hg. rewrite validateField_v1_verdict.
    unfold validateField_v2. rewrite Hp.
    destruct (error_message g); [|congruence].
    destruct (required f && blank f); [reflexivity|].
    destruct (bad_email f); reflexivity.
  - intros g Hp Hg. unfold validateField_v2. now rewrite Hp, Hg.
  - intros Hp. unfold validateField_v2. now rewrite Hp.
Qed.

Lemma revisions_of_validateField_witness :
  option_map snd (validateField_v2 (email_field "me@example"))
  = Some (snd (validateField_v1 (email_field "me@example")))
  /\ validateField_v2
       (with_parent (Some {| error_class := false; error_message := None |})
          (email_field ""))
     = Some (with_parent
               (Some {| error_class := false; error_message := None |})
               (email_field ""), true).
Proof.
  split.
  - apply (proj1 (proj2 (revisions_of_validateField (email_field "me@example")))
             _ eq_refl).
    discriminate.
  - apply (proj1 (proj2 (proj2 (revisions_of_validateField
             (with_parent
                (Some {| error_class := false; error_message := None |})
                (email_field "")))))
             _ eq_refl eq_refl).
Defined.

End ContactFacts.

(* ------------------------------------------------------------------ *)
(** ** The scroll lock *)

Section ScrollFacts.

Import Modal Scroll.

(** What [lock_follows_dialogs] reads of a state. *)
Lemma lock_follows_ext (s t : State) :
  is_open ProjectSurface t = is_open ProjectSurface s ->
  is_open BlogSurface t = is_open BlogSurface s ->
  body_overflow t = body_overflow s ->
  lock_follows_dialogs s -> lock_follows_dialogs t.
Proof.
  unfold lock_follows_dialogs, locked. now intros -> -> ->.
Qed.

Lemma open_without_effect (a : open_arg) (s : State) :
  ~ takes_effect a s -> open a s = s.
Proof.
  unfold takes_effect. destruct a as [p|i]; cbn [surface_of modal_of open].
  - unfold openProjectModal. destruct (project_modal s) as [m|]; [|reflexivity].
    destruct (body m); [|reflexivity].
    intros H. exfalso. apply H. split; [discriminate | exact I].
  - unfold openBlogModal. destruct (blog_modal s) as [m|]; [|reflexivity].
    destruct (body m); [|reflexivity].
    destruct (find (blog_has_id i) (blogs s)); [|reflexivity].
    intros H. exfalso. apply H. split; discriminate.
Qed.

Lemma takes_effect_dec (a : open_arg) (s : State) :
  takes_effect a s \/ ~ takes_effect a s.
Proof.
  unfold takes_effect. destruct (modal_of (surface_of a) s) as [m|]; [|now right].
  destruct (body m); [|right; intros [H _]; congruence].
  destruct a as [p|i].
  - left. split; [discriminate | exact I].
  - destruct (find (blog_has_id i) (blogs s)).
    + left. split; discriminate.
    + right. intros [_ H]. congruence.
Qed.

Lemma open_locks (a : open_arg) (s : State) :
  none_open s = true ->
  lock_follows_dialogs s -> lock_follows_dialogs (open a s).
Proof.
  intros Hn Hs. destruct (takes_effect_dec a s) as [Ht|Ht];
    [|now rewrite (open_without_effect a s Ht)].
  destruct (open_effect a s Ht) as (m & _ & Hm & _ & _ & Ho & _).
  pose proof (open_is_open_other a s) as Hother.
  assert (Hopen : is_open (surface_of a) (open a s) = true).
  { unfold is_open. rewrite Hm, trapFocus_aria_hidden. reflexivity. }
  unfold none_open in Hn. apply andb_true_iff in Hn.
  destruct Hn as [Hp Hb]. apply negb_true_iff in Hp. apply negb_true_iff in Hb.
  unfold lock_follows_dialogs, locked. rewrite Ho.
  destruct a as [p|i]; cbn [surface_of other] in *;
    rewrite Hopen, Hother; [rewrite Hb | rewrite Hp]; now split.
Qed.

Lemma close_unlocks (A : surface) (s : State) :
  is_open A s = true ->
  lock_follows_dialogs s -> lock_follows_dialogs (close A s).
Proof.
  intros Ho [_ Hone]. destruct (is_open_present A s Ho) as [m Hm].
  pose proof (is_open_close_same A s) as Hsame.
  pose proof (is_open_close_other A s) as Hother.
  pose proof (close_body_overflow A s m Hm) as Hov.
  unfold lock_follows_dialogs, locked. rewrite Hov.
  destruct A; cbn [other] in *; rewrite Hsame, Hother; rewrite Ho in Hone;
    cbn in Hone.
  - now rewrite Hone.
  - rewrite andb_true_r in Hone. now rewrite Hone.
Qed.

Lemma keyHandler_body_overflow h e s :
  body_overflow (fst (keyHandler h e s)) = body_overflow s.
Proof.
  unfold keyHandler. destruct (key_of e); try reflexivity.
  destruct (shiftKey e && active_is s (trap_first h));
    [apply focus_body_overflow|].
  destruct (negb (shiftKey e) && active_is s (trap_last h));
    [apply focus_body_overflow|reflexivity].
Qed.

Lemma bubble_body_overflow e s :
  body_overflow (fst (bubble_keydown e s)) = body_overflow s.
Proof.
  unfold bubble_keydown. destruct (activeElement s) as [n|]; [|reflexivity].
  destruct (container_of s n) as [A|]; [|reflexivity].
  generalize (listeners_of A s). intros hs. revert s.
  induction hs as [|h hs IH]; intros s; cbn [run_listeners]; [reflexivity|].
  pose proof (keyHandler_body_overflow h e s) as Hk.
  destruct (keyHandler h e s) as [s1 p]. specialize (IH s1).
  destruct (run_listeners hs e s1) as [s2 k]. cbn [fst] in *. congruence.
Qed.

Lemma escape_unlocks (e : keyEvent) (s : State) :
  lock_follows_dialogs s -> lock_follows_dialogs (on_document_keydown e s).
Proof.
  intros Hs. unfold on_document_keydown. destruct (key_of e); try exact Hs.
  destruct (is_open ProjectSurface s) eqn:Hp.
  - pose proof (close_unlocks ProjectSurface s Hp Hs) as H1. cbn [close] in H1.
    destruct (is_open BlogSurface (closeProjectModal s)) eqn:Hb; [|exact H1].
    apply (close_unlocks BlogSurface _ Hb H1).
  - destruct (is_open BlogSurface s) eqn:Hb; [|exact Hs].
    apply (close_unlocks BlogSurface s Hb Hs).
Qed.

Lemma step_lock (ev : event) (s : State) :
  possible ev s -> lock_follows_dialogs s -> lock_follows_dialogs (step ev s).
Proof.
  intros Hev Hs. destruct ev as [p|i|e|A|A|n|A]; cbn [step possible] in *.
  - apply (open_locks (OpenProject p) s Hev Hs).
  - apply (open_locks (OpenBlog i) s Hev Hs).
  - unfold keydown. apply escape_unlocks.
    apply (lock_follows_ext s).
    + apply is_open_ext, bubble_modal_of.
    + apply is_open_ext, bubble_modal_of.
    + apply bubble_body_overflow.
    + exact Hs.
  - rewrite (click_backdrop_close A s Hev). now apply close_unlocks.
  - unfold click_close. destruct (modal_of A s) as [m|]; [|exact Hs].
    destruct (closeBtn m); [now apply close_unlocks | exact Hs].
  - apply (lock_follows_ext s).
    + apply is_open_ext, focus_modal_of.
    + apply is_open_ext, focus_modal_of.
    + apply focus_body_overflow.
    + exact Hs.
  - apply (lock_follows_ext s).
    + apply timer_is_open.
    + apply timer_is_open.
    + now destruct A.
    + exact Hs.
Qed.

(** The page scroll is locked exactly while a dialog is open.  From a page
    with no dialog open and the scroll free, after any sequence of events
    the user can perform on the page as shown (cards only while no dialog is
    open, backdrop and close-button clicks only on an open dialog, any key,
    focus move or timer), [document.body] has [overflow: hidden] exactly when
    a dialog is open, and at most one dialog is. *)
Theorem scroll_is_locked_while_a_dialog_is_open (evs : list event) (s : State) :
  none_open s = true ->
  body_overflow s = overflow_unset ->
  all_possible evs s ->
  lock_follows_dialogs (run evs s).
Proof.
  intros Hn Ho Hevs.
  assert (Hs : lock_follows_dialogs s).
  { unfold none_open in Hn. apply andb_true_iff in Hn. destruct Hn as [Hp Hb].
    apply negb_true_iff in Hp. apply negb_true_iff in Hb.
    unfold lock_follows_dialogs, locked. now rewrite Ho, Hp, Hb. }
  clear Hn Ho. revert s Hevs Hs.
  induction evs as [|ev evs IH]; intros s Hevs Hs; cbn [run fold_left].
  - exact Hs.
  - destruct Hevs as [Hev Hrest]. apply IH; [exact Hrest|].
    now apply step_lock.
Qed.

Lemma scroll_is_locked_while_a_dialog_is_open_witness :
  lock_follows_dialogs
    (run [ActivateBlogCard 2000;
          Keydown {| key_of := Tab; shiftKey := true |};
          ClickClose BlogSurface;
          ActivateProjectCard Projects.demo_shop;
          Keydown {| key_of := Escape; shiftKey := false |}]
       loaded_page).
Proof.
  apply scroll_is_locked_while_a_dialog_is_open; try reflexivity.
  cbn [all_possible]. repeat split.
Defined.

End ScrollFacts.
